(** * pixi-sound: the [Sound] asset and the shared [SoundContext]

    A shallow embedding of [src/Sound.ts] and [src/SoundContext.ts].
    JavaScript objects are records, object references are indices into a
    store, asynchronous work (XMLHttpRequest, [fs.readFile],
    [decodeAudioData]) is a queue of outstanding requests that the
    environment answers one at a time, and every method is a computation in
    a state-and-exception monad over the whole world. *)

From Stdlib Require Import PrimFloat.
From stdpp Require Import gmap strings list.

(** ** Values *)

(** A JavaScript [number] is an IEEE double. *)
Definition number := float.

(** [!!x] for a number: [0], [-0] and [NaN] are falsy. *)
Definition truthy_number (x : number) : bool :=
  negb (PrimFloat.is_zero x || PrimFloat.is_nan x).

(** [!!s] for a string: only the empty string is falsy. *)
Definition truthy_string (s : string) : bool :=
  match s with EmptyString => false | _ => true end.

(** [!!x] for a value that may be [null]/[undefined]. *)
Definition truthy_opt {A} (t : A -> bool) (x : option A) : bool :=
  match x with Some a => t a | None => false end.

(** An [ArrayBuffer] of encoded audio. *)
Definition ArrayBuffer := list Byte.byte.

(** A decoded [AudioBuffer]; only its duration is read by [Sound]. *)
Record AudioBuffer := { duration : number }.

(** Thrown or passed-around error objects. *)
Inductive JsError :=
| Error (message : string)
| TypeError (message : string).

(** References: an instance, a promise, and the identity of a function
    supplied by the user of the library (an opaque callback). *)
Abbreviation ref := nat (only parsing).
Abbreviation pid := nat (only parsing).
Abbreviation fn := nat (only parsing).

(** ** SoundSprite *)

Record SoundSpriteData := {
  data_start : number;
  data_end : number;
  data_speed : option number
}.

Record SoundSprite := {
  sprite_start : number;
  sprite_end : number;
  sprite_speed : option number
}.

(** Modelled from the spec: the class [SoundSprite] ([./SoundSprite]) is not
    among the sources. "SoundSprite: attributes - start, end, speed
    override (optional). Read-only once created." *)
Definition new_SoundSprite (data : SoundSpriteData) : SoundSprite :=
  {| sprite_start := data_start data;
     sprite_end := data_end data;
     sprite_speed := data_speed data |}.

(** ** The sprite table

    [this._sprites = {}] is a plain object: the sprites it stores are its
    own properties, and reading [table[name]] for a name it does not store
    falls through to [Object.prototype]. *)

(** The property names a plain object inherits from [Object.prototype]. *)
Definition Object_prototype : list string :=
  ["constructor"; "__defineGetter__"; "__defineSetter__"; "hasOwnProperty";
   "__lookupGetter__"; "__lookupSetter__"; "isPrototypeOf";
   "propertyIsEnumerable"; "toString"; "valueOf"; "__proto__";
   "toLocaleString"].

(** What [table[name]] evaluates to when it is not [undefined]: a sprite
    stored in the table, or an inherited value (a function, or
    [Object.prototype] itself under [__proto__]), which is truthy and has
    no [start], [end], [speed] or [destroy]. *)
Inductive Member :=
| Stored (sprite : SoundSprite)
| Inherited.

(** [table[name]].  A sprite stored under [__proto__] reads back like any
    other: the assignment makes it the prototype of the table, and
    [table.__proto__] returns that.  What else the table then inherits, and
    what [for ... in] then visits, is decided by the class [SoundSprite],
    which is not among the sources: the table is kept as if the sprite were
    stored like any other, which is exact for tables that store nothing
    under [__proto__]. *)
Definition member (sprites : gmap string SoundSprite) (name : string)
    : option Member :=
  match sprites !! name with
  | Some sprite => Some (Stored sprite)
  | None =>
      if bool_decide (name ∈ Object_prototype) then Some Inherited else None
  end.

(** ** Options records *)

Module PlayOptions.
(** [interface PlayOptions], plus the deprecated [offset] that [play]
    still reads through [(options as any).offset].  A field that is
    absent (or [null]) is [None]. *)
Record t := {
  start : option number;
  end_ : option number;
  speed : option number;
  loop : option bool;
  fadeIn : option number;
  fadeOut : option number;
  sprite : option string;
  complete : option fn;
  loaded : option fn;
  offset : option number
}.

(** The object literal [{}]. *)
Definition empty : t :=
  {| start := None; end_ := None; speed := None; loop := None;
     fadeIn := None; fadeOut := None; sprite := None; complete := None;
     loaded := None; offset := None |}.
End PlayOptions.

Module Options.
(** [interface Options] of the constructor. *)
Record t := {
  autoPlay : option bool;
  singleInstance : option bool;
  volume : option number;
  speed : option number;
  complete : option fn;
  loaded : option fn;
  preload : option bool;
  loop : option bool;
  src : option string;
  srcBuffer : option ArrayBuffer;
  useXHR : option bool;
  sprites : option (list (string * SoundSpriteData))
}.

Definition empty : t :=
  {| autoPlay := None; singleInstance := None; volume := None;
     speed := None; complete := None; loaded := None; preload := None;
     loop := None; src := None; srcBuffer := None; useXHR := None;
     sprites := None |}.
End Options.

(** The first argument of [new Sound(context, source)]. *)
Inductive Source :=
| SourceString (s : string)
| SourceArrayBuffer (b : ArrayBuffer)
| SourceOptions (o : Options.t).

(** The first argument of [play(source?, complete?)]. *)
Inductive PlaySource :=
| PlayAlias (alias : string)
| PlayFunction (f : fn)
| PlayObject (o : PlayOptions.t)
| PlayUndefined.

(** ** Callbacks *)

(** A [LoadedCallback] is either a function of the user or the arrow
    function that [play] builds around [resolve]/[reject] of its promise. *)
Inductive LoadedCallback :=
| UserLoaded (f : fn)
| PlayLoaded (p : pid) (loaded : option fn).

(** ** SoundContext *)

Module Ctx.
Inductive AudioContextState := running | suspended.

(** [_gain] is [_gainNode.gain.value], [_state] is [_ctx.state]. *)
Record SoundContext := {
  _muted : bool;
  _volume : number;
  _paused : bool;
  _gain : number;
  _state : AudioContextState
}.

Definition get_muted (c : SoundContext) : bool := _muted c.

Definition set_muted (muted : bool) (c : SoundContext) : SoundContext :=
  {| _muted := muted;
     _volume := _volume c;
     _paused := _paused c;
     _gain := if muted then 0%float else _volume c;
     _state := _state c |}.

Definition set_volume (volume : number) (c : SoundContext) : SoundContext :=
  {| _muted := _muted c;
     _volume := volume;
     _paused := _paused c;
     _gain := if negb (_muted c) then volume else _gain c;
     _state := _state c |}.

Definition get_volume (c : SoundContext) : number := _volume c.

Definition set_paused (paused : bool) (c : SoundContext) : SoundContext :=
  {| _muted := _muted c;
     _volume := _volume c;
     _paused := paused;
     _gain := _gain c;
     _state :=
       match paused, _state c with
       | true, running => suspended
       | false, suspended => running
       | _, s => s
       end |}.

Definition get_paused (c : SoundContext) : bool := _paused c.

Definition toggleMute (c : SoundContext) : bool * SoundContext :=
  let c' := set_muted (negb (get_muted c)) c in
  (_muted c', c').

(** The constructor: a fresh gain node (value [1]), fields still
    [undefined] (falsy), then the three setters in source order. *)
Definition new_SoundContext (initial : AudioContextState) : SoundContext :=
  let raw :=
    {| _muted := false; _volume := 1%float; _paused := false;
       _gain := 1%float; _state := initial |} in
  set_paused false (set_muted false (set_volume 1%float raw)).
End Ctx.

(** ** SoundInstance *)

(** Modelled from the spec: the class [SoundInstance] ([./SoundInstance]) is
    not among the sources.  "States: Created -> Playing -> {Paused <->
    Playing} -> Completed | Stopped -> Destroyed (terminal)." *)
Inductive Lifecycle :=
| Created | Playing | Paused | Completed | Stopped | Destroyed.

(** The six arguments [Sound.play] hands to [instance.play]. *)
Record PlayArgs := {
  arg_start : option number;
  arg_end : option number;
  arg_speed : option number;
  arg_loop : option bool;
  arg_fadeIn : option number;
  arg_fadeOut : option number
}.

(** The listener [Sound.play] registers with [instance.once("end", ...)]:
    an arrow function that has captured [options.complete]. *)
Inductive EndListener := SoundEnd (complete : option fn).

(** One instance object.  [inst_on_stop] says whether the listener that
    [Sound.play] registers with [instance.once("stop", ...)] is attached. *)
Record SoundInstance := {
  inst_state : Lifecycle;
  inst_played : option PlayArgs;
  inst_on_end : option EndListener;
  inst_on_stop : bool
}.

Definition set_inst_state (v : Lifecycle) (i : SoundInstance) : SoundInstance :=
  Build_SoundInstance v (inst_played i) (inst_on_end i) (inst_on_stop i).

Definition set_inst_played (v : option PlayArgs) (i : SoundInstance) : SoundInstance :=
  Build_SoundInstance (inst_state i) v (inst_on_end i) (inst_on_stop i).

Definition set_inst_on_end (v : option EndListener) (i : SoundInstance) : SoundInstance :=
  Build_SoundInstance (inst_state i) (inst_played i) v (inst_on_stop i).

Definition set_inst_on_stop (v : bool) (i : SoundInstance) : SoundInstance :=
  Build_SoundInstance (inst_state i) (inst_played i) (inst_on_end i) v.

(** What [play] returns: an instance, or a promise of one. *)
Inductive PlayResult :=
| Instance (r : ref)
| Deferred (p : pid).

(** ** Sound *)

(** Modelled from the spec: the class [SoundNodes] ([./SoundNodes]) is not
    among the sources.  "Owns: one source stage, a mutable ordered list of
    effect nodes, one gain stage wired to the MixingContext bus."  The
    source stage is the object [Sound] keeps in [_source]. *)
Record SoundNodes := {
  nodes_gain : number;
  nodes_filters : list nat
}.

(** The [AudioBufferSourceNode] behind [_source]. *)
Record BufferSource := {
  buffer : option AudioBuffer;
  source_loop : bool;
  playbackRate : number
}.

(** A reference to the one [SoundContext] of the world. *)
Inductive ContextRef := TheContext.

(** The fields of [class Sound].  [destroy()] sets [_nodes], [_context],
    [_source], [_sprites], [srcBuffer] and [_instances] to [null], hence the
    options.  [_sprites] is the object used as a map from names to sprites;
    names that [Object.prototype] defines ("constructor", "toString", ...)
    are left aside.  [block] is no member of the class: it is the property
    that the test suite and the example page assign from outside
    ([sound.block = true]). *)
Record Sound := {
  isLoaded : bool;
  isPlaying : bool;
  autoPlay : bool;
  singleInstance : bool;
  preload : bool;
  src : option string;
  srcBuffer : option ArrayBuffer;
  useXHR : bool;
  _autoPlayOptions : option PlayOptions.t;
  _volume : number;
  _sprites : option (gmap string SoundSprite);
  _context : option ContextRef;
  _nodes : option SoundNodes;
  _source : option BufferSource;
  _instances : option (list ref);
  block : bool
}.

Definition set_isLoaded (v : bool) (s : Sound) : Sound :=
  Build_Sound v (isPlaying s) (autoPlay s) (singleInstance s) (preload s)
    (src s) (srcBuffer s) (useXHR s) (_autoPlayOptions s) (_volume s)
    (_sprites s) (_context s) (_nodes s) (_source s) (_instances s)
    (block s).

Definition set_isPlaying (v : bool) (s : Sound) : Sound :=
  Build_Sound (isLoaded s) v (autoPlay s) (singleInstance s) (preload s)
    (src s) (srcBuffer s) (useXHR s) (_autoPlayOptions s) (_volume s)
    (_sprites s) (_context s) (_nodes s) (_source s) (_instances s)
    (block s).

Definition set_autoPlay (v : bool) (s : Sound) : Sound :=
  Build_Sound (isLoaded s) (isPlaying s) v (singleInstance s) (preload s)
    (src s) (srcBuffer s) (useXHR s) (_autoPlayOptions s) (_volume s)
    (_sprites s) (_context s) (_nodes s) (_source s) (_instances s)
    (block s).

Definition set_singleInstance (v : bool) (s : Sound) : Sound :=
  Build_Sound (isLoaded s) (isPlaying s) (autoPlay s) v (preload s) (src s)
    (srcBuffer s) (useXHR s) (_autoPlayOptions s) (_volume s) (_sprites s)
    (_context s) (_nodes s) (_source s) (_instances s) (block s).

Definition set_preload (v : bool) (s : Sound) : Sound :=
  Build_Sound (isLoaded s) (isPlaying s) (autoPlay s) (singleInstance s) v
    (src s) (srcBuffer s) (useXHR s) (_autoPlayOptions s) (_volume s)
    (_sprites s) (_context s) (_nodes s) (_source s) (_instances s)
    (block s).

Definition set_src (v : option string) (s : Sound) : Sound :=
  Build_Sound (isLoaded s) (isPlaying s) (autoPlay s) (singleInstance s)
    (preload s) v (srcBuffer s) (useXHR s) (_autoPlayOptions s) (_volume s)
    (_sprites s) (_context s) (_nodes s) (_source s) (_instances s)
    (block s).

Definition set_srcBuffer (v : option ArrayBuffer) (s : Sound) : Sound :=
  Build_Sound (isLoaded s) (isPlaying s) (autoPlay s) (singleInstance s)
    (preload s) (src s) v (useXHR s) (_autoPlayOptions s) (_volume s)
    (_sprites s) (_context s) (_nodes s) (_source s) (_instances s)
    (block s).

Definition set_useXHR (v : bool) (s : Sound) : Sound :=
  Build_Sound (isLoaded s) (isPlaying s) (autoPlay s) (singleInstance s)
    (preload s) (src s) (srcBuffer s) v (_autoPlayOptions s) (_volume s)
    (_sprites s) (_context s) (_nodes s) (_source s) (_instances s)
    (block s).

Definition set__autoPlayOptions (v : option PlayOptions.t) (s : Sound) : Sound :=
  Build_Sound (isLoaded s) (isPlaying s) (autoPlay s) (singleInstance s)
    (preload s) (src s) (srcBuffer s) (useXHR s) v (_volume s) (_sprites s)
    (_context s) (_nodes s) (_source s) (_instances s) (block s).

Definition set__volume (v : number) (s : Sound) : Sound :=
  Build_Sound (isLoaded s) (isPlaying s) (autoPlay s) (singleInstance s)
    (preload s) (src s) (srcBuffer s) (useXHR s) (_autoPlayOptions s) v
    (_sprites s) (_context s) (_nodes s) (_source s) (_instances s)
    (block s).

Definition set__sprites (v : option (gmap string SoundSprite)) (s : Sound) : Sound :=
  Build_Sound (isLoaded s) (isPlaying s) (autoPlay s) (singleInstance s)
    (preload s) (src s) (srcBuffer s) (useXHR s) (_autoPlayOptions s)
    (_volume s) v (_context s) (_nodes s) (_source s) (_instances s)
    (block s).

Definition set__context (v : option ContextRef) (s : Sound) : Sound :=
  Build_Sound (isLoaded s) (isPlaying s) (autoPlay s) (singleInstance s)
    (preload s) (src s) (srcBuffer s) (useXHR s) (_autoPlayOptions s)
    (_volume s) (_sprites s) v (_nodes s) (_source s) (_instances s)
    (block s).

Definition set__nodes (v : option SoundNodes) (s : Sound) : Sound :=
  Build_Sound (isLoaded s) (isPlaying s) (autoPlay s) (singleInstance s)
    (preload s) (src s) (srcBuffer s) (useXHR s) (_autoPlayOptions s)
    (_volume s) (_sprites s) (_context s) v (_source s) (_instances s)
    (block s).

Definition set__source (v : option BufferSource) (s : Sound) : Sound :=
  Build_Sound (isLoaded s) (isPlaying s) (autoPlay s) (singleInstance s)
    (preload s) (src s) (srcBuffer s) (useXHR s) (_autoPlayOptions s)
    (_volume s) (_sprites s) (_context s) (_nodes s) v (_instances s)
    (block s).

Definition set__instances (v : option (list ref)) (s : Sound) : Sound :=
  Build_Sound (isLoaded s) (isPlaying s) (autoPlay s) (singleInstance s)
    (preload s) (src s) (srcBuffer s) (useXHR s) (_autoPlayOptions s)
    (_volume s) (_sprites s) (_context s) (_nodes s) (_source s) v (block s).

Definition set_block (v : bool) (s : Sound) : Sound :=
  Build_Sound (isLoaded s) (isPlaying s) (autoPlay s) (singleInstance s)
    (preload s) (src s) (srcBuffer s) (useXHR s) (_autoPlayOptions s)
    (_volume s) (_sprites s) (_context s) (_nodes s) (_source s)
    (_instances s) v.

(** ** The world *)

Inductive PromiseState :=
| PromisePending
| Resolved (value : option PlayResult)
| Rejected (reason : JsError).

(** Asynchronous work handed to the environment, with the callback that
    the continuation will call. *)
Inductive Request :=
| XhrRequest (url : string) (callback : option LoadedCallback)
| ReadFileRequest (path : string) (callback : option LoadedCallback)
| DecodeRequest (arrayBuffer : ArrayBuffer) (callback : option LoadedCallback).

(** What the outside can observe. *)
Inductive Event :=
| ConsoleError (message : string)
| ConsoleAssert (message : string)
| XhrSend (url : string)
| FsReadFile (path : string)
| DecodeAudioData (arrayBuffer : ArrayBuffer)
| LoadedCalled (f : fn) (err : option JsError) (sound : bool)
    (instance : option PlayResult)
| CompleteCalled (f : fn).

(** One asset, the context it plays through, the instance objects and
    promises allocated so far, the outstanding requests, the trace of
    observable events, and whether the build kept the [@if DEBUG] blocks. *)
Record World := {
  sound : Sound;
  context : Ctx.SoundContext;
  heap : list SoundInstance;
  promises : list PromiseState;
  pending : list Request;
  log : list Event;
  DEBUG : bool
}.

Definition with_sound (v : Sound) (w : World) : World :=
  Build_World v (context w) (heap w) (promises w) (pending w) (log w)
    (DEBUG w).

Definition with_context (v : Ctx.SoundContext) (w : World) : World :=
  Build_World (sound w) v (heap w) (promises w) (pending w) (log w)
    (DEBUG w).

Definition with_heap (v : list SoundInstance) (w : World) : World :=
  Build_World (sound w) (context w) v (promises w) (pending w) (log w)
    (DEBUG w).

Definition with_promises (v : list PromiseState) (w : World) : World :=
  Build_World (sound w) (context w) (heap w) v (pending w) (log w) (DEBUG w).

Definition with_pending (v : list Request) (w : World) : World :=
  Build_World (sound w) (context w) (heap w) (promises w) v (log w)
    (DEBUG w).

Definition with_log (v : list Event) (w : World) : World :=
  Build_World (sound w) (context w) (heap w) (promises w) (pending w) v
    (DEBUG w).

Definition with_DEBUG (v : bool) (w : World) : World :=
  Build_World (sound w) (context w) (heap w) (promises w) (pending w)
    (log w) v.

(** ** The monad of methods

    A method runs on the world and either returns or throws; what it wrote
    before throwing stays written. *)

Inductive Res (A : Type) :=
| Ok (a : A)
| Throw (e : JsError).
Arguments Ok {A} a.
Arguments Throw {A} e.

Definition M (A : Type) : Type := World -> Res A * World.

#[global] Instance M_ret : MRet M := fun A a w => (Ok a, w).

#[global] Instance M_bind : MBind M := fun A B f m w =>
  match m w with
  | (Ok a, w') => f a w'
  | (Throw e, w') => (Throw e, w')
  end.

#[global] Instance M_throw : MThrow JsError M := fun A e w => (Throw e, w).

Definition gets {A} (f : World -> A) : M A := fun w => (Ok (f w), w).

Definition modify (f : World -> World) : M unit := fun w => (Ok tt, f w).

(** The world a computation leaves, and what it returned. *)
Definition exec {A} (m : M A) (w : World) : World := (m w).2.
Definition result {A} (m : M A) (w : World) : Res A := (m w).1.

(** [this]. *)
Definition this : M Sound := gets sound.

Definition update_this (f : Sound -> Sound) : M unit :=
  modify (fun w => with_sound (f (sound w)) w).

(** Reading a property of [x] throws when [x] is [null] or [undefined]. *)
Definition non_null {A} (what : string) (x : option A) : M A :=
  match x with
  | Some a => mret a
  | None => mthrow (TypeError ("Cannot read properties of " +:+ what))
  end.

Definition emit (e : Event) : M unit :=
  modify (fun w => with_log (log w ++ [e]) w).

(** [console.assert(condition, message)] only reports a failed condition;
    it never throws. *)
Definition console_assert (condition : bool) (message : string) : M unit :=
  if condition then mret tt else emit (ConsoleAssert message).

Definition console_error (message : string) : M unit :=
  emit (ConsoleError message).

Definition when (b : bool) (m : M unit) : M unit :=
  if b then m else mret tt.

(** [for (let i = n - 1; i >= 0; i--) body(i)]. *)
Fixpoint for_reverse (n : nat) (body : nat -> M unit) : M unit :=
  match n with
  | 0 => mret tt
  | S i => body i ;; for_reverse i body
  end.

(** ** Promises *)

Definition settle (p : pid) (outcome : PromiseState) : M unit :=
  modify (fun w =>
    match promises w !! p with
    | Some PromisePending => with_promises (<[p := outcome]> (promises w)) w
    | _ => w
    end).

Definition resolve (p : pid) (value : option PlayResult) : M unit :=
  settle p (Resolved value).

Definition reject (p : pid) (reason : JsError) : M unit :=
  settle p (Rejected reason).

(** [new Promise(executor)]: the executor runs at once, and an exception it
    throws rejects the promise instead of propagating. *)
Definition new_Promise (executor : pid -> M unit) : M pid := fun w =>
  let p := length (promises w) in
  let w1 := with_promises (promises w ++ [PromisePending]) w in
  match executor p w1 with
  | (Ok _, w2) => (Ok p, w2)
  | (Throw e, w2) => (Ok p, exec (reject p e) w2)
  end.

(** Calling a [LoadedCallback] with [(err, sound, instance)].  A function of
    the user is opaque: the call is recorded.  The arrow function of [play]
    is the one written there. *)
Definition call_loaded (callback : LoadedCallback) (err : option JsError)
    (with_sound : bool) (instance : option PlayResult) : M unit :=
  match callback with
  | UserLoaded f => emit (LoadedCalled f err with_sound instance)
  | PlayLoaded p loaded =>
      match err with
      | Some e => reject p e
      | None =>
          match loaded with
          | Some f => emit (LoadedCalled f err with_sound instance)
          | None => mret tt
          end ;;
          resolve p instance
      end
  end.

(** ** SoundInstance: the methods [Sound] calls *)

Definition deref (r : ref) : M SoundInstance :=
  h ← gets heap; non_null "a dangling reference" (h !! r).

Definition update_instance (r : ref) (f : SoundInstance -> SoundInstance)
    : M unit :=
  modify (fun w => with_heap (alter f r (heap w)) w).

(** Modelled from the spec: [SoundInstance.create(parent)], a fresh
    instance in state Created, without listeners. *)
Definition SoundInstance_create : M ref := fun w =>
  let fresh :=
    {| inst_state := Created; inst_played := None;
       inst_on_end := None; inst_on_stop := false |} in
  (Ok (length (heap w)), with_heap (heap w ++ [fresh]) w).

(** Modelled from the spec: "Created->Playing: play(start, end, speed,
    loop, fadeIn, fadeOut) schedules output beginning at start". *)
Definition instance_play (r : ref) (args : PlayArgs) : M unit :=
  deref r ;;
  update_instance r (fun i => set_inst_played (Some args)
                                (set_inst_state Playing i)).

(** Modelled from the spec: "->Destroyed ... releases the underlying source
    stage"; a destroyed instance has no listeners left. *)
Definition instance_destroy (r : ref) : M unit :=
  deref r ;;
  update_instance r (fun i =>
    set_inst_on_stop false (set_inst_on_end None (set_inst_state Destroyed i))).

(** Modelled from the spec: "paused setter suspends/resumes progress
    without resetting position". *)
Definition instance_set_paused (r : ref) (paused : bool) : M unit :=
  i ← deref r;
  match inst_state i, paused with
  | Playing, true => update_instance r (set_inst_state Paused)
  | Paused, false => update_instance r (set_inst_state Playing)
  | _, _ => mret tt
  end.

Definition terminal (l : Lifecycle) : bool :=
  match l with
  | Completed | Stopped | Destroyed => true
  | Created | Playing | Paused => false
  end.

(** ** Sound: accessors *)

(** [get isPlayable]. *)
Definition isPlayable : M bool :=
  s ← this;
  mret (isLoaded s && truthy_opt (fun b => bool_decide (is_Some (buffer b)))
                        (_source s)).

(** [get volume] and [set volume]: the setter writes the gain of [_nodes]
    first (a chained assignment), then [_volume]. *)
Definition get_volume : M number := gets (fun w => _volume (sound w)).

Definition set_volume (volume : number) : M unit :=
  s ← this;
  nodes ← non_null "null (reading 'gain')" (_nodes s);
  update_this (set__nodes
    (Some {| nodes_gain := volume; nodes_filters := nodes_filters nodes |})) ;;
  update_this (set__volume volume).

(** [get loop] and [set loop]. *)
Definition get_loop : M bool :=
  s ← this; b ← non_null "null (reading 'loop')" (_source s);
  mret (source_loop b).

Definition set_loop (loop : bool) : M unit :=
  s ← this; b ← non_null "null (setting 'loop')" (_source s);
  update_this (set__source
    (Some {| buffer := buffer b; source_loop := loop;
             playbackRate := playbackRate b |})).

(** [get buffer] and [set buffer]. *)
Definition get_buffer : M (option AudioBuffer) :=
  s ← this; b ← non_null "null (reading 'buffer')" (_source s);
  mret (buffer b).

Definition set_buffer (value : option AudioBuffer) : M unit :=
  s ← this; b ← non_null "null (setting 'buffer')" (_source s);
  update_this (set__source
    (Some {| buffer := value; source_loop := source_loop b;
             playbackRate := playbackRate b |})).

(** [get speed] and [set speed]. *)
Definition get_speed : M number :=
  s ← this; b ← non_null "null (reading 'playbackRate')" (_source s);
  mret (playbackRate b).

Definition set_speed (value : number) : M unit :=
  s ← this; b ← non_null "null (reading 'playbackRate')" (_source s);
  update_this (set__source
    (Some {| buffer := buffer b; source_loop := source_loop b;
             playbackRate := value |})).

(** [get instances]; indexing and [.length] throw on [null]. *)
Definition instances : M (list ref) :=
  s ← this; non_null "null (reading 'length')" (_instances s).

(** [this._instances[i]], about to be dereferenced. *)
Definition instance_at (i : nat) : M ref :=
  l ← instances; non_null "undefined" (l !! i).

(** ** Sound: sprites *)

(** [addSprites(alias, data)], the string overload. *)
Definition addSprite (alias : string) (data : SoundSpriteData)
    : M SoundSprite :=
  s ← this;
  sprites ← non_null "null" (_sprites s);
  console_assert (negb (bool_decide (is_Some (member sprites alias))))
    ("Alias " +:+ alias +:+ " is already taken") ;;
  let sprite := new_SoundSprite data in
  update_this (set__sprites (Some (<[alias := sprite]> sprites))) ;;
  mret sprite.

(** [addSprites(sprites)], the object overload: [for (const alias in
    source)] over the entries in enumeration order. *)
Fixpoint addSprites (source : list (string * SoundSpriteData))
    : M (gmap string SoundSprite) :=
  match source with
  | [] => mret ∅
  | (alias, data) :: rest =>
      sprite ← addSprite alias data;
      results ← addSprites rest;
      mret (<[alias := sprite]> results)
  end.

(** ** Sound: reaping *)

(** [_onComplete(instance)]: [indexOf] and [splice] take out the first
    occurrence. *)
Fixpoint remove_first (r : ref) (l : list ref) : list ref :=
  match l with
  | [] => []
  | x :: rest => if decide (x = r) then rest else x :: remove_first r rest
  end.

Definition _onComplete (instance : ref) : M unit :=
  s ← this;
  match _instances s with
  | Some l =>
      let l' := remove_first instance l in
      update_this (fun s => set_isPlaying (bool_decide (0 < length l'))
                              (set__instances (Some l') s))
  | None => mret tt
  end ;;
  instance_destroy instance.

(** [_removeInstances()]. *)
Definition _removeInstances : M unit :=
  l ← instances;
  for_reverse (length l) (fun i => r ← instance_at i; instance_destroy r) ;;
  update_this (set__instances (Some [])).

(** ** SoundInstance: events *)

(** The ["stop"] listener of [Sound.play], registered with [once]. *)
Definition fire_stop (r : ref) : M unit :=
  i ← deref r;
  if inst_on_stop i then
    update_instance r (set_inst_on_stop false) ;;
    _onComplete r
  else mret tt.

(** The ["end"] listener of [Sound.play], registered with [once]. *)
Definition fire_end (r : ref) : M unit :=
  i ← deref r;
  match inst_on_end i with
  | Some (SoundEnd complete) =>
      update_instance r (set_inst_on_end None) ;;
      match complete with
      | Some f => emit (CompleteCalled f)
      | None => mret tt
      end ;;
      _onComplete r
  | None => mret tt
  end.

(** Modelled from the spec: "any non-terminal state->Stopped: explicit
    stop() - fires a stop event exactly once". *)
Definition instance_stop (r : ref) : M unit :=
  i ← deref r;
  if terminal (inst_state i) then mret tt
  else update_instance r (set_inst_state Stopped) ;; fire_stop r.

(** Modelled from the spec: "Playing->Completed: natural end reached -
    fires a completion event exactly once".  The environment raises it. *)
Definition instance_ended (r : ref) : M unit :=
  i ← deref r;
  match inst_state i with
  | Playing => update_instance r (set_inst_state Completed) ;; fire_end r
  | _ => mret tt
  end.

(** ** Sound: preloading *)

Definition enqueue (r : Request) : M unit :=
  modify (fun w => with_pending (pending w ++ [r]) w).

(** [_loadUrl(callback)]: [request.send()] hands the request to the
    browser; only [onload] is set. *)
Definition _loadUrl (callback : option LoadedCallback) : M unit :=
  s ← this;
  let url := default "null" (src s) in
  emit (XhrSend url) ;;
  enqueue (XhrRequest url callback).

(** [_loadPath(callback)]: [fs.readFile(src, ...)]. *)
Definition _loadPath (callback : option LoadedCallback) : M unit :=
  s ← this;
  let path := default "null" (src s) in
  emit (FsReadFile path) ;;
  enqueue (ReadFileRequest path callback).

(** [SoundContext.decode(arrayBuffer, callback)] passes the bytes to
    [decodeAudioData]. *)
Definition Ctx_decode (arrayBuffer : ArrayBuffer)
    (callback : option LoadedCallback) : M unit :=
  emit (DecodeAudioData arrayBuffer) ;;
  enqueue (DecodeRequest arrayBuffer callback).

(** [_decode(arrayBuffer, callback)], up to the call of [decode]; the arrow
    function it passes is [decode_callback] below. *)
Definition _decode (arrayBuffer : ArrayBuffer)
    (callback : option LoadedCallback) : M unit :=
  s ← this;
  non_null "null (reading 'decode')" (_context s) ;;
  Ctx_decode arrayBuffer callback.

Definition must_be_set : string := "sound.src or sound.srcBuffer must be set".

(** [_beginPreload(callback)]. *)
Definition _beginPreload (callback : option LoadedCallback) : M unit :=
  s ← this;
  if truthy_opt truthy_string (src s) then
    if useXHR s then _loadUrl callback else _loadPath callback
  else
    match srcBuffer s with
    | Some bytes => _decode bytes callback
    | None =>
        match callback with
        | Some cb => call_loaded cb (Some (Error must_be_set)) false None
        | None => console_error must_be_set
        end
    end.

(** ** Sound: play *)

(** The overloads of [play(source, complete)]: which options object the
    first lines build, [options || {}] included. *)
Definition play_options (source : PlaySource) (complete : option fn)
    : PlayOptions.t :=
  match source with
  | PlayAlias alias =>
      {| PlayOptions.start := None; PlayOptions.end_ := None;
         PlayOptions.speed := None; PlayOptions.loop := None;
         PlayOptions.fadeIn := None; PlayOptions.fadeOut := None;
         PlayOptions.sprite := Some alias;
         PlayOptions.complete := complete;
         PlayOptions.loaded := None; PlayOptions.offset := None |}
  | PlayFunction f =>
      {| PlayOptions.start := None; PlayOptions.end_ := None;
         PlayOptions.speed := None; PlayOptions.loop := None;
         PlayOptions.fadeIn := None; PlayOptions.fadeOut := None;
         PlayOptions.sprite := None;
         PlayOptions.complete := Some f;
         PlayOptions.loaded := None; PlayOptions.offset := None |}
  | PlayObject o => o
  | PlayUndefined => PlayOptions.empty
  end.

(** [Object.assign({complete: null, loaded: null, sprite: null, start: 0,
    fadeIn: 0, fadeOut: 0}, options)]. *)
Definition play_defaults (o : PlayOptions.t) : PlayOptions.t :=
  {| PlayOptions.start := Some (default 0%float (PlayOptions.start o));
     PlayOptions.end_ := PlayOptions.end_ o;
     PlayOptions.speed := PlayOptions.speed o;
     PlayOptions.loop := PlayOptions.loop o;
     PlayOptions.fadeIn := Some (default 0%float (PlayOptions.fadeIn o));
     PlayOptions.fadeOut := Some (default 0%float (PlayOptions.fadeOut o));
     PlayOptions.sprite := PlayOptions.sprite o;
     PlayOptions.complete := PlayOptions.complete o;
     PlayOptions.loaded := PlayOptions.loaded o;
     PlayOptions.offset := PlayOptions.offset o |}.

(** The three assignments from the sprite and [delete options.sprite]. *)
Definition with_sprite (sprite : SoundSprite) (o : PlayOptions.t)
    : PlayOptions.t :=
  {| PlayOptions.start := Some (sprite_start sprite);
     PlayOptions.end_ := Some (sprite_end sprite);
     PlayOptions.speed := sprite_speed sprite;
     PlayOptions.loop := PlayOptions.loop o;
     PlayOptions.fadeIn := PlayOptions.fadeIn o;
     PlayOptions.fadeOut := PlayOptions.fadeOut o;
     PlayOptions.sprite := None;
     PlayOptions.complete := PlayOptions.complete o;
     PlayOptions.loaded := PlayOptions.loaded o;
     PlayOptions.offset := PlayOptions.offset o |}.

(** The same assignments from what the table found under the name: an
    inherited value has no [start], [end] or [speed]. *)
Definition with_member (found : Member) (o : PlayOptions.t) : PlayOptions.t :=
  match found with
  | Stored sprite => with_sprite sprite o
  | Inherited =>
      {| PlayOptions.start := None;
         PlayOptions.end_ := None;
         PlayOptions.speed := None;
         PlayOptions.loop := PlayOptions.loop o;
         PlayOptions.fadeIn := PlayOptions.fadeIn o;
         PlayOptions.fadeOut := PlayOptions.fadeOut o;
         PlayOptions.sprite := None;
         PlayOptions.complete := PlayOptions.complete o;
         PlayOptions.loaded := PlayOptions.loaded o;
         PlayOptions.offset := PlayOptions.offset o |}
  end.

(** "A sprite is specified, add the options". *)
Definition play_sprite (o : PlayOptions.t) : M PlayOptions.t :=
  if truthy_opt truthy_string (PlayOptions.sprite o) then
    let alias := default "" (PlayOptions.sprite o) in
    s ← this;
    debug ← gets DEBUG;
    sprites ← non_null "null" (_sprites s);
    when debug
      (console_assert (bool_decide (is_Some (member sprites alias)))
         ("Alias " +:+ alias +:+ " is not available")) ;;
    sprite ← non_null "undefined (reading 'start')" (member sprites alias);
    mret (with_member sprite o)
  else mret o.

(** "@deprecated offset option". *)
Definition play_offset (o : PlayOptions.t) : PlayOptions.t :=
  if truthy_opt truthy_number (PlayOptions.offset o) then
    {| PlayOptions.start := PlayOptions.offset o;
       PlayOptions.end_ := PlayOptions.end_ o;
       PlayOptions.speed := PlayOptions.speed o;
       PlayOptions.loop := PlayOptions.loop o;
       PlayOptions.fadeIn := PlayOptions.fadeIn o;
       PlayOptions.fadeOut := PlayOptions.fadeOut o;
       PlayOptions.sprite := PlayOptions.sprite o;
       PlayOptions.complete := PlayOptions.complete o;
       PlayOptions.loaded := PlayOptions.loaded o;
       PlayOptions.offset := PlayOptions.offset o |}
  else o.

Definition play_args (o : PlayOptions.t) : PlayArgs :=
  {| arg_start := PlayOptions.start o;
     arg_end := PlayOptions.end_ o;
     arg_speed := PlayOptions.speed o;
     arg_loop := PlayOptions.loop o;
     arg_fadeIn := PlayOptions.fadeIn o;
     arg_fadeOut := PlayOptions.fadeOut o |}.

(** The branch of [play] taken while [isLoaded] is false. *)
Definition play_deferred (options : PlayOptions.t) : M pid :=
  new_Promise (fun p =>
    update_this (set_autoPlay true) ;;
    update_this (set__autoPlayOptions (Some options)) ;;
    _beginPreload (Some (PlayLoaded p (PlayOptions.loaded options)))).

(** The rest of [play], from "Stop all sounds" on. *)
Definition play_now (options : PlayOptions.t) : M ref :=
  s ← this;
  when (singleInstance s) _removeInstances ;;
  instance ← SoundInstance_create;
  l ← instances;
  update_this (set__instances (Some (l ++ [instance]))) ;;
  update_this (set_isPlaying true) ;;
  update_instance instance
    (set_inst_on_end (Some (SoundEnd (PlayOptions.complete options)))) ;;
  update_instance instance (set_inst_on_stop true) ;;
  instance_play instance (play_args options) ;;
  mret instance.

(** [play(source, complete)]. *)
Definition play (source : PlaySource) (complete : option fn)
    : M PlayResult :=
  let options := play_defaults (play_options source complete) in
  options ← play_sprite options;
  let options := play_offset options in
  s ← this;
  if negb (isLoaded s) then p ← play_deferred options; mret (Deferred p)
  else r ← play_now options; mret (Instance r).

(** ** Sound: stop, pause, resume *)

(** [stop()]. *)
Definition stop : M unit :=
  playable ← isPlayable;
  if negb playable then
    update_this (set_autoPlay false) ;;
    update_this (set__autoPlayOptions None)
  else
    update_this (set_isPlaying false) ;;
    l ← instances;
    for_reverse (length l) (fun i => r ← instance_at i; instance_stop r).

(** [pause()]. *)
Definition pause : M unit :=
  l ← instances;
  for_reverse (length l)
    (fun i => r ← instance_at i; instance_set_paused r true) ;;
  update_this (set_isPlaying false).

(** [resume()]. *)
Definition resume : M unit :=
  l ← instances;
  for_reverse (length l)
    (fun i => r ← instance_at i; instance_set_paused r false) ;;
  l ← instances;
  update_this (set_isPlaying (bool_decide (0 < length l))).

(** ** What the environment answers *)

(** The arrow function [_decode] passes to [decode], called with
    [(err, buffer)]. *)
Definition decode_callback (callback : option LoadedCallback)
    (outcome : JsError + AudioBuffer) : M unit :=
  match outcome with
  | inl err =>
      match callback with
      | Some cb => call_loaded cb (Some err) false None
      | None => mret tt
      end
  | inr decoded =>
      update_this (set_isLoaded true) ;;
      set_buffer (Some decoded) ;;
      s ← this;
      instance ←
        (if autoPlay s then
           r ← play (match _autoPlayOptions s with
                     | Some o => PlayObject o
                     | None => PlayUndefined
                     end) None;
           mret (Some r)
         else mret None);
      match callback with
      | Some cb => call_loaded cb None true instance
      | None => mret tt
      end
  end.

(** [request.onload] of [_loadUrl]. *)
Definition xhr_onload (callback : option LoadedCallback)
    (response : ArrayBuffer) : M unit :=
  update_this (set_srcBuffer (Some response)) ;;
  _decode response callback.

(** The callback [_loadPath] gives to [fs.readFile]. *)
Definition readFile_callback (callback : option LoadedCallback)
    (outcome : JsError + ArrayBuffer) : M unit :=
  match outcome with
  | inl err =>
      debug ← gets DEBUG;
      when debug
        (console_error match err with Error m | TypeError m => m end) ;;
      match callback with
      | Some cb =>
          s ← this;
          call_loaded cb
            (Some (Error ("File not found " +:+ default "null" (src s))))
            false None
      | None => mret tt
      end
  | inr data =>
      update_this (set_srcBuffer (Some data)) ;;
      _decode data callback
  end.

(** An answer of the environment to one outstanding request.
    [decodeAudioData] failing makes [SoundContext.decode] call back with
    [new Error('Unable to decode file')]. *)
Inductive Answer :=
| XhrLoaded (response : ArrayBuffer)
| ReadFileFailed (err : JsError)
| ReadFileData (data : ArrayBuffer)
| DecodeSucceeded (decoded : AudioBuffer)
| DecodeFailed.

Definition unable_to_decode : JsError := Error "Unable to decode file".

(** The continuation of a request, run on its answer; an answer of the
    wrong kind is no answer. *)
Definition continue (r : Request) (a : Answer) : option (M unit) :=
  match r, a with
  | XhrRequest _ cb, XhrLoaded response => Some (xhr_onload cb response)
  | ReadFileRequest _ cb, ReadFileFailed err =>
      Some (readFile_callback cb (inl err))
  | ReadFileRequest _ cb, ReadFileData data =>
      Some (readFile_callback cb (inr data))
  | DecodeRequest _ cb, DecodeSucceeded decoded =>
      Some (decode_callback cb (inr decoded))
  | DecodeRequest _ cb, DecodeFailed =>
      Some (decode_callback cb (inl unable_to_decode))
  | _, _ => None
  end.

(** The environment answers the [n]-th outstanding request: the request
    leaves the queue and its continuation runs. *)
Definition answer (n : nat) (a : Answer) : M unit := fun w =>
  match pending w !! n with
  | Some r =>
      match continue r a with
      | Some k => k (with_pending (delete n (pending w)) w)
      | None => (Ok tt, w)
      end
  | None => (Ok tt, w)
  end.

(** ** Sound: the constructor *)

(** The options object the constructor starts from. *)
Definition constructor_options (source : Source) : Options.t :=
  match source with
  | SourceString s =>
      {| Options.autoPlay := None; Options.singleInstance := None;
         Options.volume := None; Options.speed := None;
         Options.complete := None; Options.loaded := None;
         Options.preload := None; Options.loop := None;
         Options.src := Some s; Options.srcBuffer := None;
         Options.useXHR := None; Options.sprites := None |}
  | SourceArrayBuffer b =>
      {| Options.autoPlay := None; Options.singleInstance := None;
         Options.volume := None; Options.speed := None;
         Options.complete := None; Options.loaded := None;
         Options.preload := None; Options.loop := None;
         Options.src := None; Options.srcBuffer := Some b;
         Options.useXHR := None; Options.sprites := None |}
  | SourceOptions o => o
  end.

(** Modelled from the spec: [new SoundNodes(context)], with a fresh source
    stage (no buffer, not looping, rate 1), gain 1 and no effects. *)
Definition new_SoundNodes : SoundNodes * BufferSource :=
  ({| nodes_gain := 1%float; nodes_filters := [] |},
   {| buffer := None; source_loop := false; playbackRate := 1%float |}).

(** [new Sound(context, source)], on the [sound] of the world, up to the
    last statement.  The defaults of [Object.assign] are read where a field
    is used; [_volume] is not a number until the [volume] setter has run. *)
Definition constructor_fields (source : Source) : M unit :=
  let options := constructor_options source in
  let autoPlay := default false (Options.autoPlay options) in
  modify (with_sound
    {| isLoaded := false;
       isPlaying := false;
       autoPlay := autoPlay;
       singleInstance := default false (Options.singleInstance options);
       preload := default false (Options.preload options) || autoPlay;
       src := Options.src options;
       srcBuffer := Options.srcBuffer options;
       useXHR := default true (Options.useXHR options);
       _autoPlayOptions :=
         match Options.complete options with
         | Some complete =>
             Some {| PlayOptions.start := None; PlayOptions.end_ := None;
                     PlayOptions.speed := None; PlayOptions.loop := None;
                     PlayOptions.fadeIn := None; PlayOptions.fadeOut := None;
                     PlayOptions.sprite := None;
                     PlayOptions.complete := Some complete;
                     PlayOptions.loaded := None;
                     PlayOptions.offset := None |}
         | None => None
         end;
       _volume := PrimFloat.nan;
       _sprites := Some ∅;
       _context := Some TheContext;
       _nodes := Some new_SoundNodes.1;
       _source := Some new_SoundNodes.2;
       _instances := Some [];
       block := false |}) ;;
  set_volume (default 1%float (Options.volume options)) ;;
  set_loop (default false (Options.loop options)) ;;
  set_speed (default 1%float (Options.speed options)) ;;
  match Options.sprites options with
  | Some sprites => addSprites sprites ;; mret tt
  | None => mret tt
  end.

(** The whole constructor: it ends with [if (this.preload)
    this._beginPreload(options.loaded)]. *)
Definition new_Sound (source : Source) : M unit :=
  constructor_fields source ;;
  s ← this;
  when (preload s)
    (_beginPreload
       (UserLoaded <$> Options.loaded (constructor_options source))).

(** ** Worlds to run on *)

Definition blank_sound : Sound :=
  {| isLoaded := false; isPlaying := false; autoPlay := false;
     singleInstance := false; preload := false; src := None;
     srcBuffer := None; useXHR := true; _autoPlayOptions := None;
     _volume := PrimFloat.nan; _sprites := None; _context := None;
     _nodes := None; _source := None; _instances := None; block := false |}.

(** Nothing allocated, nothing outstanding, a running context. *)
Definition empty_world (debug : bool) : World :=
  {| sound := blank_sound;
     context := Ctx.new_SoundContext Ctx.running;
     heap := []; promises := []; pending := []; log := [];
     DEBUG := debug |}.

(** A world in which [new Sound(context, source)] has run. *)
Definition world_of (source : Source) : World :=
  exec (new_Sound source) (empty_world false).

(** [play()] called [n] times in a row. *)
Fixpoint play_times (n : nat) : M unit :=
  match n with
  | 0 => mret tt
  | S k => play PlayUndefined None ;; play_times k
  end.

(** One call of [play] after the other, each with its own arguments. *)
Fixpoint play_each (calls : list (PlaySource * option fn)) : M unit :=
  match calls with
  | [] => mret tt
  | (source, complete) :: rest => play source complete ;; play_each rest
  end.

(** ** Operations on an asset *)

(** The public operations on one asset and its instances: the four methods
    of [Sound], the natural end of an instance (raised by the audio clock)
    and [instance.stop()] called by who holds the instance. *)
Inductive Operation :=
| DoPlay (source : PlaySource) (complete : option fn)
| DoStop
| DoPause
| DoResume
| InstanceEnded (r : ref)
| InstanceStop (r : ref).

Definition run (op : Operation) : M unit :=
  match op with
  | DoPlay source complete => play source complete ;; mret tt
  | DoStop => stop
  | DoPause => pause
  | DoResume => resume
  | InstanceEnded r => instance_ended r
  | InstanceStop r => instance_stop r
  end.

(** One step of the world: an operation, or the environment answering the
    [n]-th outstanding request. *)
Inductive Step :=
| Operate (op : Operation)
| Answered (n : nat) (a : Answer).

Definition step (s : Step) : M unit :=
  match s with
  | Operate op => run op
  | Answered n a => answer n a
  end.

(** The world after a run of steps; a step that throws leaves what it had
    written. *)
Fixpoint steps (l : list Step) (w : World) : World :=
  match l with
  | [] => w
  | s :: rest => steps rest (exec (step s) w)
  end.

(** ** Well-formed worlds *)

(** An instance that [Sound.play] has spawned and that has not ended: it is
    playing or paused and carries both listeners of its asset. *)
Definition live (i : SoundInstance) : bool :=
  match inst_state i with
  | Playing | Paused =>
      inst_on_stop i && bool_decide (is_Some (inst_on_end i))
  | _ => false
  end.

(** The list behind [get instances], empty once the asset is destroyed. *)
Definition active (w : World) : list ref :=
  default [] (_instances (sound w)).

(** What the methods of [Sound] keep true of an asset that is not
    destroyed: the instance list holds pairwise different references to
    live instance objects. *)
Definition well_formed (w : World) : Prop :=
  exists l, _instances (sound w) = Some l /\ NoDup l /\
    Forall (fun r => live <$> heap w !! r = Some true) l.

(** [isPlaying] says whether the instance list is non-empty. *)
Definition playing_iff_active (w : World) : Prop :=
  isPlaying (sound w) = bool_decide (active w <> []).

(** What the constructor establishes and every step keeps: the asset is
    well formed and has its source stage; once it is loaded the stage
    holds a buffer, and until then the asset has no instance and is not
    playing. *)
Definition coherent (w : World) : Prop :=
  well_formed w /\
  exists b, _source (sound w) = Some b /\
    if isLoaded (sound w) then is_Some (buffer b)
    else active w = [] /\ isPlaying (sound w) = false.

(** An operation that takes effect: a [play] that returns, a [stop], a
    [pause] or a [resume], the natural end of an instance of the list that
    is playing, the stop of an instance of the list. *)
Definition takes_effect (op : Operation) (w : World) : Prop :=
  match op with
  | DoPlay source complete => exists r, result (play source complete) w = Ok r
  | DoStop | DoPause | DoResume => True
  | InstanceEnded r =>
      r ∈ active w /\ inst_state <$> heap w !! r = Some Playing
  | InstanceStop r => r ∈ active w
  end.

(** The name a call of [play] gives for a sprite, if it gives one, is found
    in the table: the call does not throw at the lookup. *)
Definition sprite_known (w : World) (call : PlaySource * option fn) : Prop :=
  let alias := default "" (PlayOptions.sprite (play_options call.1 call.2)) in
  truthy_string alias = true ->
  exists sprites, _sprites (sound w) = Some sprites /\
    is_Some (member sprites alias).

(** The arguments with which instance [r] was played. *)
Definition played_with (w : World) (r : ref) : option PlayArgs :=
  i ← heap w !! r; inst_played i.

(** ** Worlds after an operation *)

(** [instance.destroy()] on an instance object. *)
Definition destroyed (i : SoundInstance) : SoundInstance :=
  set_inst_on_stop false (set_inst_on_end None (set_inst_state Destroyed i)).

(** The instance [play] has spawned once it returns. *)
Definition spawned (o : PlayOptions.t) : SoundInstance :=
  {| inst_state := Playing; inst_played := Some (play_args o);
     inst_on_end := Some (SoundEnd (PlayOptions.complete o));
     inst_on_stop := true |}.

(** The [paused] setter on an instance object. *)
Definition paused_as (paused : bool) (i : SoundInstance) : SoundInstance :=
  match inst_state i, paused with
  | Playing, true => set_inst_state Paused i
  | Paused, false => set_inst_state Playing i
  | _, _ => i
  end.

(** The asset after [_onComplete(r)] on the instance list [l]. *)
Definition reaped (r : ref) (l : list ref) (s : Sound) : Sound :=
  set_isPlaying (bool_decide (0 < length (remove_first r l)))
    (set__instances (Some (remove_first r l)) s).

(** What the ["end"] listener reports to the user. *)
Definition completion_log (complete : option fn) : list Event :=
  match complete with Some f => [CompleteCalled f] | None => [] end.

(** The world after the loaded branch of [play] with options [o], on the
    instance list [l]. *)
Definition played (o : PlayOptions.t) (l : list ref) (w : World) : World :=
  let single := singleInstance (sound w) in
  with_heap ((if single then foldr (alter destroyed) (heap w) l else heap w)
             ++ [spawned o])
    (with_sound
       (set_isPlaying true
          (set__instances
             (Some ((if single then [] else l) ++ [length (heap w)]))
             (sound w))) w).

(** The options the autoplay of [_decode] plays with. *)
Definition autoplay_options (s : Sound) : PlayOptions.t :=
  play_offset (play_defaults (default PlayOptions.empty (_autoPlayOptions s))).

(** The asset after [isLoaded = true] and [buffer = decoded]. *)
Definition decoded_sound (decoded : AudioBuffer) (b : BufferSource)
    (s : Sound) : Sound :=
  set__source
    (Some {| buffer := Some decoded; source_loop := source_loop b;
             playbackRate := playbackRate b |})
    (set_isLoaded true s).

(** ** Example worlds *)

Definition some_bytes : ArrayBuffer := [Byte.x49; Byte.x44; Byte.x33].

Definition one_second : AudioBuffer := {| duration := 1%float |}.

(** [new Sound(context, {srcBuffer, preload: true})], decoded. *)
Definition loaded_world : World :=
  exec (answer 0 (DecodeSucceeded one_second))
    (world_of (SourceOptions
       {| Options.autoPlay := None; Options.singleInstance := None;
          Options.volume := None; Options.speed := None;
          Options.complete := None; Options.loaded := None;
          Options.preload := Some true; Options.loop := None;
          Options.src := None; Options.srcBuffer := Some some_bytes;
          Options.useXHR := None; Options.sprites := None |})).

(** The same asset with [sound.block = true], as the test suite sets it. *)
Definition blocking_world : World :=
  with_sound (set_block true (sound loaded_world)) loaded_world.

(** The same asset with [sound.singleInstance = true]. *)
Definition single_world : World :=
  with_sound (set_singleInstance true (sound loaded_world)) loaded_world.

(** A loaded asset with the sprite [x = {start: 1, end: 2}]. *)
Definition sprite_x : SoundSpriteData :=
  {| data_start := 1%float; data_end := 2%float; data_speed := None |}.

Definition sprite_world : World :=
  exec (addSprite "x" sprite_x) loaded_world.

(** [new Sound(context, {srcBuffer, preload: true})], not yet decoded. *)
Definition preloading_world : World :=
  world_of (SourceOptions
    {| Options.autoPlay := None; Options.singleInstance := None;
       Options.volume := None; Options.speed := None;
       Options.complete := None; Options.loaded := None;
       Options.preload := Some true; Options.loop := None;
       Options.src := None; Options.srcBuffer := Some some_bytes;
       Options.useXHR := None; Options.sprites := None |}).

(** [new Sound(context, {})]: neither [src] nor [srcBuffer]. *)
Definition sourceless_world : World :=
  world_of (SourceOptions Options.empty).

(** ** Sound: duration, removeSprites, destroy *)

(** [get duration]; the assertion is in an [@if DEBUG] block. *)
Definition get_duration : M number :=
  debug ← gets DEBUG;
  when debug
    (playable ← isPlayable;
     console_assert playable "Sound not yet playable, no duration") ;;
  s ← this;
  b ← non_null "null (reading 'buffer')" (_source s);
  decoded ← non_null "null (reading 'duration')" (buffer b);
  mret (duration decoded).

(** [for (const name in this._sprites) body(name)], the names coming in the
    order [names]: a name that was deleted before its turn is skipped, and
    [null] has no names. *)
Fixpoint for_in (names : list string) (body : string -> M unit) : M unit :=
  match names with
  | [] => mret tt
  | name :: rest =>
      s ← this;
      (if bool_decide (is_Some (default ∅ (_sprites s) !! name))
       then body name else mret tt) ;;
      for_in rest body
  end.

(** What a call throws that finds no room on the call stack (a
    [RangeError]). *)
Definition stack_overflow : JsError :=
  Error "Maximum call stack size exceeded".

(** The order in which [for ... in] visits the names of a sprite table is
    the engine's (it follows the history of the object): each name of the
    table once. *)
Definition enumerates (enumerate : gmap string SoundSprite -> list string)
    : Prop :=
  forall m, NoDup (enumerate m) /\
    forall name, name ∈ enumerate m <-> is_Some (m !! name).

(** One such order. *)
Definition some_order (m : gmap string SoundSprite) : list string :=
  (map_to_list m).*1.

Section ForIn.

Variable enumerate : gmap string SoundSprite -> list string.

(** [removeSprites(alias?)], with room for [depth] nested calls on the call
    stack: without an alias (or with the empty one) it calls itself on every
    name of the table.  Modelled from the spec: [sprite.destroy()] of the
    missing class [SoundSprite] only detaches the sprite ("destroy and
    detach").  An inherited value is not [undefined] and has no
    [destroy]. *)
Fixpoint removeSprites (depth : nat) (alias : option string) : M unit :=
  match depth with
  | 0 => mthrow stack_overflow
  | S depth' =>
      if negb (truthy_opt truthy_string alias) then
        s ← this;
        for_in (match _sprites s with
                | Some sprites => enumerate sprites
                | None => []
                end)
          (fun name => removeSprites depth' (Some name))
      else
        s ← this;
        sprites ← non_null "null" (_sprites s);
        match member sprites (default "" alias) with
        | Some (Stored sprite) =>
            update_this (set__sprites (Some (delete (default "" alias) sprites)))
        | Some Inherited => mthrow (TypeError "sprite.destroy is not a function")
        | None => mret tt
        end
  end.

(** [destroy()], with room for [depth] nested calls under it.  Modelled
    from the spec: [_nodes.destroy()] of the missing class [SoundNodes]
    "disconnects every stage"; nothing of it is read afterwards. *)
Definition destroy (depth : nat) : M unit :=
  s ← this;
  non_null "null (reading 'destroy')" (_nodes s) ;;
  update_this (set__nodes None) ;;
  update_this (set__context None) ;;
  update_this (set__source None) ;;
  removeSprites depth None ;;
  update_this (set__sprites None) ;;
  update_this (set_srcBuffer None) ;;
  _removeInstances ;;
  update_this (set__instances None).

End ForIn.

(** The asset after [destroy()] has run to its end: the six fields it
    nulls. *)
Definition released (s : Sound) : Sound :=
  set__instances None
    (set_srcBuffer None
       (set__sprites None
          (set__source None (set__context None (set__nodes None s))))).

(** ** SoundContext: what a page does to it *)

Inductive ContextOperation :=
| SetMuted (muted : bool)
| SetVolume (volume : number)
| SetPaused (paused : bool)
| ToggleMute.

Definition context_run (c : Ctx.SoundContext) (op : ContextOperation)
    : Ctx.SoundContext :=
  match op with
  | SetMuted muted => Ctx.set_muted muted c
  | SetVolume volume => Ctx.set_volume volume c
  | SetPaused paused => Ctx.set_paused paused c
  | ToggleMute => (Ctx.toggleMute c).2
  end.

(** ** More example worlds *)

(** Two [play()] calls on the loaded asset. *)
Definition playing_world : World := exec (play_times 2) loaded_world.

(** [play()] on the asset that is still decoding. *)
Definition waiting_world : World :=
  exec (play PlayUndefined None) preloading_world.

(** [new Sound(context, "a.mp3")]: nothing is loading yet. *)
Definition unloaded_world : World := world_of (SourceString "a.mp3").

(** [new Sound(context, {src: "a.mp3", useXHR: false, preload: true,
    loaded})]: [fs.readFile] is outstanding. *)
Definition reading_world : World :=
  world_of (SourceOptions
    {| Options.autoPlay := None; Options.singleInstance := None;
       Options.volume := None; Options.speed := None;
       Options.complete := None; Options.loaded := Some 3;
       Options.preload := Some true; Options.loop := None;
       Options.src := Some "a.mp3"; Options.srcBuffer := None;
       Options.useXHR := Some false; Options.sprites := None |}).

(** [new Sound(context, {srcBuffer, autoPlay: true, loaded})]: the decode
    is outstanding and carries the callback. *)
Definition autoplay_world : World :=
  world_of (SourceOptions
    {| Options.autoPlay := Some true; Options.singleInstance := None;
       Options.volume := None; Options.speed := None;
       Options.complete := None; Options.loaded := Some 3;
       Options.preload := None; Options.loop := None;
       Options.src := None; Options.srcBuffer := Some some_bytes;
       Options.useXHR := None; Options.sprites := None |}).

(** The loaded asset with a sprite under the empty name. *)
Definition unnamed_sprite_world : World :=
  exec (addSprite "" sprite_x) loaded_world.

(** * Proofs *)

(** ** Lists *)

(** Facts about [alter], folds of it, and [remove_first]. *)

Lemma length_foldr_alter {A} (f : A -> A) rs (h : list A) :
  length (foldr (alter f) h rs) = length h.
Proof. induction rs as [|r rs IH]; cbn; [done|]. by rewrite length_alter. Qed.

Lemma alter_fixed {A} (f : A -> A) (h : list A) r x :
  h !! r = Some x -> f x = x -> alter f r h = h.
Proof.
  intros Hx Hf. apply list_eq. intros j.
  rewrite list_lookup_alter. case_decide as Hj; [|done].
  subst j. by rewrite Hx; cbn; rewrite Hf.
Qed.

Lemma alter_twice {A} (f g : A -> A) (h : list A) r :
  alter f r (alter g r h) = alter (f ∘ g) r h.
Proof.
  apply list_eq. intros j. destruct (decide (r = j)) as [->|Hne].
  - rewrite !list_lookup_alter_eq. by destruct (h !! j).
  - by rewrite !list_lookup_alter_ne.
Qed.

Lemma foldr_alter_keeps {A} (P : A -> Prop) (f : A -> A) rs (h : list A) r x :
  (forall y, P y -> P (f y)) ->
  h !! r = Some x -> P x ->
  exists y, foldr (alter f) h rs !! r = Some y /\ P y.
Proof.
  intros Hf Hx HP. induction rs as [|a rs IH]; cbn; [eauto|].
  destruct IH as (y & Hy & HPy). destruct (decide (a = r)) as [->|Hne].
  - rewrite list_lookup_alter_eq, Hy. cbn. eauto.
  - rewrite list_lookup_alter_ne by done. eauto.
Qed.

Lemma foldr_alter_hits {A} (P : A -> Prop) (f : A -> A) rs (h : list A) r :
  (forall y, P (f y)) -> r ∈ rs -> r < length h ->
  exists y, foldr (alter f) h rs !! r = Some y /\ P y.
Proof.
  intros Hf Hin Hr. induction rs as [|a rs IH]; [by apply elem_of_nil in Hin|].
  cbn. destruct (decide (a = r)) as [->|Hne].
  - destruct (lookup_lt_is_Some_2 (foldr (alter f) h rs) r) as [y Hy].
    { by rewrite length_foldr_alter. }
    rewrite list_lookup_alter_eq, Hy. cbn. eauto.
  - rewrite list_lookup_alter_ne by done. apply IH.
    apply elem_of_cons in Hin as [?|?]; congruence.
Qed.

Lemma remove_first_subseteq r l x : x ∈ remove_first r l -> x ∈ l.
Proof.
  induction l as [|a l IH]; cbn; [done|]. case_decide.
  - intros. by right.
  - rewrite !elem_of_cons. intros [->|Hx]; [by left|right; by apply IH].
Qed.

Lemma remove_first_NoDup r l : NoDup l -> NoDup (remove_first r l).
Proof.
  induction 1 as [|a l Ha Hl IH]; cbn; [constructor|]. case_decide; [done|].
  constructor; [|done]. intros Hin. by apply Ha, (remove_first_subseteq r).
Qed.

Lemma remove_first_gone r l : NoDup l -> r ∉ remove_first r l.
Proof.
  induction 1 as [|a l Ha Hl IH]; cbn; [by apply not_elem_of_nil|].
  case_decide; [by subst|]. by rewrite not_elem_of_cons.
Qed.

Lemma remove_first_last r l : r ∉ l -> remove_first r (l ++ [r]) = l.
Proof.
  induction l as [|a l IH]; cbn.
  - intros _. by case_decide.
  - rewrite not_elem_of_cons. intros [Hne Hn]. case_decide; [congruence|].
    by rewrite IH.
Qed.

Lemma delete_last {A} (l : list A) x : delete (length l) (l ++ [x]) = l.
Proof. by rewrite delete_middle, app_nil_r. Qed.

Lemma fresh_promise_pending (ps : list PromiseState) :
  (ps ++ [PromisePending]) !! length ps = Some PromisePending.
Proof. by rewrite list_lookup_middle. Qed.

(** ** Running a method *)

(** A method is run one bind at a time: [bind_ok] and [bind_throw] consume
    the first statement once its outcome is known. *)

Ltac unfold_monad :=
  unfold exec, result, mbind, M_bind, mret, M_ret, mthrow, M_throw, gets,
    modify, this, update_this, emit, non_null, when in *.

Lemma bind_ok {A B} (m : M A) (f : A -> M B) w a w' :
  m w = (Ok a, w') -> (m ≫= f) w = f a w'.
Proof. intros H. unfold mbind, M_bind. by rewrite H. Qed.

Lemma bind_throw {A B} (m : M A) (f : A -> M B) w e w' :
  m w = (Throw e, w') -> (m ≫= f) w = (Throw e, w').
Proof. intros H. unfold mbind, M_bind. by rewrite H. Qed.

Lemma exec_then_mret {A} (m : M A) w : exec (m ;; mret tt) w = exec m w.
Proof. unfold exec. unfold_monad. by destruct (m w) as [[a|e] w']. Qed.

Lemma with_heap_same w : with_heap (heap w) w = w.
Proof. by destruct w. Qed.

Lemma with_log_same_log w : with_log (log w) w = w.
Proof. by destruct w. Qed.

(** ** Promises and callbacks *)

(** Settling changes nothing but the promise; calling a [LoadedCallback]
    changes nothing but the promise and the trace. *)

Lemma settle_frame p outcome w :
  sound (exec (settle p outcome) w) = sound w /\
  heap (exec (settle p outcome) w) = heap w /\
  pending (exec (settle p outcome) w) = pending w /\
  log (exec (settle p outcome) w) = log w.
Proof.
  unfold settle. unfold_monad. cbn.
  by destruct (promises w !! p) as [[]|].
Qed.

Lemma settle_pending p outcome w :
  promises w !! p = Some PromisePending ->
  settle p outcome w
  = (Ok tt, with_promises (<[p := outcome]> (promises w)) w).
Proof. intros H. unfold settle. unfold_monad. cbn. by rewrite H. Qed.

Lemma settle_settled p outcome w s :
  promises w !! p = Some s -> s <> PromisePending ->
  settle p outcome w = (Ok tt, w).
Proof.
  intros H Hs. unfold settle. unfold_monad. cbn. rewrite H. by destruct s.
Qed.

Lemma call_loaded_frame cb err b inst w :
  exists w', call_loaded cb err b inst w = (Ok tt, w') /\
    sound w' = sound w /\ heap w' = heap w /\ pending w' = pending w.
Proof.
  destruct cb as [f|p loaded]; cbn.
  - by eexists.
  - destruct err as [e|].
    + eexists. split; [reflexivity|].
      by destruct (settle_frame p (Rejected e) w) as (? & ? & ? & ?).
    + destruct loaded as [f|]; (eexists; split; [reflexivity|]).
      * by destruct (settle_frame p (Resolved inst)
          (with_log (log w ++ [LoadedCalled f None b inst]) w))
          as (? & ? & ? & ?).
      * by destruct (settle_frame p (Resolved inst) w) as (? & ? & ? & ?).
Qed.

Lemma call_loaded_play p loaded err b inst w :
  promises w !! p = Some PromisePending ->
  exists w', call_loaded (PlayLoaded p loaded) err b inst w = (Ok tt, w') /\
    sound w' = sound w /\ heap w' = heap w /\ pending w' = pending w /\
    promises w' !! p =
      Some match err with
           | Some e => Rejected e
           | None => Resolved inst
           end.
Proof.
  intros Hp. cbn [call_loaded].
  assert (Hlt : p < length (promises w)) by (by eapply lookup_lt_Some).
  destruct err as [e|]; [|destruct loaded as [f|]].
  - unfold reject. rewrite settle_pending by done.
    eexists. split; [reflexivity|]. cbn.
    by rewrite list_lookup_insert_eq.
  - erewrite bind_ok by reflexivity.
    unfold resolve. rewrite settle_pending by done.
    eexists. split; [reflexivity|]. cbn.
    by rewrite list_lookup_insert_eq.
  - erewrite bind_ok by reflexivity.
    unfold resolve. rewrite settle_pending by done.
    eexists. split; [reflexivity|]. cbn.
    by rewrite list_lookup_insert_eq.
Qed.

(** ** Instance objects *)

(** What the methods of an instance and the loops over the instance list do
    to the store. *)

Lemma deref_ok r i w : heap w !! r = Some i -> deref r w = (Ok i, w).
Proof. intros H. unfold deref. unfold_monad. cbn. by rewrite H. Qed.

Lemma deref_dangling r w :
  heap w !! r = None -> exists e, deref r w = (Throw e, w).
Proof. intros H. unfold deref. unfold_monad. cbn. rewrite H. by eexists. Qed.

Lemma instance_destroy_ok r i w :
  heap w !! r = Some i ->
  instance_destroy r w = (Ok tt, with_heap (alter destroyed r (heap w)) w).
Proof.
  intros H. unfold instance_destroy. rewrite (bind_ok _ _ _ _ _ (deref_ok _ _ _ H)).
  reflexivity.
Qed.

Lemma instance_set_paused_ok r i b w :
  heap w !! r = Some i ->
  instance_set_paused r b w
  = (Ok tt, with_heap (alter (paused_as b) r (heap w)) w).
Proof.
  intros H. unfold instance_set_paused.
  rewrite (bind_ok _ _ _ _ _ (deref_ok _ _ _ H)).
  assert (Hid : paused_as b i = i ->
    (Ok tt, w) = (Ok tt, with_heap (alter (paused_as b) r (heap w)) w)).
  { intros Hf. by rewrite (alter_fixed _ _ _ _ H Hf), with_heap_same. }
  unfold paused_as in *.
  destruct (inst_state i) eqn:Hs, b; try (apply Hid; reflexivity).
  - unfold update_instance. unfold_monad. cbn. do 2 f_equal.
    apply list_alter_ext; [|done]. intros x Hx. assert (x = i) as -> by congruence. by rewrite Hs.
  - unfold update_instance. unfold_monad. cbn. do 2 f_equal.
    apply list_alter_ext; [|done]. intros x Hx. assert (x = i) as -> by congruence. by rewrite Hs.
Qed.

Lemma instances_ok w l : _instances (sound w) = Some l -> instances w = (Ok l, w).
Proof. intros H. unfold instances. unfold_monad. cbn. by rewrite H. Qed.

Lemma instance_at_ok i r l w :
  _instances (sound w) = Some l -> l !! i = Some r -> instance_at i w = (Ok r, w).
Proof.
  intros Hl Hi. unfold instance_at, instances. unfold_monad. cbn. rewrite Hl. cbn. by rewrite Hi.
Qed.

Lemma alter_loop (f : SoundInstance -> SoundInstance) (body : ref -> M unit) :
  (forall r i w, heap w !! r = Some i ->
     body r w = (Ok tt, with_heap (alter f r (heap w)) w)) ->
  forall n w l,
  _instances (sound w) = Some l -> n <= length l ->
  Forall (fun r => r < length (heap w)) l ->
  for_reverse n (fun i => r ← instance_at i; body r) w
  = (Ok tt, with_heap (foldr (alter f) (heap w) (take n l)) w).
Proof.
  intros Hbody. induction n as [|n IH]; intros w l Hl Hn Hv.
  - cbn [for_reverse]. rewrite take_0. cbn [foldr]. by rewrite with_heap_same.
  - destruct (lookup_lt_is_Some_2 l n) as [r Hr]; [lia|].
    assert (Hrv : r < length (heap w)).
    { rewrite Forall_forall in Hv. apply Hv. eapply list_elem_of_lookup_2, Hr. }
    destruct (lookup_lt_is_Some_2 (heap w) r Hrv) as [i Hi].
    cbn [for_reverse].
    erewrite bind_ok; last first.
    { erewrite bind_ok; [|eapply instance_at_ok; eauto]. eapply Hbody, Hi. }
    rewrite (IH _ l); cbn; [|done|lia|].
    + rewrite (take_S_r _ _ _ Hr), foldr_app. cbn. reflexivity.
    + by rewrite length_alter.
Qed.

Lemma _removeInstances_ok w l :
  _instances (sound w) = Some l ->
  Forall (fun r => r < length (heap w)) l ->
  _removeInstances w
  = (Ok tt, with_sound (set__instances (Some []) (sound w))
              (with_heap (foldr (alter destroyed) (heap w) l) w)).
Proof.
  intros Hl Hv. unfold _removeInstances.
  erewrite bind_ok; last first.
  { unfold instances. unfold_monad. cbn. rewrite Hl. reflexivity. }
  erewrite bind_ok; last first.
  { eapply (alter_loop destroyed instance_destroy); eauto.
    intros r i w0 Hi. by apply (instance_destroy_ok r i). }
  rewrite firstn_all. reflexivity.
Qed.

Lemma _onComplete_ok r i l w :
  _instances (sound w) = Some l -> heap w !! r = Some i ->
  _onComplete r w
  = (Ok tt, with_heap (alter destroyed r (heap w))
              (with_sound (reaped r l (sound w)) w)).
Proof.
  intros Hl Hi. unfold _onComplete.
  erewrite bind_ok; [|reflexivity]. rewrite Hl.
  erewrite bind_ok; [|reflexivity].
  by erewrite instance_destroy_ok.
Qed.

Lemma instance_stop_ok r i l w :
  _instances (sound w) = Some l -> heap w !! r = Some i ->
  instance_stop r w
  = (Ok tt,
     if terminal (inst_state i) then w
     else if inst_on_stop i then
       with_heap (alter destroyed r (heap w))
         (with_sound (reaped r l (sound w)) w)
     else with_heap (alter (set_inst_state Stopped) r (heap w)) w).
Proof.
  intros Hl Hi. unfold instance_stop.
  rewrite (bind_ok _ _ _ _ _ (deref_ok _ _ _ Hi)).
  destruct (terminal (inst_state i)); [done|].
  erewrite bind_ok; [|reflexivity].
  unfold fire_stop.
  erewrite bind_ok; last first.
  { apply deref_ok. cbn. by rewrite list_lookup_alter_eq, Hi. }
  cbn. destruct (inst_on_stop i); [|done].
  erewrite bind_ok; [|reflexivity].
  erewrite _onComplete_ok; cbn; [|done|].
  all: swap 1 2. { by rewrite !list_lookup_alter_eq, Hi. }
  rewrite !alter_twice. by destruct w.
Qed.

Lemma instance_ended_ok r i l w :
  _instances (sound w) = Some l -> heap w !! r = Some i ->
  instance_ended r w
  = (Ok tt,
     match inst_state i, inst_on_end i with
     | Playing, Some (SoundEnd complete) =>
         with_heap (alter destroyed r (heap w))
           (with_sound (reaped r l (sound w))
              (with_log (log w ++ completion_log complete) w))
     | Playing, None =>
         with_heap (alter (set_inst_state Completed) r (heap w)) w
     | _, _ => w
     end).
Proof.
  intros Hl Hi. unfold instance_ended.
  rewrite (bind_ok _ _ _ _ _ (deref_ok _ _ _ Hi)).
  destruct (inst_state i); try done.
  erewrite bind_ok; [|reflexivity].
  unfold fire_end.
  erewrite bind_ok; last first.
  { apply deref_ok. cbn. by rewrite list_lookup_alter_eq, Hi. }
  cbn. destruct (inst_on_end i) as [[complete]|]; [|done].
  erewrite bind_ok; [|reflexivity].
  assert (Hreap : forall w0, _instances (sound w0) = Some l ->
    heap w0 = alter (set_inst_on_end None)
                r (alter (set_inst_state Completed) r (heap w)) ->
    _onComplete r w0
    = (Ok tt, with_heap (alter destroyed r (heap w))
                (with_sound (reaped r l (sound w0)) w0))).
  { intros w0 Hl0 Hh. erewrite _onComplete_ok; [|done|].
    2:{ by rewrite Hh, !list_lookup_alter_eq, Hi. }
    by rewrite Hh, !alter_twice. }
  destruct complete as [f|]; cbn.
  - erewrite bind_ok; [|reflexivity]. rewrite Hreap; done.
  - erewrite bind_ok; [|reflexivity]. rewrite Hreap; [|done|done].
    cbn. destruct w; cbn. by rewrite app_nil_r.
Qed.

(** ** Well-formed worlds *)

(** How [well_formed] and [playing_iff_active] move from one world to
    another. *)

Lemma live_valid (h : list SoundInstance) r :
  live <$> h !! r = Some true -> r < length h.
Proof. intros H. apply lookup_lt_is_Some. destruct (h !! r); [eauto|done]. Qed.

Lemma well_formed_valid w l :
  Forall (fun r => live <$> heap w !! r = Some true) l ->
  Forall (fun r => r < length (heap w)) l.
Proof. intros H. eapply Forall_impl; [exact H|]. intros r. apply live_valid. Qed.

Lemma live_lookup (h : list SoundInstance) r :
  live <$> h !! r = Some true -> exists i, h !! r = Some i /\ live i = true.
Proof. destruct (h !! r) as [i|]; cbn; [|done]. intros [= H]. eauto. Qed.

Lemma live_not_terminal i :
  live i = true -> terminal (inst_state i) = false /\ inst_on_stop i = true.
Proof.
  unfold live. destruct (inst_state i); try done.
  all: intros [? _]%andb_prop; done.
Qed.

Lemma member_live w l r i :
  Forall (fun x => live <$> heap w !! x = Some true) l ->
  heap w !! r = Some i -> r ∈ l -> live i = true.
Proof.
  intros Hlive Hi Hr. rewrite Forall_forall in Hlive.
  specialize (Hlive r Hr). rewrite Hi in Hlive. by injection Hlive.
Qed.

Lemma paused_as_live b i : live i = true -> live (paused_as b i) = true.
Proof.
  unfold live, paused_as. destruct (inst_state i) eqn:Hs, b; cbn; try done.
  all: by rewrite ?Hs.
Qed.

Lemma paused_heap_live b (h : list SoundInstance) l :
  Forall (fun x => live <$> h !! x = Some true) l ->
  Forall (fun x => live <$> foldr (alter (paused_as b)) h l !! x = Some true) l.
Proof.
  intros Hlive. apply Forall_forall. intros x Hx.
  rewrite Forall_forall in Hlive.
  destruct (live_lookup _ _ (Hlive x Hx)) as (i & Hi & Hli).
  destruct (foldr_alter_keeps (fun y => live y = true) (paused_as b) l h x i)
    as (y & -> & Hy); [apply paused_as_live|done..|].
  cbn. by rewrite Hy.
Qed.

Lemma playing_iff_active_intro w l :
  _instances (sound w) = Some l ->
  isPlaying (sound w) = bool_decide (0 < length l) ->
  playing_iff_active w.
Proof.
  intros Hl Hp. unfold playing_iff_active, active. rewrite Hl, Hp. cbn.
  destruct l; cbn; [|by rewrite !bool_decide_eq_true_2 by (done || lia)].
  by rewrite !bool_decide_eq_false_2 by (intros ?; done || lia).
Qed.

Lemma invariants_transfer (w w' : World) :
  _instances (sound w') = _instances (sound w) ->
  isPlaying (sound w') = isPlaying (sound w) ->
  heap w' = heap w ->
  well_formed w -> playing_iff_active w ->
  well_formed w' /\ playing_iff_active w'.
Proof.
  intros Hi Hp Hh. unfold well_formed, playing_iff_active, active.
  by rewrite Hi, Hp, Hh.
Qed.

Lemma frame_well_formed (w w' : World) l :
  _instances (sound w) = Some l -> NoDup l ->
  Forall (fun x => live <$> heap w !! x = Some true) l ->
  _instances (sound w') = Some l ->
  (forall x, x ∈ l -> heap w' !! x = heap w !! x) ->
  well_formed w'.
Proof.
  intros Hl Hnd Hlive Hs Hh. exists l. split; [done|]. split; [done|].
  apply Forall_forall. intros x Hx. rewrite Hh by done.
  rewrite Forall_forall in Hlive. by apply Hlive.
Qed.

Lemma alter_outside_invariants w l r f :
  _instances (sound w) = Some l -> NoDup l ->
  Forall (fun x => live <$> heap w !! x = Some true) l ->
  r ∉ l ->
  well_formed (with_heap (alter f r (heap w)) w).
Proof.
  intros Hl Hnd Hlive Hr. apply (frame_well_formed w _ l); try done.
  intros x Hx. cbn. apply list_lookup_alter_ne. by intros ->.
Qed.

Lemma reap_invariants (w w' : World) r l :
  _instances (sound w) = Some l -> NoDup l ->
  Forall (fun x => live <$> heap w !! x = Some true) l ->
  sound w' = reaped r l (sound w) ->
  (forall x, x <> r -> heap w' !! x = heap w !! x) ->
  well_formed w' /\ playing_iff_active w'.
Proof.
  intros Hl Hnd Hlive Hs Hh. split.
  - exists (remove_first r l). rewrite Hs. split; [done|].
    split; [by apply remove_first_NoDup|].
    apply Forall_forall. intros x Hx.
    rewrite Hh.
    + rewrite Forall_forall in Hlive. by apply Hlive, (remove_first_subseteq r).
    + intros ->. by apply (remove_first_gone r l).
  - apply (playing_iff_active_intro _ (remove_first r l)); by rewrite Hs.
Qed.

(** ** play *)

(** The sprite lookup, the two branches of [play], and what each keeps. *)

Lemma member_stored (sprites : gmap string SoundSprite) name sprite :
  sprites !! name = Some sprite -> member sprites name = Some (Stored sprite).
Proof. intros H. unfold member. by rewrite H. Qed.

Lemma member_absent (sprites : gmap string SoundSprite) name :
  sprites !! name = None -> name ∉ Object_prototype ->
  member sprites name = None.
Proof. intros H Hp. unfold member. by rewrite H, bool_decide_false. Qed.

Lemma member_inherited (sprites : gmap string SoundSprite) name :
  sprites !! name = None -> name ∈ Object_prototype ->
  member sprites name = Some Inherited.
Proof. intros H Hp. unfold member. by rewrite H, bool_decide_true. Qed.

Lemma with_member_sprite found o :
  PlayOptions.sprite (with_member found o) = None.
Proof. by destruct found. Qed.

Lemma play_sprite_frame o w :
  (exists o', play_sprite o w = (Ok o', w)) \/
  (exists e lg, play_sprite o w = (Throw e, with_log lg w)).
Proof.
  unfold play_sprite.
  destruct (truthy_opt truthy_string (PlayOptions.sprite o)); [|by left; eexists].
  unfold console_assert. unfold_monad. cbn.
  destruct (_sprites (sound w)) as [sprites|]; cbn.
  2:{ right. eexists _, (log w). by destruct w. }
  destruct (member sprites (default "" (PlayOptions.sprite o)))
    as [sp|] eqn:Hsp; cbn.
  - left. destruct (DEBUG w); cbn; eauto.
  - right. destruct (DEBUG w); cbn; [by eexists _, _|].
    eexists _, (log w). by destruct w.
Qed.

Lemma play_sprite_unnamed o w :
  truthy_opt truthy_string (PlayOptions.sprite o) = false ->
  play_sprite o w = (Ok o, w).
Proof. intros H. unfold play_sprite. by rewrite H. Qed.

Lemma play_sprite_found o w alias sprites found :
  PlayOptions.sprite o = Some alias -> truthy_string alias = true ->
  _sprites (sound w) = Some sprites -> member sprites alias = Some found ->
  play_sprite o w = (Ok (with_member found o), w).
Proof.
  intros Ho Ha Hs Hsp. unfold play_sprite, console_assert. rewrite Ho. cbn.
  rewrite Ha. unfold_monad. cbn. rewrite Hs. cbn. rewrite Hsp. cbn.
  by destruct (DEBUG w).
Qed.

Lemma play_sprite_named o w alias sprites sp :
  PlayOptions.sprite o = Some alias -> truthy_string alias = true ->
  _sprites (sound w) = Some sprites -> sprites !! alias = Some sp ->
  play_sprite o w = (Ok (with_sprite sp o), w).
Proof.
  intros Ho Ha Hs Hsp.
  by rewrite (play_sprite_found o w alias sprites (Stored sp))
    by (done || by apply member_stored).
Qed.

Lemma play_sprite_known w call :
  sprite_known w call ->
  exists o, play_sprite (play_defaults (play_options call.1 call.2)) w = (Ok o, w).
Proof.
  unfold sprite_known. set (o := play_options call.1 call.2). intros Hk.
  destruct (PlayOptions.sprite o) as [alias|] eqn:Ho.
  - destruct (truthy_string alias) eqn:Ha.
    + destruct Hk as (sprites & Hs & [sp Hsp]); [done|].
      eexists. by eapply play_sprite_found.
    + eexists. apply play_sprite_unnamed. cbn. by rewrite Ho.
  - eexists. apply play_sprite_unnamed. cbn. by rewrite Ho.
Qed.

Lemma play_sprite_result o0 o w :
  play_sprite o0 w = (Ok o, w) ->
  truthy_opt truthy_string (PlayOptions.sprite o) = false.
Proof.
  unfold play_sprite.
  destruct (truthy_opt truthy_string (PlayOptions.sprite o0)) eqn:Ht.
  - unfold console_assert. unfold_monad. cbn.
    destruct (_sprites (sound w)); cbn; [|done].
    destruct (DEBUG w); cbn.
    + case_bool_decide as Hd; cbn.
      * destruct Hd as [sp Hsp]. rewrite Hsp. cbn. intros [= <- ].
        by rewrite with_member_sprite.
      * destruct (member _ _); cbn; [|done]. intros [= <- ].
        by rewrite with_member_sprite.
    + destruct (member _ _); cbn; [|done]. intros [= <- ].
      by rewrite with_member_sprite.
  - cbn. by intros [= <-].
Qed.

Lemma sprite_known_transfer w w' call :
  _sprites (sound w') = _sprites (sound w) ->
  sprite_known w call -> sprite_known w' call.
Proof. intros H. unfold sprite_known. by rewrite H. Qed.

Lemma sprite_known_undefined w : sprite_known w (PlayUndefined, None).
Proof. intros H. discriminate H. Qed.

Lemma play_now_ok o w l :
  _instances (sound w) = Some l ->
  (singleInstance (sound w) = true -> Forall (fun r => r < length (heap w)) l) ->
  play_now o w
  = (Ok (length (heap w)),
     let single := singleInstance (sound w) in
     with_heap ((if single then foldr (alter destroyed) (heap w) l else heap w)
                ++ [spawned o])
       (with_sound
          (set_isPlaying true
             (set__instances
                (Some ((if single then [] else l) ++ [length (heap w)]))
                (sound w))) w)).
Proof.
  intros Hl Hv. unfold play_now.
  erewrite bind_ok; [|reflexivity].
  destruct (singleInstance (sound w)) eqn:Hs.
  - cbn [when]. erewrite bind_ok; [|eapply _removeInstances_ok; eauto].
    unfold SoundInstance_create, instances, instance_play, deref, update_instance.
    unfold_monad. cbn. rewrite length_foldr_alter.
    rewrite !(alter_app_r_alt _ _ _ (length (heap w))) by (by rewrite length_foldr_alter).
    rewrite length_foldr_alter, Nat.sub_diag. cbn.
    rewrite lookup_app_r by (by rewrite length_foldr_alter).
    rewrite length_foldr_alter, Nat.sub_diag. cbn.
    rewrite !(alter_app_r_alt _ _ _ (length (heap w))) by (by rewrite length_foldr_alter).
    rewrite length_foldr_alter, Nat.sub_diag. cbn.
    destruct w as [s c h p q lg d]; destruct s; cbn in *. rewrite Hs. reflexivity.
  - cbn [when].
    unfold SoundInstance_create, instances, instance_play, deref, update_instance.
    unfold_monad. cbn. rewrite Hl. cbn.
    rewrite !(alter_app_r_alt _ _ _ (length (heap w))) by done.
    rewrite Nat.sub_diag. cbn.
    rewrite lookup_app_r by done.
    rewrite Nat.sub_diag. cbn.
    rewrite !(alter_app_r_alt _ _ _ (length (heap w))) by done.
    rewrite Nat.sub_diag. cbn.
    destruct w as [s c h p q lg d]; destruct s; cbn in *. rewrite Hs. reflexivity.
Qed.

Lemma played_invariants o l w :
  _instances (sound w) = Some l -> NoDup l ->
  Forall (fun x => live <$> heap w !! x = Some true) l ->
  well_formed (played o l w) /\ playing_iff_active (played o l w).
Proof.
  intros Hl Hnd Hlive.
  pose proof (well_formed_valid _ _ Hlive) as Hv.
  unfold played. cbn zeta. split.
  - exists ((if singleInstance (sound w) then [] else l) ++ [length (heap w)]).
    split; [done|]. cbn.
    destruct (singleInstance (sound w)); cbn.
    + split; [apply NoDup_singleton|]. apply Forall_singleton.
      rewrite lookup_app_r by (by rewrite length_foldr_alter).
      by rewrite length_foldr_alter, Nat.sub_diag.
    + split.
      * apply NoDup_app. split; [done|]. split; [|apply NoDup_singleton].
        intros x Hx ->%list_elem_of_singleton.
        rewrite Forall_forall in Hv. specialize (Hv _ Hx). lia.
      * apply Forall_app. split.
        -- apply Forall_forall. intros x Hx.
           rewrite Forall_forall in Hv, Hlive.
           rewrite lookup_app_l by auto. auto.
        -- apply Forall_singleton. rewrite lookup_app_r by done.
           by rewrite Nat.sub_diag.
  - eapply playing_iff_active_intro; cbn; [done|].
    rewrite length_app. cbn. by rewrite bool_decide_eq_true_2 by lia.
Qed.

Lemma play_now_invariants o w :
  well_formed w ->
  exists w', play_now o w = (Ok (length (heap w)), w') /\
    well_formed w' /\ playing_iff_active w'.
Proof.
  intros (l & Hl & Hnd & Hlive).
  pose proof (well_formed_valid _ _ Hlive) as Hv.
  exists (played o l w). split; [by eapply play_now_ok|].
  by apply played_invariants.
Qed.

Lemma play_loaded_ok source complete w l o :
  isLoaded (sound w) = true ->
  _instances (sound w) = Some l ->
  (singleInstance (sound w) = true -> Forall (fun r => r < length (heap w)) l) ->
  play_sprite (play_defaults (play_options source complete)) w = (Ok o, w) ->
  play source complete w
  = (Ok (Instance (length (heap w))), played (play_offset o) l w).
Proof.
  intros Hld Hl Hv Hs. unfold play.
  erewrite bind_ok by exact Hs. erewrite bind_ok by reflexivity.
  rewrite Hld. cbn [negb].
  erewrite bind_ok by (by eapply play_now_ok). reflexivity.
Qed.

Lemma _decode_frame bytes cb w :
  exists res w', _decode bytes cb w = (res, w') /\
    sound w' = sound w /\ heap w' = heap w.
Proof.
  unfold _decode. erewrite bind_ok by reflexivity.
  destruct (_context (sound w)); cbn.
  - unfold Ctx_decode, enqueue; unfold_monad; cbn.
    eexists _, _; split; [reflexivity|done].
  - eexists _, w. by destruct w.
Qed.

Lemma _beginPreload_frame cb w :
  exists res w', _beginPreload cb w = (res, w') /\
    sound w' = sound w /\ heap w' = heap w.
Proof.
  unfold _beginPreload. erewrite bind_ok by reflexivity.
  destruct (truthy_opt truthy_string (src (sound w))).
  { destruct (useXHR (sound w)); unfold _loadUrl, _loadPath, enqueue;
      unfold_monad; cbn; (eexists _, _; split; [reflexivity|done]). }
  destruct (srcBuffer (sound w)) as [bytes|].
  { unfold _decode. erewrite bind_ok by reflexivity.
    destruct (_context (sound w)); cbn.
    - unfold Ctx_decode, enqueue; unfold_monad; cbn.
      eexists _, _; split; [reflexivity|done].
    - eexists _, w. by destruct w. }
  destruct cb as [cb|].
  - destruct (call_loaded_frame cb (Some (Error must_be_set)) false None w)
      as (w' & -> & ? & ? & ?). by eexists _, _.
  - unfold console_error; unfold_monad; cbn.
    eexists _, _; split; [reflexivity|done].
Qed.

Lemma play_deferred_frame o w :
  exists w', play_deferred o w = (Ok (length (promises w)), w') /\
    _instances (sound w') = _instances (sound w) /\
    isPlaying (sound w') = isPlaying (sound w) /\
    isLoaded (sound w') = isLoaded (sound w) /\
    heap w' = heap w.
Proof.
  unfold play_deferred, new_Promise.
  set (w0 := with_promises (promises w ++ [PromisePending]) w).
  erewrite bind_ok by reflexivity. erewrite bind_ok by reflexivity.
  match goal with |- context [_beginPreload ?cb ?w1] =>
    destruct (_beginPreload_frame cb w1) as (res & w2 & -> & Hs & Hh)
  end.
  cbn in Hs, Hh.
  destruct res as [[]|e]; eexists; (split; [reflexivity|]).
  - by rewrite Hs, Hh.
  - unfold reject.
    destruct (settle_frame (length (promises w)) (Rejected e) w2)
      as (-> & -> & _). by rewrite Hs, Hh.
Qed.

Lemma play_deferred_ok o w :
  let p := length (promises w) in
  let callback := Some (PlayLoaded p (PlayOptions.loaded o)) in
  exists w', play_deferred o w = (Ok p, w') /\
    autoPlay (sound w') = true /\
    _autoPlayOptions (sound w') = Some o /\
    length (promises w') = S p /\
    if truthy_opt truthy_string (src (sound w)) then
      pending w' =
        pending w ++
          [(if useXHR (sound w) then XhrRequest else ReadFileRequest)
             (default "null" (src (sound w))) callback] /\
      promises w' !! p = Some PromisePending
    else
      match srcBuffer (sound w), _context (sound w) with
      | Some bytes, Some _ =>
          pending w' = pending w ++ [DecodeRequest bytes callback] /\
          promises w' !! p = Some PromisePending
      | Some bytes, None =>
          pending w' = pending w /\
          exists e, promises w' !! p = Some (Rejected e)
      | None, _ =>
          pending w' = pending w /\
          promises w' !! p = Some (Rejected (Error must_be_set))
      end.
Proof.
  cbn zeta. unfold play_deferred, new_Promise.
  erewrite bind_ok by reflexivity. erewrite bind_ok by reflexivity.
  unfold _beginPreload. erewrite bind_ok by reflexivity. cbn [sound with_sound].
  change (src (set__autoPlayOptions _ _)) with (src (sound w)).
  change (srcBuffer (set__autoPlayOptions _ _)) with (srcBuffer (sound w)).
  change (useXHR (set__autoPlayOptions _ _)) with (useXHR (sound w)).
  destruct (truthy_opt truthy_string (src (sound w))).
  { destruct (useXHR (sound w)); unfold _loadUrl, _loadPath, enqueue;
      unfold_monad; cbn; (eexists; split; [reflexivity|]); cbn;
      rewrite length_app, fresh_promise_pending; cbn;
      repeat split; try done; lia. }
  destruct (srcBuffer (sound w)) as [bytes|].
  { unfold _decode. erewrite bind_ok by reflexivity. cbn [sound with_sound].
    change (_context (set__autoPlayOptions _ _)) with (_context (sound w)).
    destruct (_context (sound w)); unfold Ctx_decode, enqueue, reject, settle;
      unfold_monad; cbn; (eexists; split; [reflexivity|]); cbn.
    - rewrite length_app, fresh_promise_pending; cbn.
      repeat split; try done; lia.
    - rewrite fresh_promise_pending. cbn.
      rewrite length_insert, length_app. cbn.
      repeat split; try done; try lia.
      eexists. apply list_lookup_insert_eq. rewrite length_app. cbn. lia. }
  unfold call_loaded, reject, settle. unfold_monad. cbn.
  eexists; split; [reflexivity|]. cbn.
  rewrite !fresh_promise_pending. cbn.
  rewrite length_insert, length_app. cbn.
  repeat split; try done; try lia.
  apply list_lookup_insert_eq. rewrite length_app. cbn. lia.
Qed.

Lemma play_invariants source complete w :
  well_formed w -> playing_iff_active w ->
  well_formed (exec (play source complete) w) /\
  playing_iff_active (exec (play source complete) w).
Proof.
  intros Hwf Hinv. unfold exec, play.
  destruct (play_sprite_frame
    (play_defaults (play_options source complete)) w)
    as [(o' & Hs)|(e & lg & Hs)].
  - erewrite bind_ok by exact Hs. erewrite bind_ok by reflexivity.
    destruct (isLoaded (sound w)); cbn [negb].
    + destruct (play_now_invariants (play_offset o') w Hwf) as (w' & Hrun & ? & ?).
      erewrite bind_ok by exact Hrun. done.
    + destruct (play_deferred_frame (play_offset o') w)
        as (w' & Hrun & Hi & Hp & _ & Hh).
      erewrite bind_ok by exact Hrun. cbn.
      by apply (invariants_transfer w w').
  - erewrite bind_throw by exact Hs. cbn.
    by apply (invariants_transfer w).
Qed.

Lemma play_single_ok call w :
  well_formed w -> isLoaded (sound w) = true ->
  singleInstance (sound w) = true -> sprite_known w call ->
  exists w', play call.1 call.2 w = (Ok (Instance (length (heap w))), w') /\
    well_formed w' /\ isLoaded (sound w') = true /\
    singleInstance (sound w') = true /\
    _sprites (sound w') = _sprites (sound w) /\
    active w' = [length (heap w)] /\
    (forall r, r ∈ active w ->
       inst_state <$> heap w' !! r = Some Destroyed).
Proof.
  intros Hwf Hld Hsi Hk. pose proof Hwf as (l & Hl & Hnd & Hlive).
  pose proof (well_formed_valid _ _ Hlive) as Hv.
  destruct (play_sprite_known w call Hk) as [o Ho].
  eexists. split; [by eapply play_loaded_ok|].
  split; [by apply played_invariants|].
  unfold played, active. cbn zeta. rewrite Hsi.
  split; [done|split; [done|split; [done|split; [done|]]]].
  intros r Hr. unfold active in Hr. rewrite Hl in Hr. cbn in Hr. cbn.
    rewrite Forall_forall in Hv.
    rewrite lookup_app_l by (rewrite length_foldr_alter; auto).
    destruct (foldr_alter_hits (fun y => inst_state y = Destroyed) destroyed
                l (heap w) r) as (y & -> & Hy); auto.
  cbn. by rewrite Hy.
Qed.

Lemma exec_play_each_cons call rest w a w' :
  play call.1 call.2 w = (Ok a, w') ->
  exec (play_each (call :: rest)) w = exec (play_each rest) w'.
Proof.
  intros H. unfold exec. destruct call as [source complete]. cbn in *.
  by erewrite bind_ok by exact H.
Qed.

(** ** stop, pause, resume and the events of an instance *)

(** [stop] empties the instance list from its end; [pause] and [resume]
    keep it. *)

Lemma isPlayable_ok w : exists b, isPlayable w = (Ok b, w).
Proof. by eexists. Qed.

Lemma stop_loop n : forall w l,
  _instances (sound w) = Some l -> length l = n -> NoDup l ->
  Forall (fun x => live <$> heap w !! x = Some true) l ->
  exists w', for_reverse n (fun i => r ← instance_at i; instance_stop r) w = (Ok tt, w') /\
    _instances (sound w') = Some [] /\
    isPlaying (sound w') = (if n is 0 then isPlaying (sound w) else false) /\
    length (heap w') = length (heap w) /\
    (forall r, r ∈ l -> inst_state <$> heap w' !! r = Some Destroyed) /\
    (forall r, r ∉ l -> heap w' !! r = heap w !! r).
Proof.
  induction n as [|n IH]; intros w l Hl Hn Hnd Hlive.
  - destruct l; [|done]. exists w. repeat split; try done.
    intros r Hr. by apply elem_of_nil in Hr.
  - destruct l as [|r l0 _] using rev_ind; [done|].
    rewrite length_app in Hn. cbn in Hn.
    apply NoDup_app in Hnd as (Hnd0 & Hdisj & _).
    assert (Hr0 : r ∉ l0).
    { intros Hin. apply (Hdisj r Hin). by left. }
    apply Forall_app in Hlive as [Hlive0 Hr]. rewrite Forall_singleton in Hr.
    apply live_lookup in Hr as (i & Hi & Hli).
    apply live_not_terminal in Hli as [Hterm Hon].
    cbn [for_reverse].
    assert (Hat : (l0 ++ [r]) !! n = Some r).
    { rewrite lookup_app_r by lia. by replace (n - length l0) with 0 by lia. }
    set (w1 := with_heap (alter destroyed r (heap w))
                 (with_sound (reaped r (l0 ++ [r]) (sound w)) w)).
    assert (H1 : (instance_at n ≫= instance_stop) w = (Ok tt, w1)).
    { erewrite bind_ok; [|by eapply instance_at_ok].
      erewrite instance_stop_ok by done. by rewrite Hterm, Hon. }
    erewrite bind_ok by exact H1.
    destruct (IH w1 l0) as (w' & Hrun & Hinst & Hplay & Hlen & Hdead & Hframe).
    { cbn. by rewrite remove_first_last. }
    { lia. }
    { done. }
    { apply Forall_forall. intros x Hx. cbn.
      rewrite list_lookup_alter_ne by (intros ->; done).
      rewrite Forall_forall in Hlive0. by apply Hlive0. }
    exists w'. split; [done|]. split; [done|]. split; [|split; [|split]].
    + rewrite Hplay. destruct n; [|done]. cbn. rewrite remove_first_last by done.
      destruct l0; [done|]. cbn in Hn. lia.
    + rewrite Hlen. cbn. by rewrite length_alter.
    + intros x [Hx|Hx%list_elem_of_singleton]%elem_of_app; [by apply Hdead|].
      subst x. rewrite Hframe by done. cbn.
      by rewrite list_lookup_alter_eq, Hi.
    + intros x Hx. rewrite not_elem_of_app, not_elem_of_cons in Hx.
      destruct Hx as [Hx0 [Hxr _]]. rewrite Hframe by done. cbn.
      by rewrite list_lookup_alter_ne.
Qed.

Lemma stop_invariants w :
  well_formed w -> playing_iff_active w ->
  well_formed (exec stop w) /\ playing_iff_active (exec stop w).
Proof.
  intros Hwf Hinv. unfold exec, stop.
  destruct (isPlayable_ok w) as [b Hb]. erewrite bind_ok by exact Hb.
  destruct b; cbn [negb].
  - destruct Hwf as (l & Hl & Hnd & Hlive).
    erewrite bind_ok by reflexivity.
    erewrite bind_ok by (by apply instances_ok).
    destruct (stop_loop (length l)
      (with_sound (set_isPlaying false (sound w)) w) l)
      as (w' & Hrun & Hinst & Hplay & _); [done..|].
    rewrite Hrun. cbn. split.
    + exists []. split; [done|]. split; [constructor|constructor].
    + apply (playing_iff_active_intro _ []); [done|].
      rewrite Hplay. by destruct (length l).
  - erewrite bind_ok by reflexivity. cbn.
    by apply (invariants_transfer w).
Qed.

Lemma set_paused_loop b w l :
  _instances (sound w) = Some l ->
  Forall (fun x => live <$> heap w !! x = Some true) l ->
  for_reverse (length l)
    (fun i => r ← instance_at i; instance_set_paused r b) w
  = (Ok tt, with_heap (foldr (alter (paused_as b)) (heap w) l) w).
Proof.
  intros Hl Hlive.
  rewrite (alter_loop (paused_as b) (fun r => instance_set_paused r b))
    with (l := l); [by rewrite firstn_all|..|done|done|].
  - intros r i w0 Hi. by apply (instance_set_paused_ok r i).
  - by apply well_formed_valid.
Qed.

Lemma pause_ok w l :
  _instances (sound w) = Some l ->
  Forall (fun x => live <$> heap w !! x = Some true) l ->
  pause w
  = (Ok tt, with_sound (set_isPlaying false (sound w))
              (with_heap (foldr (alter (paused_as true)) (heap w) l) w)).
Proof.
  intros Hl Hlive. unfold pause.
  erewrite bind_ok by (by apply instances_ok).
  erewrite bind_ok by (by apply set_paused_loop).
  reflexivity.
Qed.

Lemma resume_ok w l :
  _instances (sound w) = Some l ->
  Forall (fun x => live <$> heap w !! x = Some true) l ->
  resume w
  = (Ok tt, with_sound (set_isPlaying (bool_decide (0 < length l)) (sound w))
              (with_heap (foldr (alter (paused_as false)) (heap w) l) w)).
Proof.
  intros Hl Hlive. unfold resume.
  erewrite bind_ok by (by apply instances_ok).
  erewrite bind_ok by (by apply set_paused_loop).
  erewrite bind_ok by (by apply instances_ok).
  reflexivity.
Qed.

Lemma pause_invariants w :
  well_formed w ->
  well_formed (exec pause w) /\
  isPlaying (sound (exec pause w)) = false /\
  _instances (sound (exec pause w)) = _instances (sound w).
Proof.
  intros (l & Hl & Hnd & Hlive). unfold exec. rewrite (pause_ok w l) by done.
  cbn. split; [|done]. exists l. split; [done|]. split; [done|].
  by apply paused_heap_live.
Qed.

Lemma resume_invariants w :
  well_formed w ->
  well_formed (exec resume w) /\ playing_iff_active (exec resume w).
Proof.
  intros (l & Hl & Hnd & Hlive). unfold exec. rewrite (resume_ok w l) by done.
  cbn. split.
  - exists l. split; [done|]. split; [done|]. by apply paused_heap_live.
  - by apply (playing_iff_active_intro _ l).
Qed.

Lemma instance_stop_invariants r w :
  well_formed w -> playing_iff_active w ->
  well_formed (exec (instance_stop r) w) /\
  playing_iff_active (exec (instance_stop r) w).
Proof.
  intros Hwf Hinv. pose proof Hwf as (l & Hl & Hnd & Hlive). unfold exec.
  destruct (heap w !! r) as [i|] eqn:Hi.
  2:{ unfold instance_stop. destruct (deref_dangling r w Hi) as [e He].
      by erewrite bind_throw by exact He. }
  rewrite (instance_stop_ok r i l w) by done. cbn [snd].
  destruct (terminal (inst_state i)) eqn:Hterm; [done|].
  destruct (inst_on_stop i) eqn:Hon.
  - apply (reap_invariants w _ r l); try done.
    intros x Hx. cbn. by apply list_lookup_alter_ne.
  - split; [|done]. apply (alter_outside_invariants w l); try done.
    intros Hr. apply (member_live w l r i) in Hr; try done.
    apply live_not_terminal in Hr as [_ Hr]. congruence.
Qed.

Lemma instance_ended_invariants r w :
  well_formed w -> playing_iff_active w ->
  well_formed (exec (instance_ended r) w) /\
  playing_iff_active (exec (instance_ended r) w).
Proof.
  intros Hwf Hinv. pose proof Hwf as (l & Hl & Hnd & Hlive). unfold exec.
  destruct (heap w !! r) as [i|] eqn:Hi.
  2:{ unfold instance_ended. destruct (deref_dangling r w Hi) as [e He].
      by erewrite bind_throw by exact He. }
  rewrite (instance_ended_ok r i l w) by done. cbn [snd].
  destruct (inst_state i) eqn:Hstate; try done.
  destruct (inst_on_end i) as [[complete]|] eqn:Hon.
  - apply (reap_invariants w _ r l); try done.
    intros x Hx. cbn. by apply list_lookup_alter_ne.
  - split; [|done]. apply (alter_outside_invariants w l); try done.
    intros Hr. apply (member_live w l r i) in Hr; try done.
    unfold live in Hr. rewrite Hstate, Hon in Hr.
    by apply andb_prop in Hr as [_ Hr].
Qed.

(** ** Answers of the environment *)

(** The continuation of a request, and the autoplay of a successful decode. *)

Lemma answer_ok n a r k w :
  pending w !! n = Some r -> continue r a = Some k ->
  answer n a w = k (with_pending (delete n (pending w)) w).
Proof. intros Hr Hk. unfold answer. by rewrite Hr, Hk. Qed.

Lemma decode_success_ok cb decoded w l b :
  _instances (sound w) = Some l ->
  Forall (fun r => r < length (heap w)) l ->
  _source (sound w) = Some b ->
  autoPlay (sound w) = true ->
  truthy_opt truthy_string
    (PlayOptions.sprite (default PlayOptions.empty (_autoPlayOptions (sound w))))
    = false ->
  decode_callback cb (inr decoded) w
  = let w2 := played (autoplay_options (sound w)) l
                (with_sound (decoded_sound decoded b (sound w)) w) in
    match cb with
    | Some cb => call_loaded cb None true (Some (Instance (length (heap w)))) w2
    | None => (Ok tt, w2)
    end.
Proof.
  intros Hl Hv Hb Ha Hsp. cbn zeta. unfold decode_callback.
  erewrite bind_ok by reflexivity.
  erewrite bind_ok; last first.
  { unfold set_buffer. unfold_monad. cbn. rewrite Hb. reflexivity. }
  erewrite bind_ok by reflexivity. cbn [sound with_sound].
  change (autoPlay (set__source _ _)) with (autoPlay (sound w)). rewrite Ha.
  erewrite bind_ok; last first.
  { erewrite bind_ok; [reflexivity|].
    eapply (play_loaded_ok _ None _ l); cbn; try done.
    apply play_sprite_unnamed. cbn.
    destruct (_autoPlayOptions (sound w)); exact Hsp. }
  cbn [sound with_sound heap].
  replace (play_offset _) with (autoplay_options (sound w)); last first.
  { unfold autoplay_options. by destruct (_autoPlayOptions (sound w)). }
  by destruct w, cb.
Qed.

Lemma get_buffer_sound w w' :
  sound w' = sound w -> (get_buffer w').1 = (get_buffer w).1.
Proof.
  intros H. unfold get_buffer. unfold_monad. cbn. rewrite H.
  by destruct (_source (sound w)).
Qed.

Lemma answer_invariants n a w :
  well_formed w -> playing_iff_active w ->
  well_formed (exec (answer n a) w) /\
  playing_iff_active (exec (answer n a) w).
Proof.
  intros Hwf Hinv. unfold exec, answer.
  destruct (pending w !! n) as [r|]; [|done].
  set (w0 := with_pending (delete n (pending w)) w).
  assert (H0 : well_formed w0 /\ playing_iff_active w0).
  { by apply (invariants_transfer w). }
  destruct H0 as [Hwf0 Hinv0]. clearbody w0.
  assert (Hdecode : forall bytes cb w1,
    well_formed w1 -> playing_iff_active w1 ->
    well_formed (_decode bytes cb w1).2 /\
    playing_iff_active (_decode bytes cb w1).2).
  { intros bytes cb w1 ? ?.
    destruct (_decode_frame bytes cb w1) as (res & w2 & -> & Hs & Hh).
    cbn [snd]. apply (invariants_transfer w1); by rewrite ?Hs, ?Hh. }
  assert (Hcall : forall cb err b inst w1,
    well_formed w1 -> playing_iff_active w1 ->
    well_formed (call_loaded cb err b inst w1).2 /\
    playing_iff_active (call_loaded cb err b inst w1).2).
  { intros cb err b inst w1 ? ?.
    destruct (call_loaded_frame cb err b inst w1) as (w2 & -> & Hs & Hh & _).
    cbn [snd]. apply (invariants_transfer w1); by rewrite ?Hs, ?Hh. }
  destruct r as [url cb|path cb|bytes cb], a; cbn [continue]; try done.
  - unfold xhr_onload. erewrite bind_ok by reflexivity.
    apply Hdecode; by apply (invariants_transfer w0).
  - unfold readFile_callback. erewrite bind_ok by reflexivity.
    assert (H1 : forall w1, well_formed w1 -> playing_iff_active w1 ->
      well_formed
        (match cb with
         | Some cb0 =>
             s ← this;
             call_loaded cb0
               (Some (Error ("File not found " +:+ default "null" (src s))))
               false None
         | None => mret tt
         end w1).2 /\
      playing_iff_active
        (match cb with
         | Some cb0 =>
             s ← this;
             call_loaded cb0
               (Some (Error ("File not found " +:+ default "null" (src s))))
               false None
         | None => mret tt
         end w1).2).
    { intros w1 ? ?. destruct cb as [cb|]; [|done].
      erewrite bind_ok by reflexivity. by apply Hcall. }
    destruct (DEBUG w0); cbn [when].
    + erewrite bind_ok by reflexivity. apply H1; by apply (invariants_transfer w0).
    + erewrite bind_ok by reflexivity. by apply H1.
  - unfold readFile_callback. erewrite bind_ok by reflexivity.
    apply Hdecode; by apply (invariants_transfer w0).
  - unfold decode_callback. erewrite bind_ok by reflexivity.
    set (w1 := with_sound (set_isLoaded true (sound w0)) w0).
    assert (H1 : well_formed w1 /\ playing_iff_active w1).
    { by apply (invariants_transfer w0). }
    destruct H1 as [Hwf1 Hinv1]. clearbody w1.
    destruct (_source (sound w1)) as [b|] eqn:Hb.
    2:{ erewrite bind_throw; [done|].
        unfold set_buffer. unfold_monad. cbn. rewrite Hb. reflexivity. }
    erewrite bind_ok; last first.
    { unfold set_buffer. unfold_monad. cbn. rewrite Hb. reflexivity. }
    match goal with |- context [with_sound ?s w1] => set (w2 := with_sound s w1) end.
    assert (H2 : well_formed w2 /\ playing_iff_active w2).
    { by apply (invariants_transfer w1). }
    destruct H2 as [Hwf2 Hinv2]. clearbody w2.
    erewrite bind_ok by reflexivity.
    destruct (autoPlay (sound w2)).
    + match goal with |- context [play ?src None] =>
        pose proof (play_invariants src None w2 Hwf2 Hinv2) as [Hwf3 Hinv3];
        unfold exec in Hwf3, Hinv3;
        destruct (play src None w2) as [[r|e] w3] eqn:Hplay
      end.
      * erewrite bind_ok; last first.
        { erewrite bind_ok by exact Hplay. reflexivity. }
        destruct cb as [cb|]; [by apply Hcall|done].
      * erewrite bind_throw; last first.
        { erewrite bind_throw by exact Hplay. reflexivity. }
        done.
    + erewrite bind_ok by reflexivity.
      destruct cb as [cb|]; [by apply Hcall|done].
  - unfold decode_callback. destruct cb as [cb|]; [by apply Hcall|done].
Qed.

(** ** The constructor *)

(** The constructor leaves a well-formed asset with an empty instance list. *)

Lemma addSprite_frame alias data w sprites :
  _sprites (sound w) = Some sprites ->
  exists lg, addSprite alias data w
    = (Ok (new_SoundSprite data),
       with_sound
         (set__sprites (Some (<[alias := new_SoundSprite data]> sprites))
            (sound w))
         (with_log lg w)).
Proof.
  intros Hs. unfold addSprite, console_assert. unfold_monad. cbn.
  rewrite Hs. cbn. case_bool_decide; cbn.
  - by eexists.
  - exists (log w). by rewrite with_log_same_log.
Qed.

Lemma addSprites_frame source : forall w sprites,
  _sprites (sound w) = Some sprites ->
  exists results sprites' lg, addSprites source w
    = (Ok results,
       with_sound (set__sprites (Some sprites') (sound w)) (with_log lg w)).
Proof.
  induction source as [|[alias data] rest IH]; intros w sprites Hs.
  - exists ∅, sprites, (log w). cbn. rewrite with_log_same_log.
    destruct w as [s c h p q lg d]. destruct s. cbn in *. by subst.
  - destruct (addSprite_frame alias data w sprites Hs) as (lg1 & H1).
    cbn [addSprites]. erewrite bind_ok by exact H1.
    match goal with |- context [mbind _ (addSprites rest) ?w1] =>
      destruct (IH w1 _ eq_refl) as (results & sprites' & lg2 & H2)
    end.
    erewrite bind_ok by exact H2. by eexists _, _, _.
Qed.

Lemma constructor_fields_ok source w :
  let o := constructor_options source in
  exists w1, constructor_fields source w = (Ok tt, w1) /\
    preload (sound w1)
      = default false (Options.preload o) || default false (Options.autoPlay o)
    /\ src (sound w1) = Options.src o
    /\ srcBuffer (sound w1) = Options.srcBuffer o
    /\ useXHR (sound w1) = default true (Options.useXHR o)
    /\ _context (sound w1) = Some TheContext
    /\ pending w1 = pending w.
Proof.
  cbn zeta. unfold constructor_fields.
  erewrite bind_ok by reflexivity.
  erewrite bind_ok by reflexivity.
  erewrite bind_ok by reflexivity.
  erewrite bind_ok by reflexivity.
  destruct (Options.sprites (constructor_options source)) as [sprites|].
  - match goal with |- context [mbind _ (addSprites sprites) ?w1] =>
      destruct (addSprites_frame sprites w1 _ eq_refl)
        as (results & sprites' & lg & H)
    end.
    erewrite bind_ok by exact H. by eexists.
  - by eexists.
Qed.

Lemma constructor_invariants source w :
  well_formed (exec (new_Sound source) w) /\
  playing_iff_active (exec (new_Sound source) w).
Proof.
  destruct (constructor_fields_ok source w) as (w1 & Hrun & _).
  assert (Hfields : _instances (sound w1) = Some [] /\
                    isPlaying (sound w1) = false).
  { revert Hrun. unfold constructor_fields.
    erewrite bind_ok by reflexivity. erewrite bind_ok by reflexivity.
    erewrite bind_ok by reflexivity. erewrite bind_ok by reflexivity.
    destruct (Options.sprites (constructor_options source)) as [sprites|].
    - match goal with |- context [mbind _ (addSprites sprites) ?w0] =>
        destruct (addSprites_frame sprites w0 _ eq_refl)
          as (results & sprites' & lg & H)
      end.
      erewrite bind_ok by exact H. by intros [= <-].
    - by intros [= <-]. }
  destruct Hfields as [Hl Hp].
  assert (Hwf : well_formed w1 /\ playing_iff_active w1).
  { split.
    - exists []. split; [done|]. split; constructor.
    - by apply (playing_iff_active_intro _ []). }
  unfold exec, new_Sound. erewrite bind_ok by exact Hrun.
  erewrite bind_ok by reflexivity.
  destruct (preload (sound w1)); cbn [when]; [|done].
  match goal with |- context [_beginPreload ?cb w1] =>
    destruct (_beginPreload_frame cb w1) as (res & w2 & -> & Hs & Hh)
  end.
  cbn. destruct Hwf. apply (invariants_transfer w1); by rewrite ?Hs, ?Hh.
Qed.

(** ** Every world the code reaches *)

(** From the constructor on, operations other than [pause] and answers of
    the environment keep the asset well formed and [isPlaying] in step with
    the instance list. *)

Lemma step_invariants s w :
  s <> Operate DoPause ->
  well_formed w -> playing_iff_active w ->
  well_formed (exec (step s) w) /\ playing_iff_active (exec (step s) w).
Proof.
  intros Hs Hwf Hinv. destruct s as [op|n a]; cbn [step].
  - destruct op as [source complete| | | |r|r]; cbn [run].
    + rewrite exec_then_mret. by apply play_invariants.
    + by apply stop_invariants.
    + done.
    + by apply resume_invariants.
    + by apply instance_ended_invariants.
    + by apply instance_stop_invariants.
  - by apply answer_invariants.
Qed.

Lemma steps_invariants l : forall w,
  Operate DoPause ∉ l ->
  well_formed w -> playing_iff_active w ->
  well_formed (steps l w) /\ playing_iff_active (steps l w).
Proof.
  induction l as [|s l IH]; intros w Hl Hwf Hinv; cbn [steps]; [done|].
  rewrite not_elem_of_cons in Hl. destruct Hl as [Hs Hl].
  destruct (step_invariants s w) as [Hwf' Hinv']; auto.
Qed.

Lemma reachable_invariants source l :
  Operate DoPause ∉ l ->
  well_formed (steps l (world_of source)) /\
  playing_iff_active (steps l (world_of source)).
Proof.
  intros Hl. apply steps_invariants; [done|..];
    apply (constructor_invariants source (empty_world false)).
Qed.

(** ** What every step keeps, [pause] included *)

Lemma coherent_intro (w w' : World) :
  well_formed w' ->
  _source (sound w') = _source (sound w) ->
  isLoaded (sound w') = isLoaded (sound w) ->
  (isLoaded (sound w) = false -> active w = [] ->
   isPlaying (sound w) = false ->
   active w' = [] /\ isPlaying (sound w') = false) ->
  coherent w -> coherent w'.
Proof.
  intros Hwf Hs Hl Hidle (_ & b & Hb & Hc). split; [done|]. exists b.
  rewrite Hs, Hl. split; [done|].
  destruct (isLoaded (sound w)); [done|]. destruct Hc. by apply Hidle.
Qed.

Lemma coherent_transfer (w w' : World) :
  _instances (sound w') = _instances (sound w) ->
  isPlaying (sound w') = isPlaying (sound w) ->
  heap w' = heap w ->
  _source (sound w') = _source (sound w) ->
  isLoaded (sound w') = isLoaded (sound w) ->
  coherent w -> coherent w'.
Proof.
  intros Hi Hp Hh Hs Hl Hc. apply (coherent_intro w); try done.
  - destruct Hc as [Hwf _]. unfold well_formed in *. by rewrite Hi, Hh.
  - unfold active. by rewrite Hi, Hp.
Qed.

Lemma play_deferred_keeps o w :
  exists w', play_deferred o w = (Ok (length (promises w)), w') /\
    _instances (sound w') = _instances (sound w) /\
    isPlaying (sound w') = isPlaying (sound w) /\
    isLoaded (sound w') = isLoaded (sound w) /\
    _source (sound w') = _source (sound w) /\
    heap w' = heap w.
Proof.
  unfold play_deferred, new_Promise.
  set (w0 := with_promises (promises w ++ [PromisePending]) w).
  erewrite bind_ok by reflexivity. erewrite bind_ok by reflexivity.
  match goal with |- context [_beginPreload ?cb ?w1] =>
    destruct (_beginPreload_frame cb w1) as (res & w2 & -> & Hs & Hh)
  end.
  cbn in Hs, Hh.
  destruct res as [[]|e]; eexists; (split; [reflexivity|]).
  - by rewrite Hs, Hh.
  - unfold reject.
    destruct (settle_frame (length (promises w)) (Rejected e) w2)
      as (-> & -> & _). by rewrite Hs, Hh.
Qed.

Lemma play_coherent source complete w :
  coherent w -> coherent (exec (play source complete) w).
Proof.
  intros Hc. pose proof Hc as [(l & Hl & Hnd & Hlive) _]. unfold exec.
  destruct (play_sprite_frame
    (play_defaults (play_options source complete)) w)
    as [(o' & Hs)|(e & lg & Hs)].
  - destruct (isLoaded (sound w)) eqn:Hld.
    + rewrite (play_loaded_ok source complete w l o' Hld Hl
                 (fun _ => well_formed_valid _ _ Hlive) Hs).
      cbn [snd]. apply (coherent_intro w); try done.
      all: try (by apply played_invariants).
      all: congruence.
    + unfold play. erewrite bind_ok by exact Hs.
      erewrite bind_ok by reflexivity. rewrite Hld. cbn [negb].
      destruct (play_deferred_keeps (play_offset o') w)
        as (w' & Hrun & ? & ? & ? & ? & ?).
      erewrite bind_ok by exact Hrun. cbn.
      by apply (coherent_transfer w).
  - unfold play. erewrite bind_throw by exact Hs. cbn.
    by apply (coherent_transfer w).
Qed.

Lemma stop_loop_keeps n : forall w l,
  _instances (sound w) = Some l -> length l = n -> NoDup l ->
  Forall (fun x => live <$> heap w !! x = Some true) l ->
  let w' := (for_reverse n (fun i => r ← instance_at i; instance_stop r) w).2 in
  _source (sound w') = _source (sound w) /\
  isLoaded (sound w') = isLoaded (sound w).
Proof.
  induction n as [|n IH]; intros w l Hl Hn Hnd Hlive; [done|]. cbn zeta.
  destruct l as [|r l0 _] using rev_ind; [done|].
  rewrite length_app in Hn. cbn in Hn.
  apply NoDup_app in Hnd as (Hnd0 & Hdisj & _).
  assert (Hr0 : r ∉ l0).
  { intros Hin. apply (Hdisj r Hin). by left. }
  apply Forall_app in Hlive as [Hlive0 Hr]. rewrite Forall_singleton in Hr.
  apply live_lookup in Hr as (i & Hi & Hli).
  apply live_not_terminal in Hli as [Hterm Hon].
  cbn [for_reverse].
  assert (Hat : (l0 ++ [r]) !! n = Some r).
  { rewrite lookup_app_r by lia. by replace (n - length l0) with 0 by lia. }
  set (w1 := with_heap (alter destroyed r (heap w))
               (with_sound (reaped r (l0 ++ [r]) (sound w)) w)).
  assert (H1 : (instance_at n ≫= instance_stop) w = (Ok tt, w1)).
  { erewrite bind_ok; [|by eapply instance_at_ok].
    erewrite instance_stop_ok by done. by rewrite Hterm, Hon. }
  erewrite bind_ok by exact H1.
  destruct (IH w1 l0) as [Hs' Hl'].
  { cbn. by rewrite remove_first_last. }
  { lia. }
  { done. }
  { apply Forall_forall. intros x Hx. cbn.
    rewrite list_lookup_alter_ne by (intros ->; done).
    rewrite Forall_forall in Hlive0. by apply Hlive0. }
  cbn zeta in Hs', Hl'. by rewrite Hs', Hl'.
Qed.

Lemma stop_coherent w : coherent w -> coherent (exec stop w).
Proof.
  intros Hc. pose proof Hc as [(l & Hl & Hnd & Hlive) _]. unfold exec, stop.
  destruct (isPlayable_ok w) as [b Hb]. erewrite bind_ok by exact Hb.
  destruct b; cbn [negb].
  - erewrite bind_ok by reflexivity.
    erewrite bind_ok by (by apply instances_ok).
    pose proof (stop_loop_keeps (length l)
      (with_sound (set_isPlaying false (sound w)) w) l Hl eq_refl Hnd Hlive)
      as [Hs' Hl'].
    destruct (stop_loop (length l)
      (with_sound (set_isPlaying false (sound w)) w) l)
      as (w' & Hrun & Hinst & Hplay & _); [done..|].
    cbn zeta in Hs', Hl'. rewrite Hrun in *. cbn [snd] in *.
    apply (coherent_intro w); try done.
    + exists []. split; [done|]. split; constructor.
    + intros _ _ _. unfold active. rewrite Hinst, Hplay.
      by destruct (length l).
  - erewrite bind_ok by reflexivity. cbn.
    by apply (coherent_transfer w).
Qed.

Lemma pause_coherent w : coherent w -> coherent (exec pause w).
Proof.
  intros Hc. pose proof Hc as [Hwf _].
  destruct (pause_invariants w Hwf) as (Hwf' & Hp & Hi).
  destruct Hwf as (l & Hl & Hnd & Hlive).
  apply (coherent_intro w); try done.
  - unfold exec. by rewrite (pause_ok w l).
  - unfold exec. by rewrite (pause_ok w l).
  - intros _ Ha _. unfold active. by rewrite Hi.
Qed.

Lemma resume_coherent w : coherent w -> coherent (exec resume w).
Proof.
  intros Hc. pose proof Hc as [Hwf _].
  destruct (resume_invariants w Hwf) as (Hwf' & Hp).
  destruct Hwf as (l & Hl & Hnd & Hlive).
  apply (coherent_intro w); try done.
  - unfold exec. by rewrite (resume_ok w l).
  - unfold exec. by rewrite (resume_ok w l).
  - intros _ Ha _. unfold exec. rewrite (resume_ok w l) by done.
    unfold active in *. cbn. rewrite Hl in *. cbn in Ha. by subst l.
Qed.

Lemma reap_coherent (w w' : World) r l :
  _instances (sound w) = Some l ->
  sound w' = reaped r l (sound w) ->
  (forall x, x <> r -> heap w' !! x = heap w !! x) ->
  coherent w -> coherent w'.
Proof.
  intros Hl Hs Hh Hc. pose proof Hc as [(l' & Hl' & Hnd & Hlive) _].
  assert (l' = l) as -> by congruence.
  destruct (reap_invariants w w' r l) as [Hwf' _]; try done.
  apply (coherent_intro w); try done; try (by rewrite Hs).
  intros _ Ha _. unfold active in *. rewrite Hs. rewrite Hl in Ha.
  cbn in *. by subst l.
Qed.

Lemma instance_stop_coherent r w :
  coherent w -> coherent (exec (instance_stop r) w).
Proof.
  intros Hc. pose proof Hc as [(l & Hl & Hnd & Hlive) _]. unfold exec.
  destruct (heap w !! r) as [i|] eqn:Hi.
  2:{ unfold instance_stop. destruct (deref_dangling r w Hi) as [e He].
      by erewrite bind_throw by exact He. }
  rewrite (instance_stop_ok r i l w) by done. cbn [snd].
  destruct (terminal (inst_state i)) eqn:Hterm; [done|].
  destruct (inst_on_stop i) eqn:Hon.
  - apply (reap_coherent w _ r l); try done.
    intros x Hx. cbn. by apply list_lookup_alter_ne.
  - apply (coherent_intro w); try done.
    apply (alter_outside_invariants w l); try done.
    intros Hr. apply (member_live w l r i) in Hr; try done.
    apply live_not_terminal in Hr as [_ Hr]. congruence.
Qed.

Lemma instance_ended_coherent r w :
  coherent w -> coherent (exec (instance_ended r) w).
Proof.
  intros Hc. pose proof Hc as [(l & Hl & Hnd & Hlive) _]. unfold exec.
  destruct (heap w !! r) as [i|] eqn:Hi.
  2:{ unfold instance_ended. destruct (deref_dangling r w Hi) as [e He].
      by erewrite bind_throw by exact He. }
  rewrite (instance_ended_ok r i l w) by done. cbn [snd].
  destruct (inst_state i) eqn:Hstate; try done.
  destruct (inst_on_end i) as [[complete]|] eqn:Hon.
  - apply (reap_coherent w _ r l); try done.
    intros x Hx. cbn. by apply list_lookup_alter_ne.
  - apply (coherent_intro w); try done.
    apply (alter_outside_invariants w l); try done.
    intros Hr. apply (member_live w l r i) in Hr; try done.
    unfold live in Hr. rewrite Hstate, Hon in Hr.
    by apply andb_prop in Hr as [_ Hr].
Qed.

Lemma answer_coherent n a w : coherent w -> coherent (exec (answer n a) w).
Proof.
  intros Hc. unfold exec, answer.
  destruct (pending w !! n) as [r|]; [|done].
  set (w0 := with_pending (delete n (pending w)) w).
  assert (Hc0 : coherent w0) by (by apply (coherent_transfer w)).
  clearbody w0.
  assert (Hdecode : forall bytes cb w1,
    coherent w1 -> coherent (_decode bytes cb w1).2).
  { intros bytes cb w1 ?.
    destruct (_decode_frame bytes cb w1) as (res & w2 & -> & Hs & Hh).
    cbn [snd]. apply (coherent_transfer w1); by rewrite ?Hs, ?Hh. }
  assert (Hcall : forall cb err b inst w1,
    coherent w1 -> coherent (call_loaded cb err b inst w1).2).
  { intros cb err b inst w1 ?.
    destruct (call_loaded_frame cb err b inst w1) as (w2 & -> & Hs & Hh & _).
    cbn [snd]. apply (coherent_transfer w1); by rewrite ?Hs, ?Hh. }
  destruct r as [url cb|path cb|bytes cb], a; cbn [continue]; try done.
  - unfold xhr_onload. erewrite bind_ok by reflexivity.
    apply Hdecode; by apply (coherent_transfer w0).
  - unfold readFile_callback. erewrite bind_ok by reflexivity.
    assert (H1 : forall w1, coherent w1 ->
      coherent
        (match cb with
         | Some cb0 =>
             s ← this;
             call_loaded cb0
               (Some (Error ("File not found " +:+ default "null" (src s))))
               false None
         | None => mret tt
         end w1).2).
    { intros w1 ?. destruct cb as [cb|]; [|done].
      erewrite bind_ok by reflexivity. by apply Hcall. }
    destruct (DEBUG w0); cbn [when].
    + erewrite bind_ok by reflexivity. apply H1; by apply (coherent_transfer w0).
    + erewrite bind_ok by reflexivity. by apply H1.
  - unfold readFile_callback. erewrite bind_ok by reflexivity.
    apply Hdecode; by apply (coherent_transfer w0).
  - unfold decode_callback. erewrite bind_ok by reflexivity.
    destruct Hc0 as (Hwf0 & b & Hb & _).
    erewrite bind_ok; last first.
    { unfold set_buffer. unfold_monad. cbn. rewrite Hb. reflexivity. }
    match goal with |- context [with_sound ?s ?w1] =>
      set (w2 := with_sound s w1)
    end.
    assert (Hc2 : coherent w2).
    { split.
      - destruct Hwf0 as (l & Hl & Hnd & Hlive). exists l. by repeat split.
      - eexists. split; [reflexivity|]. cbn. by eexists. }
    clearbody w2.
    erewrite bind_ok by reflexivity.
    destruct (autoPlay (sound w2)).
    + match goal with |- context [play ?src None] =>
        pose proof (play_coherent src None w2 Hc2) as Hc3;
        unfold exec in Hc3;
        destruct (play src None w2) as [[r|e] w3] eqn:Hplay
      end.
      * erewrite bind_ok; last first.
        { erewrite bind_ok by exact Hplay. reflexivity. }
        destruct cb as [cb|]; [by apply Hcall|done].
      * erewrite bind_throw; last first.
        { erewrite bind_throw by exact Hplay. reflexivity. }
        done.
    + erewrite bind_ok by reflexivity.
      destruct cb as [cb|]; [by apply Hcall|done].
  - unfold decode_callback. destruct cb as [cb|]; [by apply Hcall|done].
Qed.

Lemma constructor_coherent source w : coherent (exec (new_Sound source) w).
Proof.
  assert (Hrun : exists w1, constructor_fields source w = (Ok tt, w1) /\
    _instances (sound w1) = Some [] /\ isPlaying (sound w1) = false /\
    isLoaded (sound w1) = false /\ is_Some (_source (sound w1))).
  { unfold constructor_fields.
    erewrite bind_ok by reflexivity. erewrite bind_ok by reflexivity.
    erewrite bind_ok by reflexivity. erewrite bind_ok by reflexivity.
    destruct (Options.sprites (constructor_options source)) as [sprites|].
    - match goal with |- context [mbind _ (addSprites sprites) ?w0] =>
        destruct (addSprites_frame sprites w0 _ eq_refl)
          as (results & sprites' & lg & H)
      end.
      erewrite bind_ok by exact H. eexists. split; [reflexivity|].
      cbn. repeat split; by eexists.
    - eexists. split; [reflexivity|]. cbn. repeat split; by eexists. }
  destruct Hrun as (w1 & Hrun & Hi & Hp & Hl & b & Hb).
  assert (Hc1 : coherent w1).
  { split.
    - exists []. split; [done|]. split; constructor.
    - exists b. split; [done|]. rewrite Hl. unfold active. by rewrite Hi. }
  unfold exec, new_Sound. erewrite bind_ok by exact Hrun.
  erewrite bind_ok by reflexivity.
  destruct (preload (sound w1)); cbn [when]; [|done].
  match goal with |- context [_beginPreload ?cb w1] =>
    destruct (_beginPreload_frame cb w1) as (res & w2 & -> & Hs & Hh)
  end.
  cbn. apply (coherent_transfer w1); by rewrite ?Hs, ?Hh.
Qed.

Lemma step_coherent s w : coherent w -> coherent (exec (step s) w).
Proof.
  intros Hc. destruct s as [op|n a]; cbn [step].
  - destruct op as [source complete| | | |r|r]; cbn [run].
    + rewrite exec_then_mret. by apply play_coherent.
    + by apply stop_coherent.
    + by apply pause_coherent.
    + by apply resume_coherent.
    + by apply instance_ended_coherent.
    + by apply instance_stop_coherent.
  - by apply answer_coherent.
Qed.

Lemma steps_coherent l : forall w, coherent w -> coherent (steps l w).
Proof.
  induction l as [|s l IH]; intros w Hc; cbn [steps]; [done|].
  by apply IH, step_coherent.
Qed.

Lemma effect_playing op w :
  coherent w -> op <> DoPause -> takes_effect op w ->
  playing_iff_active (exec (run op) w).
Proof.
  intros Hc Hop Heff.
  pose proof Hc as (Hwf & b & Hb & Hidle).
  pose proof Hwf as (l & Hl & Hnd & Hlive).
  destruct op as [source complete| | | |r|r]; cbn [run]; [| |done| | |].
  - rewrite exec_then_mret. destruct Heff as [res Hres].
    unfold exec, result in *.
    destruct (play_sprite_frame
      (play_defaults (play_options source complete)) w)
      as [(o' & Hs)|(e & lg & Hs)].
    2:{ unfold play in Hres. by erewrite bind_throw in Hres by exact Hs. }
    destruct (isLoaded (sound w)) eqn:Hld.
    + rewrite (play_loaded_ok source complete w l o' Hld Hl
                 (fun _ => well_formed_valid _ _ Hlive) Hs).
      cbn [snd]. by apply played_invariants.
    + unfold play. erewrite bind_ok by exact Hs.
      erewrite bind_ok by reflexivity. rewrite Hld. cbn [negb].
      destruct (play_deferred_keeps (play_offset o') w)
        as (w' & Hrun & Hi & Hp & _).
      erewrite bind_ok by exact Hrun. cbn.
      destruct Hidle as [Ha Hplaying].
      unfold playing_iff_active, active in *. rewrite Hi, Hp, Ha, Hplaying.
      by rewrite bool_decide_false by (by intros ?).
  - unfold exec, stop.
    destruct (isPlayable_ok w) as [playable Hplayable].
    erewrite bind_ok by exact Hplayable.
    destruct playable; cbn [negb].
    + erewrite bind_ok by reflexivity.
      erewrite bind_ok by (by apply instances_ok).
      destruct (stop_loop (length l)
        (with_sound (set_isPlaying false (sound w)) w) l)
        as (w' & Hrun & Hinst & Hplay & _); [done..|].
      rewrite Hrun. cbn.
      apply (playing_iff_active_intro _ []); [done|].
      rewrite Hplay. by destruct (length l).
    + erewrite bind_ok by reflexivity. cbn.
      assert (Hld : isLoaded (sound w) = false).
      { revert Hplayable. unfold isPlayable. unfold_monad. cbn.
        rewrite Hb. cbn. destruct (isLoaded (sound w)); [|done].
        rewrite bool_decide_true by done. by intros [=]. }
      rewrite Hld in Hidle. destruct Hidle as [Ha Hplaying].
      unfold playing_iff_active, active in *. cbn. rewrite Ha, Hplaying.
      by rewrite bool_decide_false by (by intros ?).
  - by apply resume_invariants.
  - destruct Heff as [Hr Hstate]. unfold active in Hr. rewrite Hl in Hr.
    cbn in Hr. rewrite Forall_forall in Hlive.
    destruct (live_lookup _ _ (Hlive r Hr)) as (i & Hi & Hli).
    rewrite Hi in Hstate. cbn in Hstate. injection Hstate as Hstate.
    unfold exec. rewrite (instance_ended_ok r i l w) by done. cbn [snd].
    rewrite Hstate. unfold live in Hli. rewrite Hstate in Hli.
    apply andb_prop in Hli as [_ Hend]. apply bool_decide_eq_true_1 in Hend.
    destruct Hend as [[complete] Hend]. rewrite Hend.
    apply (reap_invariants w _ r l); try done.
    + by apply Forall_forall.
    + intros x Hx. cbn. by apply list_lookup_alter_ne.
  - cbn [takes_effect] in Heff. unfold active in Heff. rewrite Hl in Heff.
    cbn in Heff.
    rewrite Forall_forall in Hlive.
    destruct (live_lookup _ _ (Hlive r Heff)) as (i & Hi & Hli).
    apply live_not_terminal in Hli as [Hterm Hon].
    unfold exec. rewrite (instance_stop_ok r i l w) by done. cbn [snd].
    rewrite Hterm, Hon.
    apply (reap_invariants w _ r l); try done.
    + by apply Forall_forall.
    + intros x Hx. cbn. by apply list_lookup_alter_ne.
Qed.

(** ** The example worlds *)

Lemma single_world_well_formed : well_formed single_world.
Proof. exists []. split; [reflexivity|]. split; constructor. Qed.

(** * Properties *)

(** ** C1: blocking *)

(** C1.  With [sound.block = true] on a loaded asset, the second of two
    [play()] calls in a row should return the instance of the first and
    leave one instance alive.  [play] never reads [block]: the second call
    returns a new instance, and two instances are active. *)
Theorem C1_blocking_flag_is_not_read :
  block (sound blocking_world) = true /\
  isLoaded (sound blocking_world) = true /\
  result (play PlayUndefined None) blocking_world = Ok (Instance 0) /\
  result (play PlayUndefined None)
    (exec (play PlayUndefined None) blocking_world) = Ok (Instance 1) /\
  active (exec (play_times 2) blocking_world) = [0; 1] /\
  active (exec (play_times 4) blocking_world) = [0; 1; 2; 3].
Proof. vm_compute. repeat split. Qed.

(** ** C2: play before the asset is loaded *)

(** C2.  [play()] on an asset that is not loaded should start a preload
    only when none is outstanding, and lead to one spawned instance.  It
    calls [_beginPreload] without looking: an asset constructed with
    [preload: true] has its decode outstanding, [play()] before that decode
    has answered hands a second decode of the same bytes to
    [decodeAudioData], and when both have succeeded the one [play()] call
    has spawned two instances. *)
Lemma C2_second_preload_is_enqueued :
  isLoaded (sound preloading_world) = false /\
  pending preloading_world = [DecodeRequest some_bytes None] /\
  pending (exec (play PlayUndefined None) preloading_world)
  = [DecodeRequest some_bytes None;
     DecodeRequest some_bytes (Some (PlayLoaded 0 None))] /\
  active (exec (play PlayUndefined None ;;
                answer 0 (DecodeSucceeded one_second) ;;
                answer 0 (DecodeSucceeded one_second)) preloading_world)
  = [0; 1].
Proof. vm_compute. repeat split. Qed.

(** ** C3: singleInstance *)

(** C3.  On a loaded asset with [singleInstance = true], after any
    non-empty run of [play] calls (each naming no sprite or a sprite of the
    table) exactly one instance is active: the one the last call spawned.
    Every instance that was active before the last call has been destroyed
    by it, and the instance list still holds only live instances. *)
Theorem C3_single_instance (w : World)
    (calls : list (PlaySource * option fn))
    (call : PlaySource * option fn) :
  well_formed w -> isLoaded (sound w) = true ->
  singleInstance (sound w) = true ->
  Forall (sprite_known w) (calls ++ [call]) ->
  let before := exec (play_each calls) w in
  let after := exec (play_each (calls ++ [call])) w in
  well_formed after /\
  active after = [length (heap before)] /\
  (forall r, r ∈ active before ->
     inst_state <$> heap after !! r = Some Destroyed).
Proof.
  revert w. induction calls as [|c rest IH]; intros w Hwf Hld Hsi Hk; cbn zeta.
  - cbn [app] in Hk. rewrite Forall_singleton in Hk.
    destruct (play_single_ok call w Hwf Hld Hsi Hk)
      as (w' & Hrun & Hwf' & _ & _ & _ & Hact & Hdead).
    cbn [app]. rewrite (exec_play_each_cons _ _ _ _ _ Hrun). done.
  - cbn [app] in Hk. rewrite Forall_cons in Hk. destruct Hk as [Hc Hk].
    destruct (play_single_ok c w Hwf Hld Hsi Hc)
      as (w' & Hrun & Hwf' & Hld' & Hsi' & Hsp & _ & _).
    cbn [app]. rewrite !(exec_play_each_cons _ _ _ _ _ Hrun).
    apply IH; try done.
    eapply Forall_impl; [exact Hk|]. intros x. by apply sprite_known_transfer.
Qed.

Lemma C3_single_instance_witness :
  active (exec (play_times 3) single_world) = [2].
Proof.
  destruct (C3_single_instance single_world
              [(PlayUndefined, None); (PlayUndefined, None)]
              (PlayUndefined, None)) as (_ & H & _).
  - apply single_world_well_formed.
  - reflexivity.
  - reflexivity.
  - repeat constructor; apply sprite_known_undefined.
  - exact H.
Defined.

(** ** C4: isPlaying *)

(** C4 fails after [pause].  After [play()] on a loaded asset, [pause()] sets
    [isPlaying] to false while the paused instance stays in the instance
    list. *)
Lemma C4_paused_asset_is_not_playing :
  let w := exec (run (DoPlay PlayUndefined None)) loaded_world in
  playing_iff_active w /\
  active (exec (run DoPause) w) = [0] /\
  isPlaying (sound (exec (run DoPause) w)) = false /\
  ~ playing_iff_active (exec (run DoPause) w).
Proof.
  cbv zeta. split; [vm_compute; reflexivity|].
  split; [vm_compute; reflexivity|]. split; [vm_compute; reflexivity|].
  vm_compute. discriminate.
Qed.

(** C4, as the code has it.  Take an asset as its constructor made it and
    as any run of [play], [stop], [pause], [resume], instance events and
    answers of the loaders has left it.  After a [play] that returns, a
    [stop], a [resume], the natural end of a playing instance of the list
    and the stop of an instance of the list, [isPlaying] says whether the
    instance list is non-empty, also when the asset was paused before.
    [pause] keeps the instance list as it is and sets [isPlaying] to false;
    [resume] after it makes [isPlaying] say again whether the list is
    non-empty.  The instance list holds distinct live instances
    throughout. *)
Theorem C4_isPlaying_after_operation (source : Source) (w0 : World)
    (l : list Step) (op : Operation) :
  let w := steps l (exec (new_Sound source) w0) in
  let w' := exec (run op) w in
  well_formed w' /\
  (op <> DoPause -> takes_effect op w -> playing_iff_active w') /\
  (op = DoPause ->
     isPlaying (sound w') = false /\
     _instances (sound w') = _instances (sound w) /\
     playing_iff_active (exec (run DoResume) w')).
Proof.
  cbn zeta.
  pose proof (steps_coherent l _ (constructor_coherent source w0)) as Hc.
  set (w := steps l (exec (new_Sound source) w0)) in *. clearbody w.
  pose proof (step_coherent (Operate op) w Hc) as [Hwf' _].
  cbn [step] in Hwf'.
  split; [done|]. split; [by apply effect_playing|].
  intros ->. cbn [run] in *. destruct Hc as [Hwf _].
  destruct (pause_invariants w Hwf) as (_ & Hp & Hi).
  split; [done|]. split; [done|]. by apply resume_invariants.
Qed.

Lemma C4_isPlaying_after_operation_witness :
  let w :=
    steps [Answered 0 (DecodeSucceeded one_second);
           Operate (DoPlay PlayUndefined None);
           Operate (DoPlay PlayUndefined None);
           Operate DoPause]
      preloading_world in
  active w = [0; 1] /\ isPlaying (sound w) = false /\
  playing_iff_active (exec (run DoStop) w) /\
  playing_iff_active (exec (run (InstanceStop 0)) w).
Proof.
  cbv zeta. split; [reflexivity|]. split; [reflexivity|]. split.
  - match goal with |- playing_iff_active (exec (run DoStop) (steps ?l _)) =>
      destruct (C4_isPlaying_after_operation
                  (SourceOptions
                     {| Options.autoPlay := None;
                        Options.singleInstance := None;
                        Options.volume := None; Options.speed := None;
                        Options.complete := None; Options.loaded := None;
                        Options.preload := Some true; Options.loop := None;
                        Options.src := None;
                        Options.srcBuffer := Some some_bytes;
                        Options.useXHR := None; Options.sprites := None |})
                  (empty_world false) l DoStop) as (_ & H & _)
    end.
    apply H; [discriminate|exact I].
  - match goal with
    |- playing_iff_active (exec (run (InstanceStop 0)) (steps ?l _)) =>
      destruct (C4_isPlaying_after_operation
                  (SourceOptions
                     {| Options.autoPlay := None;
                        Options.singleInstance := None;
                        Options.volume := None; Options.speed := None;
                        Options.complete := None; Options.loaded := None;
                        Options.preload := Some true; Options.loop := None;
                        Options.src := None;
                        Options.srcBuffer := Some some_bytes;
                        Options.useXHR := None; Options.sprites := None |})
                  (empty_world false) l (InstanceStop 0)) as (_ & H & _)
    end.
    apply H; [discriminate|]. apply (list_elem_of_here 0 [1]).
Defined.

(** ** C5: volume *)

(** C5.  For [v] in [0, 1], [sound.volume = v] followed by [sound.volume]
    yields [v]; on the context, [muted = true] sets the output gain to [0]
    and leaves the stored volume alone, and [muted = false] afterwards sets
    the output gain to that stored volume. *)
Theorem C5_volume_round_trip_and_mute (v : number) (w : World)
    (c : Ctx.SoundContext) :
  PrimFloat.leb 0 v && PrimFloat.leb v 1 = true ->
  is_Some (_nodes (sound w)) ->
  result (set_volume v ;; get_volume) w = Ok v /\
  Ctx._gain (Ctx.set_muted true c) = 0%float /\
  Ctx.get_volume (Ctx.set_muted true c) = Ctx.get_volume c /\
  Ctx._gain (Ctx.set_muted false (Ctx.set_muted true c)) = Ctx.get_volume c.
Proof.
  intros _ [nodes Hn]. split; [|done].
  unfold set_volume, get_volume. unfold_monad. cbn. by rewrite Hn.
Qed.

Lemma C5_volume_round_trip_and_mute_witness :
  result (set_volume 0.25%float ;; get_volume) loaded_world = Ok 0.25%float /\
  Ctx._gain (Ctx.set_muted true (context loaded_world)) = 0%float /\
  Ctx.get_volume (Ctx.set_muted true (context loaded_world))
    = Ctx.get_volume (context loaded_world) /\
  Ctx._gain (Ctx.set_muted false (Ctx.set_muted true (context loaded_world)))
    = Ctx.get_volume (context loaded_world).
Proof.
  apply (C5_volume_round_trip_and_mute 0.25%float loaded_world
           (context loaded_world)).
  - reflexivity.
  - vm_compute. eexists. reflexivity.
Defined.

(** ** C6: preload without a source *)

(** C6.  With neither [src] nor [srcBuffer], [_beginPreload] returns at once
    having reported "sound.src or sound.srcBuffer must be set": to the
    callback when there is one (a promise callback rejects its promise),
    to [console.error] otherwise.  No request is handed to XMLHttpRequest,
    [fs.readFile] or [decodeAudioData], and the asset is left as it was. *)
Theorem C6_preload_without_source (callback : option LoadedCallback)
    (w : World) :
  truthy_opt truthy_string (src (sound w)) = false ->
  srcBuffer (sound w) = None ->
  let w' := exec (_beginPreload callback) w in
  result (_beginPreload callback) w = Ok tt /\
  pending w' = pending w /\
  sound w' = sound w /\
  match callback with
  | None =>
      log w' = log w ++ [ConsoleError must_be_set] /\
      promises w' = promises w
  | Some (UserLoaded f) =>
      log w' =
        log w ++ [LoadedCalled f (Some (Error must_be_set)) false None] /\
      promises w' = promises w
  | Some (PlayLoaded p _) =>
      log w' = log w /\
      (promises w !! p = Some PromisePending ->
       promises w' !! p = Some (Rejected (Error must_be_set)))
  end.
Proof.
  intros Hs Hb. unfold _beginPreload, call_loaded, console_error, reject.
  unfold_monad. cbn. rewrite Hs, Hb.
  destruct callback as [[f|p l]|]; cbn; [by repeat split| |by repeat split].
  destruct (promises w !! p) as [[]|] eqn:Hp; cbn; repeat split; try done.
  intros _. apply list_lookup_insert_eq. by eapply lookup_lt_Some.
Qed.

Lemma C6_preload_without_source_witness :
  result (_beginPreload (Some (UserLoaded 1))) sourceless_world = Ok tt /\
  pending (exec (_beginPreload (Some (UserLoaded 1))) sourceless_world) = [] /\
  log (exec (_beginPreload (Some (UserLoaded 1))) sourceless_world)
    = [LoadedCalled 1 (Some (Error must_be_set)) false None].
Proof.
  destruct (C6_preload_without_source (Some (UserLoaded 1)) sourceless_world)
    as (Hres & Hpending & _ & Hlog & _).
  - reflexivity.
  - reflexivity.
  - split; [exact Hres|]. split; [exact Hpending|exact Hlog].
Defined.

(** ** C7: a failed decode *)

Lemma decode_failure_answer (w : World) (n : nat) (bytes : ArrayBuffer)
    (callback : option LoadedCallback) :
  pending w !! n = Some (DecodeRequest bytes callback) ->
  let w' := exec (answer n DecodeFailed) w in
  result (answer n DecodeFailed) w = Ok tt /\
  sound w' = sound w /\ heap w' = heap w /\
  pending w' = delete n (pending w) /\
  match callback with
  | None => log w' = log w /\ promises w' = promises w
  | Some (UserLoaded f) =>
      log w' = log w ++ [LoadedCalled f (Some unable_to_decode) false None] /\
      promises w' = promises w
  | Some (PlayLoaded p _) =>
      log w' = log w /\
      (promises w !! p = Some PromisePending ->
       promises w' !! p = Some (Rejected unable_to_decode))
  end.
Proof.
  intros Hreq. cbn zeta. unfold exec, result.
  erewrite answer_ok by (done || reflexivity). unfold decode_callback.
  destruct callback as [[f|p l]|]; cbn [call_loaded]; [by cbn| |by cbn].
  unfold reject, settle. unfold_monad. cbn.
  destruct (promises w !! p) as [[]|] eqn:Hp; cbn; repeat split; try done.
  intros _. apply list_lookup_insert_eq. by eapply lookup_lt_Some.
Qed.

(** C7.  Take a preload invocation on an asset that is not loaded, with a
    [src] or else a [srcBuffer]: once the bytes are there (the answer of
    XMLHttpRequest or [fs.readFile] when there is a [src], [srcBuffer]
    itself otherwise) exactly one decode of them is outstanding, and it
    carries the callback the preload was given.  When that decode fails,
    the callback is called with the error [Unable to decode file] as its
    only argument (a promise callback rejects its promise with it, and
    without a callback nothing is reported); [isLoaded] stays false, the
    buffer is the one the asset had, no instance is touched, and the queue
    is as before the preload.  Invoking the preload again queues the same
    request as the first time. *)
Theorem C7_decode_failure (w : World) (callback : option LoadedCallback)
    (bytes : ArrayBuffer) :
  is_Some (_context (sound w)) ->
  isLoaded (sound w) = false ->
  (if truthy_opt truthy_string (src (sound w)) then True
   else srcBuffer (sound w) = Some bytes) ->
  let n := length (pending w) in
  let w1 := exec (_beginPreload callback) w in
  let w2 :=
    if truthy_opt truthy_string (src (sound w))
    then exec (answer n (if useXHR (sound w) then XhrLoaded bytes
                         else ReadFileData bytes)) w1
    else w1 in
  let w3 := exec (answer n DecodeFailed) w2 in
  pending w2 = pending w ++ [DecodeRequest bytes callback] /\
  promises w2 = promises w /\
  result (answer n DecodeFailed) w2 = Ok tt /\
  isLoaded (sound w3) = false /\
  result get_buffer w3 = result get_buffer w /\
  sound w3 = sound w2 /\ heap w3 = heap w /\
  pending w3 = pending w /\
  match callback with
  | None => log w3 = log w2 /\ promises w3 = promises w
  | Some (UserLoaded f) =>
      log w3 = log w2 ++ [LoadedCalled f (Some unable_to_decode) false None] /\
      promises w3 = promises w
  | Some (PlayLoaded p _) =>
      log w3 = log w2 /\
      (promises w !! p = Some PromisePending ->
       promises w3 !! p = Some (Rejected unable_to_decode))
  end /\
  pending (exec (_beginPreload callback) w3) = pending w1.
Proof.
  intros [c Hc] Hld Hsrc. cbn zeta.
  set (w1 := exec (_beginPreload callback) w).
  set (w2 := if truthy_opt truthy_string (src (sound w)) then _ else w1).
  assert (Hw2 : pending w2 = pending w ++ [DecodeRequest bytes callback] /\
    promises w2 = promises w /\ heap w2 = heap w /\
    isLoaded (sound w2) = false /\ _source (sound w2) = _source (sound w) /\
    _context (sound w2) = _context (sound w) /\
    src (sound w2) = src (sound w) /\ useXHR (sound w2) = useXHR (sound w) /\
    (if truthy_opt truthy_string (src (sound w)) then True
     else srcBuffer (sound w2) = Some bytes) /\
    pending w1
    = pending w ++
        [if truthy_opt truthy_string (src (sound w))
         then (if useXHR (sound w) then XhrRequest else ReadFileRequest)
                (default "null" (src (sound w))) callback
         else DecodeRequest bytes callback]).
  { unfold w2, w1, exec, _beginPreload. erewrite bind_ok by reflexivity.
    destruct (truthy_opt truthy_string (src (sound w))) eqn:Ht.
    - destruct (useXHR (sound w)) eqn:Hx.
      + unfold _loadUrl, enqueue. unfold_monad. cbn.
        unfold answer. cbn. rewrite list_lookup_middle by done. cbn.
        unfold xhr_onload, _decode, Ctx_decode, enqueue. unfold_monad. cbn.
        rewrite Hc. cbn. by rewrite delete_last.
      + unfold _loadPath, enqueue. unfold_monad. cbn.
        unfold answer. cbn. rewrite list_lookup_middle by done. cbn.
        unfold readFile_callback, _decode, Ctx_decode, enqueue.
        unfold_monad. cbn. rewrite Hc. cbn. by rewrite delete_last.
    - rewrite Hsrc. unfold _decode, Ctx_decode, enqueue. unfold_monad. cbn.
      by rewrite Hc. }
  clearbody w2.
  destruct Hw2 as (Hq & Hpr & Hh & Hl2 & Hb2 & Hc2 & Hs2 & Hx2 & Hsb2 & Hq1).
  assert (Hreq : pending w2 !! length (pending w)
                 = Some (DecodeRequest bytes callback)).
  { rewrite Hq. by apply list_lookup_middle. }
  destruct (decode_failure_answer w2 _ bytes callback Hreq)
    as (Hres & Hsound & Hheap & Hpending & Hcb).
  set (w3 := exec (answer (length (pending w)) DecodeFailed) w2) in *.
  clearbody w3.
  split; [done|]. split; [done|]. split; [done|].
  split; [by rewrite Hsound|]. split.
  { unfold result, get_buffer. unfold_monad. cbn. rewrite Hsound, Hb2.
    by destruct (_source (sound w)). }
  split; [done|]. split; [by rewrite Hheap|]. split.
  { by rewrite Hpending, Hq, delete_last. }
  split.
  { destruct callback as [[f|p l]|]; by rewrite Hpr in Hcb. }
  rewrite Hq1. unfold exec, _beginPreload. erewrite bind_ok by reflexivity.
  rewrite Hsound, Hs2, Hx2.
  destruct (truthy_opt truthy_string (src (sound w))) eqn:Ht.
  - destruct (useXHR (sound w)).
    + unfold _loadUrl, enqueue. unfold_monad. cbn.
      by rewrite Hsound, Hs2, Hpending, Hq, delete_last.
    + unfold _loadPath, enqueue. unfold_monad. cbn.
      by rewrite Hsound, Hs2, Hpending, Hq, delete_last.
  - rewrite Hsb2. unfold _decode, Ctx_decode, enqueue. unfold_monad. cbn.
    rewrite Hsound, Hc2, Hc. cbn. by rewrite Hpending, Hq, delete_last.
Qed.

Lemma C7_decode_failure_witness :
  let w := world_of (SourceArrayBuffer some_bytes) in
  let w1 := exec (_beginPreload (Some (UserLoaded 3))) w in
  let w3 := exec (answer 0 DecodeFailed) w1 in
  pending w1 = [DecodeRequest some_bytes (Some (UserLoaded 3))] /\
  isLoaded (sound w3) = false /\
  log w3 = [DecodeAudioData some_bytes;
            LoadedCalled 3 (Some unable_to_decode) false None].
Proof.
  cbv zeta.
  destruct (C7_decode_failure (world_of (SourceArrayBuffer some_bytes))
              (Some (UserLoaded 3)) some_bytes)
    as (Hpending & _ & _ & Hloaded & _ & _ & _ & _ & [Hlog _] & _).
  - eexists. reflexivity.
  - reflexivity.
  - reflexivity.
  - split; [exact Hpending|]. split; [exact Hloaded|exact Hlog].
Defined.

(** ** C8: a sprite name that is taken *)

(** C8 fails: the call does not fail, and the sprite is replaced.  With the
    sprite [x = {start: 1, end: 2}] in the table, [addSprites("x", {start:
    3, end: 4})] returns the new sprite as on a free name, and [x] then is
    the new sprite: the one registered before is gone. *)
Lemma C8_duplicate_sprite_is_replaced :
  let data :=
    {| data_start := 3%float; data_end := 4%float; data_speed := None |} in
  let w' := exec (addSprite "x" data) sprite_world in
  default ∅ (_sprites (sound sprite_world)) !! "x"
  = Some (new_SoundSprite sprite_x) /\
  result (addSprite "x" data) sprite_world = Ok (new_SoundSprite data) /\
  default ∅ (_sprites (sound w')) !! "x" = Some (new_SoundSprite data) /\
  default ∅ (_sprites (sound w')) !! "x"
  <> default ∅ (_sprites (sound sprite_world)) !! "x".
Proof.
  cbv zeta. split; [reflexivity|]. split; [reflexivity|].
  split; [reflexivity|]. vm_compute. intros [=].
Qed.

(** C8, as the code has it.  [addSprites(alias, data)] on a name that is
    already in the sprite table reports the usage error and goes on:
    [console.assert] logs "Alias <alias> is already taken", the call does
    not throw and returns the new sprite, and the new sprite takes the
    place of the one registered before. *)
Theorem C8_duplicate_sprite_is_reported (alias : string)
    (data : SoundSpriteData) (w : World)
    (sprites : gmap string SoundSprite) (previous : SoundSprite) :
  _sprites (sound w) = Some sprites ->
  sprites !! alias = Some previous ->
  let w' := exec (addSprite alias data) w in
  log w' = log w ++ [ConsoleAssert ("Alias " +:+ alias +:+ " is already taken")]
  /\ result (addSprite alias data) w = Ok (new_SoundSprite data)
  /\ _sprites (sound w')
     = Some (<[alias := new_SoundSprite data]> sprites).
Proof.
  intros Hs Hp. unfold addSprite, console_assert. unfold_monad. cbn.
  rewrite Hs. cbn. rewrite (member_stored _ _ _ Hp). cbn. done.
Qed.

Lemma C8_duplicate_sprite_is_reported_witness :
  log (exec (addSprite "x" sprite_x) sprite_world)
  = log sprite_world ++ [ConsoleAssert "Alias x is already taken"].
Proof.
  destruct (C8_duplicate_sprite_is_reported "x" sprite_x sprite_world
              {["x" := new_SoundSprite sprite_x]} (new_SoundSprite sprite_x))
    as (Hlog & _).
  - reflexivity.
  - reflexivity.
  - exact Hlog.
Defined.

(** ** C9: playing a sprite *)

(** C9 fails where the deprecated [offset] is passed.  With the sprite [x = {start: 1, end: 2}],
    [play({sprite: "x", offset: 5})] spawns an instance that starts at [5],
    not at the start [1] of the sprite. *)
Lemma C9_offset_replaces_sprite_start :
  let o :=
    {| PlayOptions.start := None; PlayOptions.end_ := None;
       PlayOptions.speed := None; PlayOptions.loop := None;
       PlayOptions.fadeIn := None; PlayOptions.fadeOut := None;
       PlayOptions.sprite := Some "x"; PlayOptions.complete := None;
       PlayOptions.loaded := None; PlayOptions.offset := Some 5%float |} in
  let w' := exec (play (PlayObject o) None) sprite_world in
  _sprites (sound sprite_world) = Some {["x" := new_SoundSprite sprite_x]} /\
  result (play (PlayObject o) None) sprite_world = Ok (Instance 0) /\
  arg_start <$> played_with w' 0 = Some (Some 5%float) /\
  arg_start <$> played_with w' 0 <> Some (Some (data_start sprite_x)).
Proof.
  cbv zeta. split; [reflexivity|]. split; [reflexivity|].
  split; [reflexivity|]. vm_compute. intros [=].
Qed.

(** C9, as the code has it.  On a loaded asset, [play] with options that name a sprite
    of the table by a non-empty name spawns an instance whose end and speed
    are the end and the speed of the sprite, whatever [end] and [speed] the
    options carried, and whose start is the start of the sprite unless the
    options carry a deprecated [offset] that is truthy, which then is the
    start. *)
Theorem C9_sprite_window (o : PlayOptions.t) (complete : option fn)
    (w : World)
    (alias : string) (sprites : gmap string SoundSprite) (sp : SoundSprite) :
  well_formed w -> isLoaded (sound w) = true ->
  PlayOptions.sprite o = Some alias -> truthy_string alias = true ->
  _sprites (sound w) = Some sprites -> sprites !! alias = Some sp ->
  let r := length (heap w) in
  let w' := exec (play (PlayObject o) complete) w in
  result (play (PlayObject o) complete) w = Ok (Instance r) /\
  r ∈ active w' /\
  exists args, played_with w' r = Some args /\
    arg_end args = Some (sprite_end sp) /\
    arg_speed args = sprite_speed sp /\
    arg_start args =
      if truthy_opt truthy_number (PlayOptions.offset o)
      then PlayOptions.offset o else Some (sprite_start sp).
Proof.
  intros (l & Hl & Hnd & Hlive) Hld Ho Ha Hs Hsp. cbn zeta.
  pose proof (well_formed_valid _ _ Hlive) as Hv.
  unfold exec, result.
  erewrite play_loaded_ok; [|done|done|done|]; last first.
  { eapply (play_sprite_named (play_defaults o)); cbn; eauto. }
  cbn [fst snd]. split; [done|]. split.
  - unfold active, played. cbn. apply elem_of_app. right. by left.
  - unfold played_with, played. cbn.
    rewrite lookup_app_r; last first.
    { destruct (singleInstance (sound w)); by rewrite ?length_foldr_alter. }
    replace (length (heap w) - _) with 0; last first.
    { destruct (singleInstance (sound w)); rewrite ?length_foldr_alter; lia. }
    cbn. eexists. split; [done|]. cbn. unfold play_offset. cbn.
    by destruct (truthy_opt truthy_number (PlayOptions.offset o)).
Qed.

Lemma C9_sprite_window_witness :
  let o :=
    {| PlayOptions.start := Some 7%float; PlayOptions.end_ := Some 9%float;
       PlayOptions.speed := Some 3%float; PlayOptions.loop := None;
       PlayOptions.fadeIn := None; PlayOptions.fadeOut := None;
       PlayOptions.sprite := Some "x"; PlayOptions.complete := None;
       PlayOptions.loaded := None; PlayOptions.offset := None |} in
  result (play (PlayObject o) None) sprite_world = Ok (Instance 0) /\
  exists args,
    played_with (exec (play (PlayObject o) None) sprite_world) 0 = Some args /\
    arg_start args = Some 1%float /\ arg_end args = Some 2%float /\
    arg_speed args = None.
Proof.
  cbv zeta.
  match goal with |- result (play (PlayObject ?o) None) _ = _ /\ _ =>
    destruct (C9_sprite_window o None sprite_world "x"
                {["x" := new_SoundSprite sprite_x]} (new_SoundSprite sprite_x))
      as (Hres & _ & args & Hargs & Hend & Hspeed & Hstart)
  end.
  - exists []. split; [reflexivity|]. split; constructor.
  - reflexivity.
  - reflexivity.
  - reflexivity.
  - reflexivity.
  - reflexivity.
  - split; [exact Hres|]. exists args. repeat split; assumption.
Defined.

(** ** C10: autoPlay forces preload *)

(** C10.  After [new Sound(context, options)] the field [preload] is
    [options.preload || options.autoPlay], absent options counting as
    false.  With [autoPlay: true] it is true, and the constructor ends with
    the call [_beginPreload(options.loaded)]: a request for [src] (by
    XMLHttpRequest or [fs.readFile]) or, without [src], a decode of
    [srcBuffer] is outstanding when the constructor returns. *)
Theorem C10_autoPlay_forces_preload (source : Source) (w : World) :
  let o := constructor_options source in
  let callback := UserLoaded <$> Options.loaded o in
  let w' := exec (new_Sound source) w in
  preload (sound w')
    = default false (Options.preload o) || default false (Options.autoPlay o)
  /\ (Options.autoPlay o = Some true ->
      preload (sound w') = true /\
      new_Sound source w
        = (constructor_fields source ;; _beginPreload callback) w /\
      if truthy_opt truthy_string (Options.src o) then
        pending w' =
          pending w ++
            [(if default true (Options.useXHR o)
              then XhrRequest else ReadFileRequest)
               (default "null" (Options.src o)) callback]
      else
        match Options.srcBuffer o with
        | Some bytes => pending w' = pending w ++ [DecodeRequest bytes callback]
        | None => pending w' = pending w
        end).
Proof.
  cbn zeta.
  destruct (constructor_fields_ok source w)
    as (w1 & Hrun & Hpre & Hsrc & Hbuf & Hxhr & Hctx & Hpend).
  set (callback := UserLoaded <$> Options.loaded (constructor_options source)).
  destruct (_beginPreload_frame callback w1) as (res & w2 & Hbegin & Hs2 & _).
  assert (Hnew : new_Sound source w
                 = when (preload (sound w1)) (_beginPreload callback) w1).
  { unfold new_Sound. erewrite bind_ok by exact Hrun.
    by erewrite bind_ok by reflexivity. }
  split.
  - unfold exec. rewrite Hnew.
    destruct (preload (sound w1)) eqn:Hp; cbn [when].
    + rewrite Hbegin. cbn. by rewrite Hs2, Hp.
    + cbn. by rewrite Hp.
  - intros Hauto. rewrite Hauto, orb_true_r in Hpre.
    unfold exec. rewrite Hnew, Hpre. cbn [when].
    split; [by rewrite Hbegin; cbn; rewrite Hs2|].
    split; [by erewrite bind_ok by exact Hrun|].
    unfold _beginPreload. erewrite bind_ok by reflexivity.
    rewrite Hsrc, Hbuf, Hxhr.
    destruct (truthy_opt truthy_string (Options.src (constructor_options source))).
    { destruct (default true (Options.useXHR (constructor_options source)));
        unfold _loadUrl, _loadPath, enqueue; unfold_monad; cbn;
        by rewrite Hsrc, Hpend. }
    destruct (Options.srcBuffer (constructor_options source)) as [bytes|].
    { unfold _decode, Ctx_decode, enqueue. unfold_monad. cbn.
      rewrite Hctx. cbn. by rewrite Hpend. }
    destruct callback as [cb|].
    + destruct (call_loaded_frame cb (Some (Error must_be_set)) false None w1)
        as (w3 & -> & _ & _ & Hp3). cbn. by rewrite Hp3.
    + cbn. done.
Qed.

Lemma C10_autoPlay_forces_preload_witness :
  let source :=
    SourceOptions
      {| Options.autoPlay := Some true; Options.singleInstance := None;
         Options.volume := None; Options.speed := None;
         Options.complete := None; Options.loaded := None;
         Options.preload := Some false; Options.loop := None;
         Options.src := None; Options.srcBuffer := Some some_bytes;
         Options.useXHR := None; Options.sprites := None |} in
  preload (sound (world_of source)) = true /\
  pending (world_of source) = [DecodeRequest some_bytes None].
Proof.
  cbv zeta.
  match goal with |- preload (sound (world_of ?source)) = _ /\ _ =>
    destruct (C10_autoPlay_forces_preload source (empty_world false))
      as (_ & H)
  end.
  destruct H as (Hpre & _ & Hpending); [reflexivity|].
  split; [exact Hpre|exact Hpending].
Defined.

(** * Further properties of the code *)

(** ** The example worlds, continued *)

Lemma loaded_world_well_formed : well_formed loaded_world.
Proof. exists []. split; [reflexivity|]. split; constructor. Qed.

Lemma playing_world_well_formed : well_formed playing_world.
Proof.
  exists [0; 1]. split; [reflexivity|]. split.
  - apply NoDup_cons. split; [|apply NoDup_singleton].
    intros Hin. apply list_elem_of_singleton in Hin. discriminate.
  - repeat constructor.
Qed.

Lemma preloading_world_well_formed : well_formed preloading_world.
Proof. exists []. split; [reflexivity|]. split; constructor. Qed.

Lemma some_order_enumerates : enumerates some_order.
Proof.
  intros m. split; [apply NoDup_fst_map_to_list|].
  intros name. unfold some_order. rewrite list_elem_of_fmap. split.
  - intros ([k v] & -> & Hin). apply elem_of_map_to_list in Hin. eauto.
  - intros [v Hv]. exists (name, v). split; [done|].
    by apply elem_of_map_to_list.
Qed.

(** ** X1: layered playback *)

Lemma play_layered_ok call w :
  well_formed w -> isLoaded (sound w) = true ->
  singleInstance (sound w) = false -> sprite_known w call ->
  exists w', play call.1 call.2 w = (Ok (Instance (length (heap w))), w') /\
    well_formed w' /\ isLoaded (sound w') = true /\
    singleInstance (sound w') = false /\
    _sprites (sound w') = _sprites (sound w) /\
    active w' = active w ++ [length (heap w)] /\
    length (heap w') = S (length (heap w)) /\
    isPlaying (sound w') = true /\
    (forall r, r < length (heap w) -> heap w' !! r = heap w !! r).
Proof.
  intros Hwf Hld Hsi Hk. pose proof Hwf as (l & Hl & Hnd & Hlive).
  destruct (play_sprite_known w call Hk) as [o Ho].
  eexists. split; [eapply play_loaded_ok; try done; by rewrite Hsi|].
  split; [by apply played_invariants|].
  unfold played, active. cbn zeta. rewrite Hsi, Hl. cbn.
  rewrite length_app. cbn.
  repeat split; try done; try lia.
  intros r Hr. by apply lookup_app_l.
Qed.

(** X1.  On a loaded asset without [singleInstance], every [play] call of a
    run adds one instance: the instance list grows by the fresh references
    in call order, nothing that was active is removed, the asset stays
    well formed, and [isPlaying] is true after the first call. *)
Theorem play_layers_instances (w : World)
    (calls : list (PlaySource * option fn)) :
  well_formed w -> isLoaded (sound w) = true ->
  singleInstance (sound w) = false ->
  Forall (sprite_known w) calls ->
  let w' := exec (play_each calls) w in
  well_formed w' /\
  active w' = active w ++ seq (length (heap w)) (length calls) /\
  length (heap w') = length (heap w) + length calls /\
  (calls <> [] -> isPlaying (sound w') = true).
Proof.
  revert w. induction calls as [|c rest IH]; intros w Hwf Hld Hsi Hk; cbn zeta.
  - cbn. rewrite app_nil_r. repeat split; try done; lia.
  - rewrite Forall_cons in Hk. destruct Hk as [Hc Hk].
    destruct (play_layered_ok c w Hwf Hld Hsi Hc)
      as (w1 & Hrun & Hwf1 & Hld1 & Hsi1 & Hsp & Hact & Hlen & Hplay & _).
    rewrite (exec_play_each_cons _ _ _ _ _ Hrun).
    destruct (IH w1) as (Hwf' & Hact' & Hlen' & Hplay'); try done.
    { eapply Forall_impl; [exact Hk|]. intros x. by apply sprite_known_transfer. }
    split; [done|]. split; [|split].
    + rewrite Hact', Hact, Hlen. cbn. by rewrite <- app_assoc.
    + rewrite Hlen', Hlen. cbn. lia.
    + intros _. destruct rest as [|c' rest']; [exact Hplay|].
      by apply Hplay'.
Qed.

Lemma play_layers_instances_witness :
  active (exec (play_each [(PlayUndefined, None); (PlayUndefined, None);
                           (PlayUndefined, None); (PlayUndefined, None)])
            loaded_world)
  = [0; 1; 2; 3].
Proof.
  destruct (play_layers_instances loaded_world
              [(PlayUndefined, None); (PlayUndefined, None);
               (PlayUndefined, None); (PlayUndefined, None)])
    as (_ & H & _).
  - apply loaded_world_well_formed.
  - reflexivity.
  - reflexivity.
  - repeat constructor; apply sprite_known_undefined.
  - exact H.
Defined.

(** ** X2: stop *)

Lemma stop_loop_log n : forall w l,
  _instances (sound w) = Some l -> length l = n -> NoDup l ->
  Forall (fun x => live <$> heap w !! x = Some true) l ->
  log (for_reverse n (fun i => r ← instance_at i; instance_stop r) w).2
  = log w.
Proof.
  induction n as [|n IH]; intros w l Hl Hn Hnd Hlive; [done|].
  destruct l as [|r l0 _] using rev_ind; [done|].
  rewrite length_app in Hn. cbn in Hn.
  apply NoDup_app in Hnd as (Hnd0 & Hdisj & _).
  assert (Hr0 : r ∉ l0).
  { intros Hin. apply (Hdisj r Hin). by left. }
  apply Forall_app in Hlive as [Hlive0 Hr]. rewrite Forall_singleton in Hr.
  apply live_lookup in Hr as (i & Hi & Hli).
  apply live_not_terminal in Hli as [Hterm Hon].
  cbn [for_reverse].
  assert (Hat : (l0 ++ [r]) !! n = Some r).
  { rewrite lookup_app_r by lia. by replace (n - length l0) with 0 by lia. }
  erewrite bind_ok; last first.
  { erewrite bind_ok; [|by eapply instance_at_ok].
    erewrite instance_stop_ok by done. by rewrite Hterm, Hon. }
  erewrite (IH _ l0); cbn; try done; try lia.
  - by rewrite remove_first_last.
  - apply Forall_forall. intros x Hx.
    rewrite list_lookup_alter_ne by (intros ->; done).
    rewrite Forall_forall in Hlive0. by apply Hlive0.
Qed.

(** X2.  [stop()] on a playable, well-formed asset returns normally, empties
    the instance list and sets [isPlaying] to false; every instance that
    was active ends up destroyed, all other instance objects are untouched,
    and no completion callback is called. *)
Theorem stop_reaps_every_instance (w : World) :
  well_formed w -> result isPlayable w = Ok true ->
  let w' := exec stop w in
  result stop w = Ok tt /\
  active w' = [] /\ isPlaying (sound w') = false /\
  (forall r, r ∈ active w -> inst_state <$> heap w' !! r = Some Destroyed) /\
  (forall r, r ∉ active w -> heap w' !! r = heap w !! r) /\
  log w' = log w.
Proof.
  intros (l & Hl & Hnd & Hlive) Hp. cbn zeta.
  assert (Hplayable : isPlayable w = (Ok true, w)).
  { destruct (isPlayable_ok w) as [b Hb]. unfold result in Hp.
    rewrite Hb in Hp. cbn in Hp. by injection Hp as ->. }
  set (w0 := with_sound (set_isPlaying false (sound w)) w).
  destruct (stop_loop (length l) w0 l)
    as (w' & Hrun & Hinst & Hplay & _ & Hdead & Hframe); [done..|].
  pose proof (stop_loop_log (length l) w0 l Hl eq_refl Hnd Hlive) as Hlog.
  assert (Hstop : stop w = (Ok tt, w')).
  { unfold stop. erewrite bind_ok by exact Hplayable. cbn [negb].
    erewrite bind_ok by reflexivity.
    erewrite bind_ok by (by apply instances_ok). exact Hrun. }
  rewrite Hrun in Hlog. unfold exec, result, active. rewrite Hstop, Hl.
  cbn [fst snd]. rewrite Hinst. cbn. repeat split; try done.
  rewrite Hplay. by destruct (length l).
Qed.

Lemma stop_reaps_every_instance_witness :
  active (exec stop playing_world) = [] /\
  isPlaying (sound (exec stop playing_world)) = false /\
  log (exec stop playing_world) = log playing_world.
Proof.
  destruct (stop_reaps_every_instance playing_world)
    as (_ & Hactive & Hplaying & _ & _ & Hlog).
  - apply playing_world_well_formed.
  - reflexivity.
  - split; [exact Hactive|]. split; [exact Hplaying|exact Hlog].
Defined.

(** ** X3: stopping one instance *)

Lemma remove_first_length r (l : list nat) :
  r ∈ l -> S (length (remove_first r l)) = length l.
Proof.
  induction l as [|a l IH]; cbn; [by intros ?%elem_of_nil|].
  case_decide; [done|]. rewrite elem_of_cons. intros [->|Hr]; [done|].
  cbn. by rewrite IH.
Qed.

(** X3.  Stopping one active instance takes exactly that instance out of
    the list and destroys it: the other instances keep their order and
    their objects, [isPlaying] says whether any is left, the asset stays
    well formed, and no completion callback is called. *)
Theorem instance_stop_reaps_one (w : World) (r : ref) :
  well_formed w -> r ∈ active w ->
  let w' := exec (instance_stop r) w in
  result (instance_stop r) w = Ok tt /\
  well_formed w' /\
  active w' = remove_first r (active w) /\
  (r ∉ active w') /\
  S (length (active w')) = length (active w) /\
  isPlaying (sound w') = bool_decide (active w' <> []) /\
  inst_state <$> heap w' !! r = Some Destroyed /\
  (forall x, x <> r -> heap w' !! x = heap w !! x) /\
  log w' = log w.
Proof.
  intros Hwf Hr. pose proof Hwf as (l & Hl & Hnd & Hlive). cbn zeta.
  unfold active in Hr. rewrite Hl in Hr. cbn in Hr.
  rewrite Forall_forall in Hlive.
  destruct (live_lookup _ _ (Hlive r Hr)) as (i & Hi & Hli).
  apply live_not_terminal in Hli as [Hterm Hon].
  pose proof (instance_stop_ok r i l w Hl Hi) as Hrun.
  rewrite Hterm, Hon in Hrun.
  destruct (reap_invariants w
    (with_heap (alter destroyed r (heap w))
       (with_sound (reaped r l (sound w)) w)) r l) as [Hwf' Hinv'];
    try done.
  { by apply Forall_forall. }
  { intros x Hx. cbn. by apply list_lookup_alter_ne. }
  unfold exec, result. rewrite Hrun. cbn [fst snd].
  split; [done|]. split; [done|].
  unfold active in *. rewrite Hl. cbn.
  split; [done|]. split; [by apply remove_first_gone|].
  split; [by apply remove_first_length|].
  split; [exact Hinv'|]. split; [by rewrite list_lookup_alter_eq, Hi|].
  split; [|done]. intros x Hx. by apply list_lookup_alter_ne.
Qed.

Lemma instance_stop_reaps_one_witness :
  active (exec (instance_stop 0) playing_world) = [1] /\
  isPlaying (sound (exec (instance_stop 0) playing_world)) = true.
Proof.
  destruct (instance_stop_reaps_one playing_world 0)
    as (_ & _ & Hactive & _ & _ & Hplaying & _).
  - apply playing_world_well_formed.
  - apply (list_elem_of_here 0 [1]).
  - split; [exact Hactive|exact Hplaying].
Defined.

(** ** X4: pause and resume *)

Lemma foldr_alter_once {A} (f : A -> A) rs (h : list A) r :
  NoDup rs -> r ∈ rs -> foldr (alter f) h rs !! r = f <$> h !! r.
Proof.
  induction 1 as [|a rs Ha Hnd IH]; [by intros ?%elem_of_nil|].
  cbn. rewrite elem_of_cons. intros [->|Hr].
  - rewrite list_lookup_alter_eq. f_equal.
    clear IH. induction rs as [|b rs IH]; [done|]. cbn.
    rewrite not_elem_of_cons in Ha. destruct Ha as [Hab Ha].
    rewrite list_lookup_alter_ne by done.
    apply IH; [done|]. by inversion Hnd.
  - rewrite list_lookup_alter_ne by (intros ->; done). by apply IH.
Qed.

Lemma foldr_alter_outside {A} (f : A -> A) rs (h : list A) r :
  r ∉ rs -> foldr (alter f) h rs !! r = h !! r.
Proof.
  induction rs as [|a rs IH]; cbn; [done|]. rewrite not_elem_of_cons.
  intros [Hne Hn]. rewrite list_lookup_alter_ne by done. auto.
Qed.

Lemma live_state i :
  live i = true -> inst_state i = Playing \/ inst_state i = Paused.
Proof. unfold live. destruct (inst_state i); auto; done. Qed.

(** X4.  [pause()] then [resume()] on a well-formed asset both return
    normally and keep the instance list: after [pause] every active
    instance is paused and [isPlaying] is false; after [resume] every
    active instance is playing again, [isPlaying] says whether the list is
    non-empty, and the other instance objects were never touched. *)
Theorem pause_and_resume_reach_every_instance (w : World) :
  well_formed w ->
  let w1 := exec pause w in
  let w2 := exec resume w1 in
  result pause w = Ok tt /\ result resume w1 = Ok tt /\
  active w1 = active w /\ active w2 = active w /\
  (forall r, r ∈ active w -> inst_state <$> heap w1 !! r = Some Paused) /\
  (forall r, r ∈ active w -> inst_state <$> heap w2 !! r = Some Playing) /\
  (forall r, r ∉ active w -> heap w2 !! r = heap w !! r) /\
  isPlaying (sound w1) = false /\
  isPlaying (sound w2) = bool_decide (active w <> []).
Proof.
  intros Hwf. pose proof Hwf as (l & Hl & Hnd & Hlive). cbn zeta.
  pose proof (pause_ok w l Hl Hlive) as Hpause.
  set (w1 := with_sound (set_isPlaying false (sound w))
               (with_heap (foldr (alter (paused_as true)) (heap w) l) w))
    in Hpause.
  assert (Hlive1 : Forall (fun x => live <$> heap w1 !! x = Some true) l).
  { by apply paused_heap_live. }
  pose proof (resume_ok w1 l Hl Hlive1) as Hresume.
  unfold exec, result, active. rewrite Hpause. cbn [fst snd].
  rewrite Hresume. cbn [fst snd]. rewrite Hl. cbn.
  rewrite Forall_forall in Hlive.
  repeat split; try done; try (by rewrite Hl).
  - intros r Hr. rewrite foldr_alter_once by done.
    destruct (live_lookup _ _ (Hlive r Hr)) as (i & -> & Hli). cbn.
    unfold paused_as. destruct (live_state i Hli) as [Hs | Hs];
      rewrite Hs; cbn; rewrite ?Hs; done.
  - intros r Hr. rewrite !foldr_alter_once by done.
    destruct (live_lookup _ _ (Hlive r Hr)) as (i & -> & Hli). cbn.
    unfold paused_as. destruct (live_state i Hli) as [Hs | Hs];
      rewrite Hs; cbn; rewrite ?Hs; cbn; rewrite ?Hs; done.
  - intros r Hr. by rewrite !foldr_alter_outside.
  - destruct l; cbn; [|by rewrite !bool_decide_eq_true_2 by (done || lia)].
    by rewrite !bool_decide_eq_false_2 by (intros ?; done || lia).
Qed.

Lemma pause_and_resume_reach_every_instance_witness :
  active (exec pause playing_world) = [0; 1] /\
  isPlaying (sound (exec pause playing_world)) = false /\
  isPlaying (sound (exec resume (exec pause playing_world))) = true.
Proof.
  destruct (pause_and_resume_reach_every_instance playing_world)
    as (_ & _ & Hactive & _ & _ & _ & _ & Hpaused & Hresumed).
  - apply playing_world_well_formed.
  - split; [exact Hactive|]. split; [exact Hpaused|exact Hresumed].
Defined.

(** ** X5: the completion callback *)

Lemma play_sprite_keeps o0 o w :
  play_sprite o0 w = (Ok o, w) ->
  PlayOptions.complete o = PlayOptions.complete o0 /\
  PlayOptions.loop o = PlayOptions.loop o0 /\
  PlayOptions.fadeIn o = PlayOptions.fadeIn o0 /\
  PlayOptions.fadeOut o = PlayOptions.fadeOut o0.
Proof.
  unfold play_sprite.
  destruct (truthy_opt truthy_string (PlayOptions.sprite o0)) eqn:Ht.
  - unfold console_assert. unfold_monad. cbn.
    destruct (_sprites (sound w)); cbn; [|done].
    destruct (DEBUG w); cbn.
    + case_bool_decide as Hd; cbn.
      * destruct Hd as [[sp|] Hsp]; rewrite Hsp; cbn; by intros [= <- ].
      * destruct (member _ _) as [[sp|]|]; cbn; [| |done]; by intros [= <- ].
    + destruct (member _ _) as [[sp|]|]; cbn; [| |done]; by intros [= <- ].
  - cbn. by intros [= <-].
Qed.

(** X5.  The [complete] callback given to [play] on a loaded asset is not
    called by [play] itself; it is called once when the instance reaches
    its natural end and not at all when the instance is stopped.  Either
    way the instance leaves the list, and an end reported after that
    changes nothing. *)
Theorem complete_is_called_on_end_only (w : World)
    (call : PlaySource * option fn) :
  well_formed w -> isLoaded (sound w) = true -> sprite_known w call ->
  let complete := PlayOptions.complete (play_options call.1 call.2) in
  let r := length (heap w) in
  let w1 := exec (play call.1 call.2) w in
  let ended := exec (instance_ended r) w1 in
  let stopped := exec (instance_stop r) w1 in
  log w1 = log w /\
  log ended = log w ++ completion_log complete /\
  log stopped = log w /\
  (r ∉ active ended) /\ (r ∉ active stopped) /\
  exec (instance_ended r) ended = ended /\
  exec (instance_ended r) stopped = stopped.
Proof.
  intros Hwf Hld Hk. pose proof Hwf as (l & Hl & Hnd & Hlive). cbn zeta.
  pose proof (well_formed_valid _ _ Hlive) as Hv.
  destruct (play_sprite_known w call Hk) as [o Ho].
  destruct (play_sprite_keeps _ _ _ Ho) as (Hcomplete & _).
  pose proof (play_loaded_ok call.1 call.2 w l o Hld Hl (fun _ => Hv) Ho)
    as Hplay.
  set (w1 := played (play_offset o) l w) in *.
  destruct (played_invariants (play_offset o) l w Hl Hnd Hlive)
    as [(l1 & Hl1 & Hnd1 & Hlive1) _]. fold w1 in Hl1, Hlive1.
  assert (Hi : heap w1 !! length (heap w) = Some (spawned (play_offset o))).
  { unfold w1, played. cbn.
    rewrite lookup_app_r;
      destruct (singleInstance (sound w)); rewrite ?length_foldr_alter;
      try lia; by rewrite Nat.sub_diag. }
  assert (Hcomplete' : PlayOptions.complete (play_offset o)
                       = PlayOptions.complete (play_options call.1 call.2)).
  { transitivity (PlayOptions.complete o); [|exact Hcomplete].
    unfold play_offset.
    by destruct (truthy_opt truthy_number (PlayOptions.offset o)). }
  assert (Hlog1 : log w1 = log w) by reflexivity.
  clearbody w1.
  pose proof (instance_ended_ok _ _ l1 w1 Hl1 Hi) as Hend.
  pose proof (instance_stop_ok _ _ l1 w1 Hl1 Hi) as Hstop.
  cbn in Hend, Hstop. rewrite Hcomplete' in Hend.
  assert (Hdead : forall w2 : World,
    inst_state <$> heap w2 !! length (heap w) = Some Destroyed ->
    exec (instance_ended (length (heap w))) w2 = w2).
  { intros w2 Hd. unfold exec, instance_ended.
    destruct (heap w2 !! length (heap w)) as [i|] eqn:Hi2; [|done].
    erewrite bind_ok by (by apply deref_ok).
    cbn in Hd. injection Hd as ->. done. }
  unfold exec. rewrite Hplay. cbn [snd]. rewrite Hend, Hstop. cbn [snd].
  split; [done|]. split; [by rewrite Hlog1|]. split; [done|].
  unfold active. cbn.
  split; [by apply remove_first_gone|]. split; [by apply remove_first_gone|].
  split; apply Hdead; cbn; by rewrite list_lookup_alter_eq, Hi.
Qed.

Lemma complete_is_called_on_end_only_witness :
  log (exec (instance_ended 0) (exec (play (PlayFunction 7) None) loaded_world))
  = log loaded_world ++ [CompleteCalled 7] /\
  log (exec (instance_stop 0) (exec (play (PlayFunction 7) None) loaded_world))
  = log loaded_world.
Proof.
  destruct (complete_is_called_on_end_only loaded_world (PlayFunction 7, None))
    as (_ & Hended & Hstopped & _).
  - apply loaded_world_well_formed.
  - reflexivity.
  - intros Hfalse. discriminate Hfalse.
  - split; [exact Hended|exact Hstopped].
Defined.

(** ** X6: playing a sprite that is not there *)

(** X6.  On a table that stores nothing under [__proto__], [play] with a
    non-empty sprite name that the table neither stores nor inherits from
    [Object.prototype] throws a [TypeError] at [sprite.start]; in a DEBUG
    build the assertion "Alias <alias> is not available" is reported first.
    Nothing is started: the asset, the instances, the promises and the
    outstanding requests are as before, also when the asset is not loaded
    yet. *)
Theorem play_unknown_sprite_throws (source : PlaySource)
    (complete : option fn) (w : World) (alias : string)
    (sprites : gmap string SoundSprite) :
  PlayOptions.sprite (play_options source complete) = Some alias ->
  truthy_string alias = true ->
  _sprites (sound w) = Some sprites -> sprites !! "__proto__" = None ->
  sprites !! alias = None -> alias ∉ Object_prototype ->
  let w' := exec (play source complete) w in
  (exists e, result (play source complete) w = Throw (TypeError e)) /\
  sound w' = sound w /\ heap w' = heap w /\
  promises w' = promises w /\ pending w' = pending w /\
  log w' = log w ++
    (if DEBUG w then [ConsoleAssert ("Alias " +:+ alias +:+ " is not available")]
     else []).
Proof.
  intros Ho Ha Hs _ Hsp Hp.
  unfold exec, result, play, play_sprite, console_assert.
  cbn [play_defaults PlayOptions.sprite]. rewrite Ho. cbn [truthy_opt].
  rewrite Ha. unfold_monad. cbn. rewrite Hs. cbn.
  rewrite (member_absent _ _ Hsp Hp). cbn.
  destruct (DEBUG w); cbn.
  - split; [by eexists|done].
  - split; [by eexists|]. by rewrite app_nil_r.
Qed.

Lemma play_unknown_sprite_throws_witness :
  (exists e, result (play (PlayAlias "y") None) sprite_world
             = Throw (TypeError e)) /\
  sound (exec (play (PlayAlias "y") None) sprite_world) = sound sprite_world /\
  heap (exec (play (PlayAlias "y") None) sprite_world) = heap sprite_world.
Proof.
  destruct (play_unknown_sprite_throws (PlayAlias "y") None sprite_world "y"
              {["x" := new_SoundSprite sprite_x]})
    as (Hthrow & Hsound & Hheap & _).
  - reflexivity.
  - reflexivity.
  - reflexivity.
  - reflexivity.
  - reflexivity.
  - by apply (bool_decide_unpack _).
  - split; [exact Hthrow|]. split; [exact Hsound|exact Hheap].
Defined.

(** ** X7: a sprite added and then played *)



(** ** X8: stop while the asset is loading *)

Lemma isPlayable_false w :
  result isPlayable w = Ok false -> isPlayable w = (Ok false, w).
Proof.
  destruct (isPlayable_ok w) as [b Hb]. unfold result. rewrite Hb. cbn.
  by intros [= ->].
Qed.

Lemma decode_success_idle cb decoded w b :
  _source (sound w) = Some b -> autoPlay (sound w) = false ->
  decode_callback cb (inr decoded) w
  = match cb with
    | Some cb =>
        call_loaded cb None true None
          (with_sound (decoded_sound decoded b (sound w)) w)
    | None => (Ok tt, with_sound (decoded_sound decoded b (sound w)) w)
    end.
Proof.
  intros Hb Ha. unfold decode_callback.
  erewrite bind_ok by reflexivity.
  erewrite bind_ok; last first.
  { unfold set_buffer. unfold_monad. cbn. rewrite Hb. reflexivity. }
  erewrite bind_ok by reflexivity. cbn [sound with_sound].
  change (autoPlay (set__source _ _)) with (autoPlay (sound w)). rewrite Ha.
  erewrite bind_ok by reflexivity.
  by destruct w, cb.
Qed.

(** X8.  [stop()] on an asset that is not playable yet only withdraws the
    autoplay: [autoPlay] becomes false and the stored play options are
    dropped, while the outstanding requests and promises stay.  When the
    decode requested by an earlier [play] then succeeds, the asset becomes
    loaded but nothing is played: the promise of that [play] resolves
    without an instance, after the [loaded] callback, if any, was called
    without one. *)
Theorem stop_before_load_cancels_autoplay (w : World) (n : nat) (p : pid)
    (bytes : ArrayBuffer) (loaded : option fn) (decoded : AudioBuffer) :
  result isPlayable w = Ok false ->
  is_Some (_source (sound w)) ->
  pending w !! n = Some (DecodeRequest bytes (Some (PlayLoaded p loaded))) ->
  promises w !! p = Some PromisePending ->
  let w1 := exec stop w in
  let w2 := exec (answer n (DecodeSucceeded decoded)) w1 in
  autoPlay (sound w1) = false /\ _autoPlayOptions (sound w1) = None /\
  pending w1 = pending w /\ promises w1 = promises w /\
  isLoaded (sound w2) = true /\
  _instances (sound w2) = _instances (sound w) /\ heap w2 = heap w /\
  isPlaying (sound w2) = isPlaying (sound w) /\
  promises w2 !! p = Some (Resolved None) /\
  log w2 = log w ++
    match loaded with
    | Some f => [LoadedCalled f None true None]
    | None => []
    end.
Proof.
  intros Hp [b Hb] Hreq Hprom. cbn zeta.
  assert (Hstop : stop w
    = (Ok tt, with_sound (set__autoPlayOptions None
                            (set_autoPlay false (sound w))) w)).
  { unfold stop. erewrite bind_ok by (by apply isPlayable_false).
    cbn [negb]. erewrite bind_ok by reflexivity. by destruct w. }
  replace (exec stop w) with (stop w).2 by done.
  rewrite Hstop. cbn [snd].
  set (w1 := with_sound _ w).
  do 4 (split; [done|]).
  unfold exec. erewrite answer_ok by (done || reflexivity).
  erewrite (decode_success_idle _ _ _ b) by done.
  edestruct (call_loaded_play p loaded None true None)
    as (w3 & Hrun & Hs3 & Hh3 & _ & Hp3); [|rewrite Hrun].
  { exact Hprom. }
  cbn [snd]. rewrite Hs3, Hh3. cbn.
  repeat split; try done.
  revert Hrun. cbn [call_loaded]. unfold resolve.
  destruct loaded as [f|].
  - erewrite bind_ok by reflexivity. rewrite settle_pending by done.
    by intros [= <-].
  - erewrite bind_ok by reflexivity. rewrite settle_pending by done.
    intros [= <-]. cbn. by rewrite app_nil_r.
Qed.

Lemma stop_before_load_cancels_autoplay_witness :
  autoPlay (sound (exec stop waiting_world)) = false /\
  heap (exec (answer 1 (DecodeSucceeded one_second)) (exec stop waiting_world))
  = [] /\
  promises (exec (answer 1 (DecodeSucceeded one_second))
              (exec stop waiting_world)) !! 0
  = Some (Resolved None).
Proof.
  destruct (stop_before_load_cancels_autoplay waiting_world 1 0 some_bytes
              None one_second)
    as (Hauto & _ & _ & _ & _ & _ & Hheap & _ & Hpromise & _).
  - reflexivity.
  - eexists. reflexivity.
  - reflexivity.
  - reflexivity.
  - split; [exact Hauto|]. split; [exact Hheap|exact Hpromise].
Defined.

(** ** X9: a successful decode *)

Lemma play_when_loaded_keeps source complete w :
  well_formed w -> isLoaded (sound w) = true ->
  exists res w', play source complete w = (res, w') /\
    isLoaded (sound w') = true /\ _source (sound w') = _source (sound w) /\
    srcBuffer (sound w') = srcBuffer (sound w) /\
    _volume (sound w') = _volume (sound w) /\
    pending w' = pending w /\ DEBUG w' = DEBUG w.
Proof.
  intros (l & Hl & Hnd & Hlive) Hld.
  pose proof (well_formed_valid _ _ Hlive) as Hv.
  destruct (play_sprite_frame
    (play_defaults (play_options source complete)) w)
    as [(o & Ho)|(e & lg & Ho)].
  - eexists _, _. split; [by eapply play_loaded_ok|]. done.
  - eexists _, _. split.
    + unfold play. by erewrite bind_throw by exact Ho.
    + done.
Qed.

Lemma get_duration_ok w b decoded :
  isLoaded (sound w) = true -> _source (sound w) = Some b ->
  buffer b = Some decoded ->
  get_duration w = (Ok (duration decoded), w).
Proof.
  intros Hld Hb Hd. unfold get_duration, isPlayable, console_assert.
  unfold_monad. cbn.
  destruct (DEBUG w); cbn; rewrite ?Hld, Hb; cbn; rewrite Hd; cbn;
    rewrite ?Hb; cbn; rewrite ?Hd; done.
Qed.

Lemma decode_success_sound w n bytes callback decoded b :
  well_formed w -> _source (sound w) = Some b ->
  pending w !! n = Some (DecodeRequest bytes callback) ->
  exists w', answer n (DecodeSucceeded decoded) w = (w'.1, w'.2) /\
    isLoaded (sound w'.2) = true /\
    _source (sound w'.2)
      = Some {| buffer := Some decoded; source_loop := source_loop b;
                playbackRate := playbackRate b |} /\
    srcBuffer (sound w'.2) = srcBuffer (sound w) /\
    _volume (sound w'.2) = _volume (sound w) /\
    pending w'.2 = delete n (pending w).
Proof.
  intros Hwf Hb Hreq.
  erewrite answer_ok by (done || reflexivity). unfold decode_callback.
  erewrite bind_ok by reflexivity.
  erewrite bind_ok; last first.
  { unfold set_buffer. unfold_monad. cbn. rewrite Hb. reflexivity. }
  erewrite bind_ok by reflexivity. cbn [sound with_sound].
  set (w2 := with_sound _ _).
  assert (Hwf2 : well_formed w2).
  { destruct Hwf as (l & Hl & Hnd & Hlive). exists l. by repeat split. }
  assert (Hcall : forall inst (w3 : World),
    isLoaded (sound w3) = true ->
    _source (sound w3) = _source (sound w2) ->
    srcBuffer (sound w3) = srcBuffer (sound w) ->
    _volume (sound w3) = _volume (sound w) ->
    pending w3 = delete n (pending w) ->
    exists w', match callback with
               | Some cb => call_loaded cb None true inst
               | None => mret tt
               end w3 = (w'.1, w'.2) /\
      isLoaded (sound w'.2) = true /\
      _source (sound w'.2) = _source (sound w2) /\
      srcBuffer (sound w'.2) = srcBuffer (sound w) /\
      _volume (sound w'.2) = _volume (sound w) /\
      pending w'.2 = delete n (pending w)).
  { intros inst w3 ? ? ? ? ?. destruct callback as [cb|].
    - destruct (call_loaded_frame cb None true inst w3)
        as (w4 & -> & Hs & _ & Hp).
      exists (Ok tt, w4). cbn. by rewrite Hs, Hp.
    - by exists (Ok tt, w3). }
  destruct (autoPlay _).
  - match goal with |- context [play ?src None] =>
      destruct (play_when_loaded_keeps src None w2 Hwf2 eq_refl)
        as (res & w3 & Hplay & ? & ? & ? & ? & ? & _)
    end.
    destruct res as [r|e].
    + erewrite bind_ok; last first.
      { erewrite bind_ok by exact Hplay. reflexivity. }
      by apply Hcall.
    + erewrite bind_throw; last first.
      { erewrite bind_throw by exact Hplay. reflexivity. }
      by exists (Throw e, w3).
  - erewrite bind_ok by reflexivity. by apply Hcall.
Qed.

(** X9.  When [decodeAudioData] succeeds on an outstanding decode request
    of a well-formed asset, the continuation of [_decode] leaves the asset
    loaded, holding the decoded buffer, playable and reporting the duration
    of that buffer: with or without a callback on the request, with or
    without autoplay, and also when the autoplaying [play] throws.  The
    request has left the queue and [srcBuffer] is as before.  A callback of
    the user is called in that state; what it then does to the asset is
    not the library's. *)
Theorem decode_success_makes_playable (w : World) (n : nat)
    (bytes : ArrayBuffer) (callback : option LoadedCallback)
    (decoded : AudioBuffer) :
  well_formed w -> is_Some (_source (sound w)) ->
  pending w !! n = Some (DecodeRequest bytes callback) ->
  let w' := exec (answer n (DecodeSucceeded decoded)) w in
  isLoaded (sound w') = true /\
  result get_buffer w' = Ok (Some decoded) /\
  result isPlayable w' = Ok true /\
  result get_duration w' = Ok (duration decoded) /\
  srcBuffer (sound w') = srcBuffer (sound w) /\
  pending w' = delete n (pending w).
Proof.
  intros Hwf [b Hb] Hreq. cbn zeta.
  destruct (decode_success_sound w n bytes callback decoded b Hwf Hb Hreq)
    as ([res w'] & Hrun & Hld & Hsrc & Hbuf & _ & Hpend).
  cbn [fst snd] in *.
  unfold exec, result. rewrite Hrun. cbn [fst snd].
  split; [done|]. split; [|split; [|split; [|done]]].
  - unfold get_buffer. unfold_monad. cbn. by rewrite Hsrc.
  - unfold isPlayable. unfold_monad. cbn. by rewrite Hld, Hsrc.
  - by erewrite get_duration_ok.
Qed.

Lemma decode_success_makes_playable_witness :
  let w' := exec (answer 0 (DecodeSucceeded one_second)) autoplay_world in
  autoPlay (sound autoplay_world) = true /\
  pending autoplay_world = [DecodeRequest some_bytes (Some (UserLoaded 3))] /\
  log w' = [DecodeAudioData some_bytes;
            LoadedCalled 3 None true (Some (Instance 0))] /\
  result isPlayable w' = Ok true /\
  result get_duration w' = Ok 1%float.
Proof.
  cbv zeta. split; [reflexivity|]. split; [reflexivity|].
  split; [reflexivity|].
  destruct (decode_success_makes_playable autoplay_world 0 some_bytes
              (Some (UserLoaded 3)) one_second)
    as (_ & _ & Hplayable & Hduration & _).
  - exists []. split; [reflexivity|]. split; constructor.
  - eexists. reflexivity.
  - reflexivity.
  - split; [exact Hplayable|exact Hduration].
Defined.

(** ** X10: duration *)

(** X10.  [get duration] never changes the asset.  It returns the duration
    of the buffer whenever the source stage holds one, loaded or not, and
    throws a [TypeError] when there is no source stage or no buffer; a
    DEBUG build first reports "Sound not yet playable, no duration" exactly
    when the asset is not playable. *)
Theorem duration_needs_a_buffer (w : World) :
  let playable := isLoaded (sound w)
                  && bool_decide (is_Some (_source (sound w) ≫= buffer)) in
  log (exec get_duration w)
  = log w ++
      (if DEBUG w && negb playable
       then [ConsoleAssert "Sound not yet playable, no duration"] else []) /\
  sound (exec get_duration w) = sound w /\
  match _source (sound w) ≫= buffer with
  | Some decoded => result get_duration w = Ok (duration decoded)
  | None => exists e, result get_duration w = Throw (TypeError e)
  end.
Proof.
  cbn zeta. unfold exec, result, get_duration, isPlayable, console_assert.
  unfold_monad.
  destruct (_source (sound w)) as [[[d|] lp rate]|] eqn:Hs,
    (DEBUG w) eqn:Hd, (isLoaded (sound w)) eqn:Hl; cbn;
    rewrite ?Hd, ?Hl, ?Hs; cbn; rewrite ?Hs; cbn;
    rewrite ?app_nil_r; repeat split; try done; by eexists.
Qed.

(** ** X11: settings made before the asset is loaded *)

(** X11.  Volume, loop and speed set on a well-formed asset while a decode
    is outstanding run normally and leave the instances alone; once the
    decode succeeds they read back as set, beside the decoded buffer: the
    buffer setter replaces the buffer only. *)
Theorem settings_survive_decoding (w : World) (n : nat)
    (bytes : ArrayBuffer) (callback : option LoadedCallback)
    (decoded : AudioBuffer) (volume speed : number) (loop : bool) :
  well_formed w ->
  is_Some (_nodes (sound w)) -> is_Some (_source (sound w)) ->
  pending w !! n = Some (DecodeRequest bytes callback) ->
  let w1 := exec (set_volume volume ;; set_loop loop ;; set_speed speed) w in
  let w2 := exec (answer n (DecodeSucceeded decoded)) w1 in
  result (set_volume volume ;; set_loop loop ;; set_speed speed) w = Ok tt /\
  heap w1 = heap w /\ active w1 = active w /\ pending w1 = pending w /\
  result get_buffer w1 = result get_buffer w /\
  result get_volume w2 = Ok volume /\
  result get_loop w2 = Ok loop /\
  result get_speed w2 = Ok speed /\
  result get_buffer w2 = Ok (Some decoded).
Proof.
  intros Hwf [nodes Hn] [b Hb] Hreq. cbn zeta.
  assert (Hset : (set_volume volume ;; set_loop loop ;; set_speed speed) w
    = (Ok tt,
       with_sound
         (set__source
            (Some {| buffer := buffer b; source_loop := loop;
                     playbackRate := speed |})
            (set__volume volume
               (set__nodes
                  (Some {| nodes_gain := volume;
                           nodes_filters := nodes_filters nodes |})
                  (sound w)))) w)).
  { unfold set_volume, set_loop, set_speed. unfold_monad. cbn.
    rewrite Hn. cbn. rewrite Hb. cbn. by destruct w. }
  unfold exec, result. rewrite Hset. cbn [fst snd].
  set (w1 := with_sound _ w).
  assert (Hwf1 : well_formed w1).
  { destruct Hwf as (l & Hl & Hnd & Hlive). exists l. by repeat split. }
  destruct (decode_success_sound w1 n bytes callback decoded _ Hwf1 eq_refl Hreq)
    as ([res w2] & Hrun & _ & Hsrc & _ & Hvol & _).
  rewrite Hrun. cbn [fst snd] in *.
  do 4 (split; [done|]).
  unfold get_volume, get_loop, get_speed, get_buffer. unfold_monad. cbn.
  by rewrite Hsrc, Hvol, Hb.
Qed.

Lemma settings_survive_decoding_witness :
  let w1 := exec (set_volume 0.5%float ;; set_loop true ;; set_speed 2%float)
              preloading_world in
  let w2 := exec (answer 0 (DecodeSucceeded one_second)) w1 in
  result get_volume w2 = Ok 0.5%float /\
  result get_loop w2 = Ok true /\
  result get_speed w2 = Ok 2%float.
Proof.
  cbv zeta.
  destruct (settings_survive_decoding preloading_world 0 some_bytes None
              one_second 0.5%float 2%float true)
    as (_ & _ & _ & _ & _ & Hvolume & Hloop & Hspeed & _).
  - apply preloading_world_well_formed.
  - eexists. reflexivity.
  - eexists. reflexivity.
  - reflexivity.
  - split; [exact Hvolume|]. split; [exact Hloop|exact Hspeed].
Defined.

(** ** X12: a file that cannot be read *)

(** X12.  When [fs.readFile] fails, the continuation of [_loadPath] returns
    normally, leaves the asset and the instances as they were and starts no
    decode.  A DEBUG build reports the error of the file system to
    [console.error]; the callback, if any, gets a new error "File not found
    <src>" and no sound, and a promise callback rejects its pending promise
    with that error. *)
Theorem read_failure_is_reported (w : World) (n : nat) (path : string)
    (callback : option LoadedCallback) (err : JsError) :
  pending w !! n = Some (ReadFileRequest path callback) ->
  let w' := exec (answer n (ReadFileFailed err)) w in
  let not_found :=
    Error ("File not found " +:+ default "null" (src (sound w))) in
  let reported :=
    if DEBUG w
    then [ConsoleError match err with Error m | TypeError m => m end]
    else [] in
  result (answer n (ReadFileFailed err)) w = Ok tt /\
  sound w' = sound w /\ heap w' = heap w /\
  pending w' = delete n (pending w) /\
  match callback with
  | None => log w' = log w ++ reported /\ promises w' = promises w
  | Some (UserLoaded f) =>
      log w' = log w ++ reported ++ [LoadedCalled f (Some not_found) false None]
      /\ promises w' = promises w
  | Some (PlayLoaded p _) =>
      log w' = log w ++ reported /\
      (promises w !! p = Some PromisePending ->
       promises w' !! p = Some (Rejected not_found))
  end.
Proof.
  intros Hreq. cbn zeta. unfold exec, result.
  erewrite answer_ok by (done || reflexivity).
  unfold readFile_callback, console_error, call_loaded, reject, settle.
  unfold_monad. cbn.
  destruct (DEBUG w), callback as [[f|p l]|]; cbn;
    rewrite ?app_nil_r, <- ?app_assoc; try (by repeat split).
  all: try (destruct (promises w !! p) as [[]|] eqn:Hp; cbn;
    repeat split; try done;
    intros _; apply list_lookup_insert_eq; by eapply lookup_lt_Some).
Qed.

Lemma read_failure_is_reported_witness :
  sound (exec (answer 0 (ReadFileFailed (Error "ENOENT"))) reading_world)
  = sound reading_world /\
  pending (exec (answer 0 (ReadFileFailed (Error "ENOENT"))) reading_world)
  = [] /\
  log (exec (answer 0 (ReadFileFailed (Error "ENOENT"))) reading_world)
  = [FsReadFile "a.mp3";
     LoadedCalled 3 (Some (Error "File not found a.mp3")) false None].
Proof.
  destruct (read_failure_is_reported reading_world 0 "a.mp3"
              (Some (UserLoaded 3)) (Error "ENOENT"))
    as (_ & Hsound & _ & Hpending & Hlog & _).
  - reflexivity.
  - split; [exact Hsound|]. split; [exact Hpending|exact Hlog].
Defined.

(** ** X13: loading from [src] *)

(** X13.  With a non-empty [src] and no autoplay, [_beginPreload] hands
    exactly one request for [src] to XMLHttpRequest, or to [fs.readFile]
    when [useXHR] is false, whether or not [srcBuffer] is set.  The answer
    is stored in [srcBuffer] and passed to [decodeAudioData] with the same
    callback, the asset still being unloaded; when the decode succeeds the
    asset is loaded with the decoded buffer, the queue is as before the
    load, no instance exists that was not there before, and the [loaded]
    callback has been called once, without error and without instance. *)
Theorem load_from_src (w : World) (url : string) (loaded : option fn)
    (bytes : ArrayBuffer) (decoded : AudioBuffer) :
  src (sound w) = Some url -> truthy_string url = true ->
  is_Some (_context (sound w)) -> is_Some (_source (sound w)) ->
  autoPlay (sound w) = false ->
  let callback := UserLoaded <$> loaded in
  let n := length (pending w) in
  let w1 := exec (_beginPreload callback) w in
  let w2 := exec (answer n (if useXHR (sound w) then XhrLoaded bytes
                            else ReadFileData bytes)) w1 in
  let w3 := exec (answer n (DecodeSucceeded decoded)) w2 in
  pending w1
  = pending w ++ [(if useXHR (sound w) then XhrRequest else ReadFileRequest)
                    url callback] /\
  isLoaded (sound w1) = isLoaded (sound w) /\
  pending w2 = pending w ++ [DecodeRequest bytes callback] /\
  srcBuffer (sound w2) = Some bytes /\
  isLoaded (sound w2) = isLoaded (sound w) /\
  pending w3 = pending w /\
  isLoaded (sound w3) = true /\
  result get_buffer w3 = Ok (Some decoded) /\
  srcBuffer (sound w3) = Some bytes /\
  heap w3 = heap w /\ _instances (sound w3) = _instances (sound w) /\
  log w3
  = log w ++
      [if useXHR (sound w) then XhrSend url else FsReadFile url;
       DecodeAudioData bytes] ++
      match loaded with
      | Some f => [LoadedCalled f None true None]
      | None => []
      end.
Proof.
  intros Hsrc Hurl [c Hc] [b Hb] Ha. cbn zeta.
  unfold exec, _beginPreload. erewrite bind_ok by reflexivity.
  rewrite Hsrc. cbn [truthy_opt]. rewrite Hurl.
  destruct (useXHR (sound w)) eqn:Hx.
  - unfold _loadUrl, enqueue. unfold_monad. cbn. rewrite Hsrc. cbn.
    unfold answer. cbn. rewrite list_lookup_middle by done. cbn.
    unfold xhr_onload, _decode, Ctx_decode, enqueue. unfold_monad. cbn.
    rewrite Hc. cbn. rewrite delete_last, list_lookup_middle by done. cbn.
    unfold decode_callback, set_buffer, call_loaded. unfold_monad. cbn.
    rewrite Hb. cbn. rewrite Ha. cbn. rewrite delete_last.
    destruct loaded as [f|]; cbn.
    + rewrite <- !app_assoc. cbn. unfold get_buffer, result.
      unfold_monad. cbn. done.
    + rewrite <- !app_assoc. cbn. unfold get_buffer, result.
      unfold_monad. cbn. done.
  - unfold _loadPath, enqueue. unfold_monad. cbn. rewrite Hsrc. cbn.
    unfold answer. cbn. rewrite list_lookup_middle by done. cbn.
    unfold readFile_callback, _decode, Ctx_decode, enqueue. unfold_monad. cbn.
    rewrite Hc. cbn. rewrite delete_last, list_lookup_middle by done. cbn.
    unfold decode_callback, set_buffer, call_loaded. unfold_monad. cbn.
    rewrite Hb. cbn. rewrite Ha. cbn. rewrite delete_last.
    destruct loaded as [f|]; cbn.
    + rewrite <- !app_assoc. cbn. unfold get_buffer, result.
      unfold_monad. cbn. done.
    + rewrite <- !app_assoc. cbn. unfold get_buffer, result.
      unfold_monad. cbn. done.
Qed.

Lemma load_from_src_witness :
  let w1 := exec (_beginPreload (Some (UserLoaded 3))) unloaded_world in
  let w2 := exec (answer 0 (XhrLoaded some_bytes)) w1 in
  let w3 := exec (answer 0 (DecodeSucceeded one_second)) w2 in
  pending w1 = [XhrRequest "a.mp3" (Some (UserLoaded 3))] /\
  pending w2 = [DecodeRequest some_bytes (Some (UserLoaded 3))] /\
  isLoaded (sound w3) = true /\
  log w3 = [XhrSend "a.mp3"; DecodeAudioData some_bytes;
            LoadedCalled 3 None true None].
Proof.
  cbv zeta.
  destruct (load_from_src unloaded_world "a.mp3" (Some 3) some_bytes
              one_second)
    as (Hsent & _ & Hdecode & _ & _ & _ & Hloaded & _ & _ & _ & _ & Hlog).
  - reflexivity.
  - reflexivity.
  - eexists. reflexivity.
  - eexists. reflexivity.
  - reflexivity.
  - split; [exact Hsent|]. split; [exact Hdecode|].
    split; [exact Hloaded|exact Hlog].
Defined.

(** ** X14: the gain of the context *)

(** X14.  Whatever sequence of [muted], [volume], [paused] and
    [toggleMute()] a fresh [SoundContext] goes through, the gain of its
    output node is [0] while it is muted and the stored volume otherwise.
    So [toggleMute()] twice gives back the context as it was, returning the
    original flag, and a volume set while muted is what the gain becomes
    when the mute is lifted. *)
Theorem context_gain_follows_mute_and_volume
    (initial : Ctx.AudioContextState) (ops : list ContextOperation) :
  let c := foldl context_run (Ctx.new_SoundContext initial) ops in
  Ctx._gain c = (if Ctx.get_muted c then 0%float else Ctx.get_volume c) /\
  Ctx.toggleMute (Ctx.toggleMute c).2 = (Ctx.get_muted c, c) /\
  forall volume,
    Ctx._gain (Ctx.set_muted false (Ctx.set_volume volume (Ctx.set_muted true c)))
    = volume.
Proof.
  cbn zeta.
  assert (Hinv : Ctx._gain (foldl context_run (Ctx.new_SoundContext initial) ops)
    = if Ctx._muted (foldl context_run (Ctx.new_SoundContext initial) ops)
      then 0%float
      else Ctx._volume (foldl context_run (Ctx.new_SoundContext initial) ops)).
  { induction ops as [|op ops IH] using rev_ind.
    - reflexivity.
    - rewrite foldl_app. cbn [foldl].
      destruct (foldl context_run (Ctx.new_SoundContext initial) ops)
        as [m v p g st].
      cbn in IH. destruct op as [[]| |[]|], m; cbn; congruence. }
  split; [exact Hinv|]. split; [|done].
  destruct (foldl context_run (Ctx.new_SoundContext initial) ops)
    as [m v p g st].
  cbn in *. subst g. unfold Ctx.toggleMute, Ctx.set_muted, Ctx.get_muted. cbn.
  by destruct m.
Qed.

(** ** X15: the constructor without preload *)

(** X15.  [new Sound(context, source)] with neither [preload] nor
    [autoPlay] returns normally and starts nothing: no request, promise or
    instance is created.  The asset is not loaded, not playing and not
    playable, has no buffer and an empty instance list; volume, loop, speed,
    [singleInstance] and [useXHR] read as given, with the defaults [1],
    [false], [1], [false] and [true], and [src] and [srcBuffer] are the
    given ones. *)
Theorem constructor_without_preload (source : Source) (w : World) :
  let o := constructor_options source in
  let w' := exec (new_Sound source) w in
  default false (Options.preload o) || default false (Options.autoPlay o)
    = false ->
  result (new_Sound source) w = Ok tt /\
  pending w' = pending w /\ promises w' = promises w /\ heap w' = heap w /\
  isLoaded (sound w') = false /\ isPlaying (sound w') = false /\
  result isPlayable w' = Ok false /\
  active w' = [] /\
  result get_volume w' = Ok (default 1%float (Options.volume o)) /\
  result get_loop w' = Ok (default false (Options.loop o)) /\
  result get_speed w' = Ok (default 1%float (Options.speed o)) /\
  result get_buffer w' = Ok None /\
  singleInstance (sound w') = default false (Options.singleInstance o) /\
  useXHR (sound w') = default true (Options.useXHR o) /\
  src (sound w') = Options.src o /\ srcBuffer (sound w') = Options.srcBuffer o.
Proof.
  cbn zeta. intros Hp.
  assert (Hrun : exists w1, constructor_fields source w = (Ok tt, w1) /\
    preload (sound w1) = false /\
    pending w1 = pending w /\ promises w1 = promises w /\ heap w1 = heap w /\
    isLoaded (sound w1) = false /\ isPlaying (sound w1) = false /\
    _instances (sound w1) = Some [] /\
    _volume (sound w1)
      = default 1%float (Options.volume (constructor_options source)) /\
    _source (sound w1)
      = Some {| buffer := None;
                source_loop :=
                  default false (Options.loop (constructor_options source));
                playbackRate :=
                  default 1%float
                    (Options.speed (constructor_options source)) |} /\
    singleInstance (sound w1)
      = default false (Options.singleInstance (constructor_options source)) /\
    useXHR (sound w1)
      = default true (Options.useXHR (constructor_options source)) /\
    src (sound w1) = Options.src (constructor_options source) /\
    srcBuffer (sound w1) = Options.srcBuffer (constructor_options source)).
  { unfold constructor_fields.
    erewrite bind_ok by reflexivity.
    erewrite bind_ok by reflexivity.
    erewrite bind_ok by reflexivity.
    erewrite bind_ok by reflexivity.
    destruct (Options.sprites (constructor_options source)) as [sprites|].
    - match goal with |- context [mbind _ (addSprites sprites) ?w1] =>
        destruct (addSprites_frame sprites w1 _ eq_refl)
          as (results & sprites' & lg & H)
      end.
      erewrite bind_ok by exact H. eexists. split; [reflexivity|].
      cbn. by rewrite Hp.
    - eexists. split; [reflexivity|]. cbn. by rewrite Hp. }
  destruct Hrun as (w1 & Hrun & Hpre & Hq & Hpr & Hh & Hl & Hpl & Hi & Hv
                    & Hsrc & Hsi & Hx & Hs & Hsb).
  unfold exec, result, new_Sound.
  erewrite bind_ok by exact Hrun. erewrite bind_ok by reflexivity.
  rewrite Hpre. cbn [when].
  unfold isPlayable, get_volume, get_loop, get_speed, get_buffer, active.
  unfold_monad. cbn. rewrite Hl, Hi, Hv, Hsrc. cbn. done.
Qed.

Lemma constructor_without_preload_witness :
  pending unloaded_world = [] /\
  result isPlayable unloaded_world = Ok false /\
  result get_volume unloaded_world = Ok 1%float /\
  src (sound unloaded_world) = Some "a.mp3".
Proof.
  destruct (constructor_without_preload (SourceString "a.mp3")
              (empty_world false))
    as (_ & Hpending & _ & _ & _ & _ & Hplayable & _ & Hvolume & _ & _ & _
        & _ & _ & Hsrc & _).
  - reflexivity.
  - split; [exact Hpending|]. split; [exact Hplayable|].
    split; [exact Hvolume|exact Hsrc].
Defined.

(** ** X16: adding several sprites *)

Lemma filter_taken_insert a s (sprites : gmap string SoundSprite) (l : list string) :
  a ∉ l ->
  filter (fun b => is_Some (member (<[a := s]> sprites) b)) l
  = filter (fun b => is_Some (member sprites b)) l.
Proof.
  induction l as [|b l IH]; intros Ha; [done|].
  apply not_elem_of_cons in Ha as [Hne Ha].
  rewrite !filter_cons, IH by done. unfold member.
  by rewrite lookup_insert_ne by done.
Qed.

Lemma addSprite_ok alias data w sprites :
  _sprites (sound w) = Some sprites ->
  addSprite alias data w
  = (Ok (new_SoundSprite data),
     with_sound
       (set__sprites (Some (<[alias := new_SoundSprite data]> sprites))
          (sound w))
       (with_log
          (log w ++
           if bool_decide (is_Some (member sprites alias))
           then [ConsoleAssert ("Alias " +:+ alias +:+ " is already taken")]
           else []) w)).
Proof.
  intros Hs. unfold addSprite, console_assert. unfold_monad. cbn.
  rewrite Hs. cbn. case_bool_decide; cbn; [done|].
  by rewrite app_nil_r, with_log_same_log.
Qed.

(** X16.  On a table that stores nothing under [__proto__],
    [addSprites(sprites)] with an object of pairwise different names other
    than [__proto__] returns the map of the sprites it made, one per entry,
    and the table then stores each of them under its name, all other names
    being stored as before.  The assertion "Alias <alias> is already taken"
    is reported, in the order of the entries, for every name under which
    the table found something before, a stored sprite or a value inherited
    from [Object.prototype], and for no other.  Apart from the table the
    asset is unchanged. *)
Theorem addSprites_registers_every_entry
    (source : list (string * SoundSpriteData))
    (sprites : gmap string SoundSprite) (w : World) :
  NoDup source.*1 -> "__proto__" ∉ source.*1 ->
  _sprites (sound w) = Some sprites -> sprites !! "__proto__" = None ->
  let added : gmap string SoundSprite :=
    list_to_map (prod_map id new_SoundSprite <$> source) in
  let w' := exec (addSprites source) w in
  result (addSprites source) w = Ok added /\
  _sprites (sound w') = Some (added ∪ sprites) /\
  (forall alias data, (alias, data) ∈ source ->
     default ∅ (_sprites (sound w')) !! alias = Some (new_SoundSprite data)) /\
  (forall alias, alias ∉ source.*1 ->
     default ∅ (_sprites (sound w')) !! alias = sprites !! alias) /\
  log w' = log w ++
    ((fun alias => ConsoleAssert ("Alias " +:+ alias +:+ " is already taken"))
       <$> filter (fun alias => is_Some (member sprites alias)) source.*1) /\
  sound w' = set__sprites (Some (added ∪ sprites)) (sound w) /\
  heap w' = heap w /\ pending w' = pending w /\ promises w' = promises w.
Proof.
  intros Hnd _ Hs _. cbn zeta.
  assert (Hrun : addSprites source w
    = (Ok (list_to_map (prod_map id new_SoundSprite <$> source)),
       with_sound
         (set__sprites
            (Some (list_to_map (prod_map id new_SoundSprite <$> source)
                   ∪ sprites)) (sound w))
         (with_log (log w ++
            ((fun alias => ConsoleAssert ("Alias " +:+ alias +:+ " is already taken"))
               <$> filter (fun alias => is_Some (member sprites alias)) source.*1))
            w))).
  { revert sprites w Hs Hnd.
    induction source as [|[alias data] rest IH]; intros sprites w Hs Hnd.
    - cbn. rewrite app_nil_r, (left_id_L ∅ (∪)).
      destruct w as [s c h p q lg d]. destruct s. cbn in *. by subst.
    - cbn [fmap list_fmap fst] in Hnd. apply NoDup_cons in Hnd as [Hfresh Hnd].
      cbn [addSprites].
      erewrite bind_ok by (by apply addSprite_ok).
      match goal with |- context [mbind _ (addSprites rest) ?w1] =>
        erewrite (bind_ok (addSprites rest) _ w1)
          by (by apply (IH (<[alias := new_SoundSprite data]> sprites)))
      end.
      unfold_monad. cbn. f_equal.
      rewrite filter_taken_insert by done.
      rewrite <- insert_union_l, <- insert_union_r; last first.
      { apply not_elem_of_list_to_map_1. rewrite <- list_fmap_compose.
        intros Hin. apply Hfresh.
        by replace (fst ∘ prod_map id new_SoundSprite) with
          (@fst string SoundSpriteData) in Hin. }
      destruct (decide (is_Some (member sprites alias))) as [Ht|Ht].
      + rewrite bool_decide_true by done. cbn.
        rewrite <- app_assoc. by destruct w.
      + rewrite bool_decide_false by done. cbn. rewrite app_nil_r.
        by destruct w. }
  unfold exec, result. rewrite Hrun. cbn.
  repeat split; try done.
  - intros alias data Hin. apply lookup_union_Some_l.
    apply elem_of_list_to_map_1.
    + rewrite <- list_fmap_compose.
      by replace (fst ∘ prod_map id new_SoundSprite) with
          (@fst string SoundSpriteData).
    + apply list_elem_of_fmap. by exists (alias, data).
  - intros alias Hout. apply lookup_union_r.
    apply not_elem_of_list_to_map_1. rewrite <- list_fmap_compose.
    by replace (fst ∘ prod_map id new_SoundSprite) with
          (@fst string SoundSpriteData).
Qed.

Lemma addSprites_registers_every_entry_witness :
  let w' :=
    exec (addSprites [("x", sprite_x); ("y", sprite_x); ("toString", sprite_x)])
      sprite_world in
  default ∅ (_sprites (sound w')) !! "y" = Some (new_SoundSprite sprite_x) /\
  log w' = log sprite_world ++
           [ConsoleAssert "Alias x is already taken";
            ConsoleAssert "Alias toString is already taken"].
Proof.
  cbv zeta.
  destruct (addSprites_registers_every_entry
              [("x", sprite_x); ("y", sprite_x); ("toString", sprite_x)]
              {["x" := new_SoundSprite sprite_x]} sprite_world)
    as (_ & _ & Hin & _ & Hlog & _).
  - by apply (bool_decide_unpack _).
  - by apply (bool_decide_unpack _).
  - reflexivity.
  - reflexivity.
  - split; [|exact Hlog].
    apply (Hin "y" sprite_x). right. left.
Defined.

(** ** X17: removing a sprite *)

Lemma with_sprites_same w sprites :
  _sprites (sound w) = Some sprites ->
  with_sound (set__sprites (Some sprites) (sound w)) w = w.
Proof. destruct w as [s c h p q lg d]. destruct s. cbn. by intros ->. Qed.

Lemma truthy_string_empty alias : truthy_string alias = false -> alias = "".
Proof. by destruct alias. Qed.

Lemma removeSprites_stored enumerate depth alias sprite sprites w :
  truthy_string alias = true -> _sprites (sound w) = Some sprites ->
  sprites !! alias = Some sprite ->
  removeSprites enumerate (S depth) (Some alias) w
  = (Ok tt, with_sound (set__sprites (Some (delete alias sprites)) (sound w)) w).
Proof.
  intros Ht Hs Hl. cbn [removeSprites truthy_opt]. rewrite Ht. cbn [negb].
  unfold_monad. cbn. rewrite Hs. cbn. by rewrite (member_stored _ _ _ Hl).
Qed.

Lemma removeSprites_absent enumerate depth alias sprites w :
  truthy_string alias = true -> _sprites (sound w) = Some sprites ->
  member sprites alias = None ->
  removeSprites enumerate (S depth) (Some alias) w = (Ok tt, w).
Proof.
  intros Ht Hs Hl. cbn [removeSprites truthy_opt]. rewrite Ht. cbn [negb].
  unfold_monad. cbn. rewrite Hs. cbn. by rewrite Hl.
Qed.

(** X17.  On a table that stores nothing under [__proto__], and for a
    non-empty name that is not a property name of [Object.prototype],
    [removeSprites(alias)] after [addSprites(alias, data)] returns normally
    and leaves the table without [alias] and with every other name as
    before the two calls.  If the name was free before, the world is
    exactly the one before the two calls; if it was taken, the earlier
    sprite does not come back.  Removing the name once more changes
    nothing. *)
Theorem sprite_add_remove_round_trip
    (enumerate : gmap string SoundSprite -> list string) (depth : nat)
    (alias : string) (data : SoundSpriteData)
    (sprites : gmap string SoundSprite) (w : World) :
  truthy_string alias = true -> alias ∉ Object_prototype ->
  _sprites (sound w) = Some sprites -> sprites !! "__proto__" = None ->
  let w1 := exec (addSprite alias data) w in
  let w2 := exec (removeSprites enumerate (S depth) (Some alias)) w1 in
  result (removeSprites enumerate (S depth) (Some alias)) w1 = Ok tt /\
  _sprites (sound w2) = Some (delete alias sprites) /\
  (forall other, other <> alias ->
     default ∅ (_sprites (sound w2)) !! other = sprites !! other) /\
  default ∅ (_sprites (sound w2)) !! alias = None /\
  (sprites !! alias = None -> w2 = w) /\
  exec (removeSprites enumerate (S depth) (Some alias)) w2 = w2.
Proof.
  intros Ht Hp Hs _. cbn zeta. unfold exec, result.
  rewrite (addSprite_ok alias data w sprites Hs). cbn [snd].
  erewrite removeSprites_stored by (done || apply lookup_insert_eq).
  cbn [fst snd].
  erewrite removeSprites_absent;
    [|done|done|by apply member_absent; [apply lookup_delete_eq|]].
  cbn. rewrite delete_insert_eq.
  repeat split.
  - intros other Hne. by apply lookup_delete_ne.
  - apply lookup_delete_eq.
  - intros Hfresh. rewrite (member_absent _ _ Hfresh Hp). cbn.
    rewrite app_nil_r, delete_id by done.
    destruct w as [s c h p q lg d]. destruct s. cbn in *. by subst.
Qed.

Lemma sprite_add_remove_round_trip_witness :
  exec (removeSprites some_order 1 (Some "x"))
    (exec (addSprite "x" sprite_x) loaded_world)
  = loaded_world.
Proof.
  destruct (sprite_add_remove_round_trip some_order 0 "x" sprite_x ∅
              loaded_world)
    as (_ & _ & _ & _ & Hback & _).
  - reflexivity.
  - by apply (bool_decide_unpack _).
  - reflexivity.
  - reflexivity.
  - apply Hback. reflexivity.
Defined.

(** ** X18: removing all sprites *)

Lemma truthy_string_nonempty alias : alias <> "" -> truthy_string alias = true.
Proof. by destruct alias. Qed.


Lemma for_in_remove enumerate depth (l : list string) : forall w sprites,
  _sprites (sound w) = Some sprites -> "" ∉ l ->
  for_in l (fun name => removeSprites enumerate (S depth) (Some name)) w
  = (Ok tt,
     with_sound
       (set__sprites (Some (foldl (fun m name => delete name m) sprites l))
          (sound w)) w).
Proof.
  induction l as [|name rest IH]; intros w sprites Hs Hl.
  - cbn. by rewrite with_sprites_same.
  - apply not_elem_of_cons in Hl as [Hne Hl].
    cbn [for_in foldl]. erewrite bind_ok by reflexivity. rewrite Hs.
    cbn [default]. case_bool_decide as Hin.
    + destruct Hin as [sprite Hsprite].
      erewrite bind_ok; last first.
      { eapply removeSprites_stored; [|done..].
        apply truthy_string_nonempty. by intros ->. }
      erewrite IH by done. by destruct w.
    + erewrite bind_ok by reflexivity. erewrite IH by done.
      rewrite delete_id; [done|].
      destruct (sprites !! name) eqn:E; [|done]. destruct Hin. eauto.
Qed.

Lemma removeSprites_unnamed enumerate depth alias sprites w :
  truthy_opt truthy_string alias = false ->
  _sprites (sound w) = Some sprites ->
  removeSprites enumerate (S depth) alias w
  = for_in (enumerate sprites)
      (fun name => removeSprites enumerate depth (Some name)) w.
Proof.
  intros Ha Hs. cbn [removeSprites]. rewrite Ha. cbn [negb].
  erewrite bind_ok by reflexivity. by rewrite Hs.
Qed.



(** ** X19: a sprite under the empty name *)

Lemma for_in_overflows enumerate depth :
  (forall w sprites alias,
     _sprites (sound w) = Some sprites -> is_Some (sprites !! "") ->
     truthy_opt truthy_string alias = false ->
     exists sprites', is_Some (sprites' !! "") /\
       removeSprites enumerate depth alias w
       = (Throw stack_overflow,
          with_sound (set__sprites (Some sprites') (sound w)) w)) ->
  forall (l : list string) w sprites,
  _sprites (sound w) = Some sprites -> is_Some (sprites !! "") -> "" ∈ l ->
  exists sprites', is_Some (sprites' !! "") /\
    for_in l (fun name => removeSprites enumerate depth (Some name)) w
    = (Throw stack_overflow,
       with_sound (set__sprites (Some sprites') (sound w)) w).
Proof.
  intros IHd. induction l as [|name rest IH]; intros w sprites Hs He Hin.
  - by apply elem_of_nil in Hin.
  - cbn [for_in]. erewrite bind_ok by reflexivity. rewrite Hs. cbn [default].
    destruct (decide (name = "")) as [->|Hne].
    + rewrite bool_decide_true by done.
      destruct (IHd w sprites (Some "") Hs He eq_refl) as (sprites' & He' & Hrun).
      exists sprites'. split; [done|]. by erewrite bind_throw.
    + apply elem_of_cons in Hin as [?|Hin]; [done|].
      case_bool_decide as Hpresent.
      * destruct depth as [|depth].
        { exists sprites. split; [done|]. erewrite bind_throw; [done|].
          cbn. unfold_monad. by rewrite with_sprites_same. }
        destruct Hpresent as [sprite Hsprite].
        erewrite bind_ok; last first.
        { eapply removeSprites_stored; [|done..].
          by apply truthy_string_nonempty. }
        match goal with |- context [for_in rest _ ?w1] =>
          destruct (IH w1 (delete name sprites)) as (sprites' & He' & Hrun);
            [done| |done|]
        end.
        { by rewrite lookup_delete_ne. }
        exists sprites'. split; [done|]. rewrite Hrun. by destruct w.
      * erewrite bind_ok by reflexivity. by apply (IH w sprites).
Qed.

Lemma removeSprites_overflows enumerate :
  enumerates enumerate ->
  forall depth w sprites alias,
  _sprites (sound w) = Some sprites -> is_Some (sprites !! "") ->
  truthy_opt truthy_string alias = false ->
  exists sprites', is_Some (sprites' !! "") /\
    removeSprites enumerate depth alias w
    = (Throw stack_overflow,
       with_sound (set__sprites (Some sprites') (sound w)) w).
Proof.
  intros Hen. induction depth as [|depth IH]; intros w sprites alias Hs He Ha.
  - exists sprites. split; [done|]. cbn. unfold_monad.
    by rewrite with_sprites_same.
  - erewrite removeSprites_unnamed by done.
    apply (for_in_overflows enumerate depth IH _ w sprites); [done..|].
    by apply Hen.
Qed.

(** X19.  With a sprite registered under the empty name,
    [removeSprites()] never returns: [removeSprites("")] takes the branch
    without alias again, so the calls nest until the call stack is
    exhausted, however deep it is; the sprite under the empty name is
    still there.  [destroy()] therefore throws too, after it has nulled
    [_nodes], [_context] and [_source] and before it touches [srcBuffer]
    or the instances, which are all left as they were. *)
Theorem empty_sprite_name_overflows
    (enumerate : gmap string SoundSprite -> list string) (depth : nat)
    (sprites : gmap string SoundSprite) (w : World) :
  enumerates enumerate ->
  _sprites (sound w) = Some sprites ->
  is_Some (sprites !! "") ->
  is_Some (_nodes (sound w)) ->
  let w1 := exec (removeSprites enumerate depth None) w in
  let w2 := exec (destroy enumerate depth) w in
  result (removeSprites enumerate depth None) w = Throw stack_overflow /\
  is_Some (default ∅ (_sprites (sound w1)) !! "") /\
  heap w1 = heap w /\ log w1 = log w /\
  result (destroy enumerate depth) w = Throw stack_overflow /\
  _nodes (sound w2) = None /\ _context (sound w2) = None /\
  _source (sound w2) = None /\
  is_Some (default ∅ (_sprites (sound w2)) !! "") /\
  srcBuffer (sound w2) = srcBuffer (sound w) /\
  _instances (sound w2) = _instances (sound w) /\
  heap w2 = heap w.
Proof.
  intros Hen Hs He [nodes Hn]. cbn zeta.
  destruct (removeSprites_overflows enumerate Hen depth w sprites None Hs He
              eq_refl) as (s1 & He1 & Hrun1).
  unfold exec, result. rewrite Hrun1. cbn [fst snd].
  split; [done|]. split; [done|]. split; [done|]. split; [done|].
  unfold destroy. erewrite bind_ok by reflexivity. rewrite Hn.
  erewrite bind_ok by reflexivity.
  erewrite bind_ok by reflexivity.
  erewrite bind_ok by reflexivity.
  erewrite bind_ok by reflexivity.
  match goal with |- context [mbind _ (removeSprites enumerate depth None) ?w0] =>
    destruct (removeSprites_overflows enumerate Hen depth w0 sprites None)
      as (s2 & He2 & Hrun2); [done..|]
  end.
  erewrite bind_throw by exact Hrun2. cbn. done.
Qed.

Lemma empty_sprite_name_overflows_witness :
  result (removeSprites some_order 5 None) unnamed_sprite_world
  = Throw stack_overflow /\
  result (destroy some_order 5) unnamed_sprite_world = Throw stack_overflow.
Proof.
  destruct (empty_sprite_name_overflows some_order 5
              {["" := new_SoundSprite sprite_x]} unnamed_sprite_world)
    as (Hremove & _ & _ & _ & Hdestroy & _).
  - apply some_order_enumerates.
  - reflexivity.
  - eexists. reflexivity.
  - eexists. reflexivity.
  - split; [exact Hremove|exact Hdestroy].
Defined.

(** ** X20: destroy *)

Lemma destroy_ok enumerate depth w nodes sprites l :
  enumerates enumerate ->
  _nodes (sound w) = Some nodes ->
  _sprites (sound w) = Some sprites -> sprites !! "" = None ->
  _instances (sound w) = Some l ->
  Forall (fun r => r < length (heap w)) l ->
  destroy enumerate (S (S depth)) w
  = (Ok tt, with_heap (foldr (alter destroyed) (heap w) l)
              (with_sound (released (sound w)) w)).
Proof.
  intros Hen Hn Hs He Hl Hv. unfold destroy.
  erewrite bind_ok by reflexivity. rewrite Hn.
  erewrite bind_ok by reflexivity.
  erewrite bind_ok by reflexivity.
  erewrite bind_ok by reflexivity.
  erewrite bind_ok by reflexivity.
  erewrite bind_ok; last first.
  { erewrite removeSprites_unnamed by done.
    apply for_in_remove; [done|].
    intros Hin. apply Hen in Hin. rewrite He in Hin. by destruct Hin. }
  erewrite bind_ok by reflexivity.
  erewrite bind_ok by reflexivity.
  erewrite bind_ok by (by apply (_removeInstances_ok _ l)).
  unfold_monad. cbn. by destruct w.
Qed.



(** ** X21: using a destroyed asset *)



(** ** X22: a decode that completes after destroy *)

(** X22.  [destroy()] leaves an outstanding decode outstanding.  When it
    then succeeds, its continuation sets [isLoaded] to true and throws a
    [TypeError] at the buffer setter: the asset is loaded but has no source
    stage and is not playable, the callback of the request is never called
    and its promise, if any, stays unsettled. *)
Theorem decode_after_destroy
    (enumerate : gmap string SoundSprite -> list string) (depth : nat)
    (sprites : gmap string SoundSprite) (w : World) (n : nat)
    (bytes : ArrayBuffer) (callback : option LoadedCallback)
    (decoded : AudioBuffer) :
  enumerates enumerate ->
  well_formed w ->
  is_Some (_nodes (sound w)) ->
  _sprites (sound w) = Some sprites -> sprites !! "" = None ->
  pending w !! n = Some (DecodeRequest bytes callback) ->
  let w1 := exec (destroy enumerate (S (S depth))) w in
  let w2 := exec (answer n (DecodeSucceeded decoded)) w1 in
  pending w1 = pending w /\
  (exists e, result (answer n (DecodeSucceeded decoded)) w1
             = Throw (TypeError e)) /\
  isLoaded (sound w2) = true /\
  _source (sound w2) = None /\
  result isPlayable w2 = Ok false /\
  log w2 = log w /\ promises w2 = promises w /\ heap w2 = heap w1 /\
  pending w2 = delete n (pending w).
Proof.
  intros Hen (l & Hl & Hnd & Hlive) [nodes Hn] Hs He Hreq. cbn zeta.
  unfold exec, result.
  erewrite destroy_ok by (done || by apply well_formed_valid).
  cbn [snd].
  erewrite answer_ok by (done || reflexivity).
  unfold decode_callback, set_buffer, isPlayable. unfold_monad. cbn.
  repeat split; try done. by eexists.
Qed.

Lemma decode_after_destroy_witness :
  let w1 := exec (destroy some_order 2) preloading_world in
  let w2 := exec (answer 0 (DecodeSucceeded one_second)) w1 in
  (exists e, result (answer 0 (DecodeSucceeded one_second)) w1
             = Throw (TypeError e)) /\
  isLoaded (sound w2) = true /\
  result isPlayable w2 = Ok false.
Proof.
  cbv zeta.
  destruct (decode_after_destroy some_order 0 ∅ preloading_world 0 some_bytes
              None one_second)
    as (_ & Hthrow & Hloaded & _ & Hplayable & _).
  - apply some_order_enumerates.
  - apply preloading_world_well_formed.
  - eexists. reflexivity.
  - reflexivity.
  - reflexivity.
  - reflexivity.
  - split; [exact Hthrow|]. split; [exact Hloaded|exact Hplayable].
Defined.

(** ** X23: play before the asset is loaded *)

(** X23.  On an asset that is not loaded, [play] whose sprite lookup
    succeeds returns one new promise [p], sets [autoPlay], stores the
    options as [_autoPlayOptions], and calls [_beginPreload]: with a [src]
    a request for it joins the queue, without [src] a decode of
    [srcBuffer] does, each carrying the callback of [p], which stays
    pending; with neither, [p] is rejected at once.  When a decode
    carrying that callback fails, [p] is rejected with the decode error;
    when it succeeds on an asset that still has [autoPlay] and these
    options, [p] is resolved with the instance spawned at that moment.  A
    settled promise is never settled again. *)
Theorem play_before_load_defers (source : PlaySource) (complete : option fn)
    (w : World) (o : PlayOptions.t) :
  isLoaded (sound w) = false ->
  play_sprite (play_defaults (play_options source complete)) w = (Ok o, w) ->
  let options := play_offset o in
  let p := length (promises w) in
  let callback := Some (PlayLoaded p (PlayOptions.loaded options)) in
  let w' := exec (play source complete) w in
  result (play source complete) w = Ok (Deferred p) /\
  autoPlay (sound w') = true /\
  _autoPlayOptions (sound w') = Some options /\
  length (promises w') = S p /\
  (if truthy_opt truthy_string (src (sound w)) then
     pending w' =
       pending w ++
         [(if useXHR (sound w) then XhrRequest else ReadFileRequest)
            (default "null" (src (sound w))) callback] /\
     promises w' !! p = Some PromisePending
   else
     match srcBuffer (sound w), _context (sound w) with
     | Some bytes, Some _ =>
         pending w' = pending w ++ [DecodeRequest bytes callback] /\
         promises w' !! p = Some PromisePending
     | Some bytes, None =>
         pending w' = pending w /\
         exists e, promises w' !! p = Some (Rejected e)
     | None, _ =>
         pending w' = pending w /\
         promises w' !! p = Some (Rejected (Error must_be_set))
     end) /\
  (forall (w2 : World) (n : nat) (bytes : ArrayBuffer),
     pending w2 !! n = Some (DecodeRequest bytes callback) ->
     promises w2 !! p = Some PromisePending ->
     promises (exec (answer n DecodeFailed) w2) !! p
       = Some (Rejected unable_to_decode) /\
     forall decoded : AudioBuffer,
       well_formed w2 -> is_Some (_source (sound w2)) ->
       autoPlay (sound w2) = true ->
       _autoPlayOptions (sound w2) = Some options ->
       let w3 := exec (answer n (DecodeSucceeded decoded)) w2 in
       promises w3 !! p = Some (Resolved (Some (Instance (length (heap w2)))))
       /\ length (heap w2) ∈ active w3
       /\ length (heap w3) = S (length (heap w2))) /\
  (forall (w2 : World) (outcome s : PromiseState),
     promises w2 !! p = Some s -> s <> PromisePending ->
     exec (settle p outcome) w2 = w2).
Proof.
  intros Hld Hs. cbn zeta.
  destruct (play_deferred_ok (play_offset o) w)
    as (w' & Hrun & Hauto & Hopts & Hlen & Hpre).
  assert (Hplay : play source complete w
                  = (Ok (Deferred (length (promises w))), w')).
  { unfold play. erewrite bind_ok by exact Hs. erewrite bind_ok by reflexivity.
    rewrite Hld. cbn [negb]. by erewrite bind_ok by exact Hrun. }
  unfold exec, result. rewrite Hplay. cbn [fst snd].
  do 5 (split; [done|]). split.
  - intros w2 n bytes Hreq Hp. split.
    + unfold exec. erewrite answer_ok by (done || reflexivity).
      unfold decode_callback.
      edestruct call_loaded_play as (w3 & Hrun3 & _ & _ & _ & Hp3);
        [|rewrite Hrun3; exact Hp3].
      done.
    + intros decoded (l & Hl & Hnd & Hlive) [b Hb] Ha Ho. cbn zeta.
      pose proof (well_formed_valid _ _ Hlive) as Hv.
      unfold exec. erewrite answer_ok by (done || reflexivity).
      erewrite (decode_success_ok _ _ _ l b); try done.
      2:{ cbn. rewrite Ho. cbn.
          replace (PlayOptions.sprite (play_offset o))
            with (PlayOptions.sprite o)
            by (unfold play_offset;
                by destruct (truthy_opt truthy_number (PlayOptions.offset o))).
          by eapply play_sprite_result. }
      cbn zeta.
      edestruct call_loaded_play as (w3 & Hrun3 & Hs3 & Hh3 & _ & Hp3);
        [|rewrite Hrun3].
      { unfold played. cbn. exact Hp. }
      cbn [snd]. split; [exact Hp3|].
      unfold active. rewrite Hs3, Hh3. unfold played. cbn. split.
      * apply elem_of_app. right. by left.
      * rewrite length_app. cbn.
        destruct (singleInstance (sound w2)); rewrite ?length_foldr_alter; lia.
  - intros w2 outcome s Hp Hne. unfold exec.
    by erewrite settle_settled.
Qed.

Lemma play_before_load_defers_witness :
  let w' := exec (play PlayUndefined None) preloading_world in
  result (play PlayUndefined None) preloading_world = Ok (Deferred 0) /\
  autoPlay (sound w') = true /\
  promises w' !! 0 = Some PromisePending /\
  promises (exec (answer 1 DecodeFailed) w') !! 0
  = Some (Rejected unable_to_decode) /\
  promises (exec (answer 1 (DecodeSucceeded one_second)) w') !! 0
  = Some (Resolved (Some (Instance 0))).
Proof.
  cbv zeta.
  destruct (play_before_load_defers PlayUndefined None preloading_world
              (play_defaults PlayOptions.empty))
    as (Hres & Hauto & Hopts & _ & Hqueue & Hanswer & _).
  - reflexivity.
  - reflexivity.
  - destruct Hqueue as [Hpending Hp].
    destruct (Hanswer (exec (play PlayUndefined None) preloading_world)
                1 some_bytes) as [Hfail Hok].
    + reflexivity.
    + reflexivity.
    + destruct (Hok one_second) as (Hresolved & _).
      * exists []. split; [reflexivity|]. split; constructor.
      * vm_compute. eexists. reflexivity.
      * reflexivity.
      * reflexivity.
      * repeat split; assumption.
Defined.

(** ** X24: names a plain object inherits *)

Lemma Object_prototype_truthy name :
  name ∈ Object_prototype -> truthy_string name = true.
Proof.
  intros Hin.
  assert (H : Forall (fun n => truthy_string n = true) Object_prototype)
    by (repeat constructor).
  rewrite Forall_forall in H. by apply H.
Qed.

(** X24.  On a table that stores nothing under [__proto__], a property
    name of [Object.prototype] other than [__proto__] that the table does
    not store is found all the same.  On a loaded asset [play] with that name neither asserts nor
    throws: it spawns an instance played without start, end and speed.
    [addSprites] with that name reports "Alias <alias> is already taken"
    before it stores the sprite.  [removeSprites] with that name throws a
    [TypeError] at [sprite.destroy()] and changes nothing. *)
Theorem inherited_name_is_found (alias : string) (complete : option fn)
    (data : SoundSpriteData) (sprites : gmap string SoundSprite) (w : World)
    (enumerate : gmap string SoundSprite -> list string) (depth : nat) :
  well_formed w -> isLoaded (sound w) = true ->
  _sprites (sound w) = Some sprites -> sprites !! "__proto__" = None ->
  alias ∈ Object_prototype -> alias <> "__proto__" ->
  sprites !! alias = None ->
  let r := length (heap w) in
  let w1 := exec (play (PlayAlias alias) complete) w in
  let w2 := exec (addSprite alias data) w in
  result (play (PlayAlias alias) complete) w = Ok (Instance r) /\
  log w1 = log w /\
  played_with w1 r
  = Some {| arg_start := None; arg_end := None; arg_speed := None;
            arg_loop := None; arg_fadeIn := Some 0%float;
            arg_fadeOut := Some 0%float |} /\
  result (addSprite alias data) w = Ok (new_SoundSprite data) /\
  log w2
  = log w ++ [ConsoleAssert ("Alias " +:+ alias +:+ " is already taken")] /\
  default ∅ (_sprites (sound w2)) !! alias = Some (new_SoundSprite data) /\
  exists e, removeSprites enumerate (S depth) (Some alias) w
            = (Throw (TypeError e), w).
Proof.
  intros (l & Hl & Hnd & Hlive) Hld Hs _ Hin _ Hfree. cbn zeta.
  pose proof (Object_prototype_truthy alias Hin) as Ha.
  pose proof (member_inherited sprites alias Hfree Hin) as Hm.
  pose proof (well_formed_valid _ _ Hlive) as Hv.
  unfold exec, result.
  erewrite play_loaded_ok; [|done|done|done|]; last first.
  { eapply (play_sprite_found _ w alias); cbn; done. }
  cbn [fst snd]. split; [done|]. split; [done|]. split.
  { unfold played_with, played. cbn.
    rewrite lookup_app_r; last first.
    { destruct (singleInstance (sound w)); by rewrite ?length_foldr_alter. }
    replace (length (heap w) - _) with 0; last first.
    { destruct (singleInstance (sound w)); rewrite ?length_foldr_alter; lia. }
    done. }
  rewrite (addSprite_ok alias data w sprites Hs). cbn [fst snd]. rewrite Hm.
  cbn. split; [done|]. split; [done|]. split; [apply lookup_insert_eq|].
  cbn [removeSprites truthy_opt]. rewrite Ha. cbn [negb].
  unfold_monad. cbn. rewrite Hs. cbn. rewrite Hm. by eexists.
Qed.

Lemma inherited_name_is_found_witness :
  result (play (PlayAlias "toString") None) sprite_world = Ok (Instance 0) /\
  log (exec (addSprite "toString" sprite_x) sprite_world)
  = log sprite_world ++ [ConsoleAssert "Alias toString is already taken"] /\
  exists e, removeSprites some_order 1 (Some "toString") sprite_world
            = (Throw (TypeError e), sprite_world).
Proof.
  destruct (inherited_name_is_found "toString" None sprite_x
              {["x" := new_SoundSprite sprite_x]} sprite_world some_order 0)
    as (Hplay & _ & _ & _ & Hlog & _ & Hremove).
  - exists []. split; [reflexivity|]. split; constructor.
  - reflexivity.
  - reflexivity.
  - reflexivity.
  - by apply (bool_decide_unpack _).
  - discriminate.
  - reflexivity.
  - split; [exact Hplay|]. split; [exact Hlog|exact Hremove].
Defined.
